(** * eat-medicine: the keypoint decision logic of the /pose endpoint

    The repository holds three revisions of one Express handler
    ([src/index.js], [src/unnamed/part_000], [src/unnamed/part_001]).
    Each one turns the keypoints returned by PoseNet into a JSON reply.
    This development embeds the part of the handlers that runs after
    [net.estimateSinglePose]: building the object [kp], the presence checks,
    the distance, the confidence, the acceptance flag and the reply.

    JavaScript numbers are IEEE 754 binary64 values; they are modelled by
    Rocq's primitive [float], whose operations are specified by
    [FloatAxioms] against [SpecFloat]. *)

From Stdlib Require Import ZArith Lia Floats.
From stdpp Require Import gmap strings list fin_maps.

Local Open Scope Z_scope.

(** A decimal literal such as [0.1] denotes the nearest binary64 value, as it
    does in JavaScript. *)
Set Warnings "-inexact-float".

(** ** JavaScript numbers and the built-ins the handlers call *)

Module JS.

(** [a < b], [a >= b] and [a === b] on Numbers: each is [false] as soon as
    an operand is [NaN], and [+0 === -0]. *)
Definition lt (a b : float) : bool := (a <? b)%float.
Definition ge (a b : float) : bool := (b <=? a)%float.
Definition strict_eq (a b : float) : bool := (a =? b)%float.

Definition Infinity : float := infinity.

Definition is_pos_zero (a : float) : bool := PrimFloat.Leibniz.eqb a zero.
Definition is_neg_zero (a : float) : bool := PrimFloat.Leibniz.eqb a neg_zero.

(** [Math.max(...)] (ECMA-262, 21.3.2.24): [NaN] if an argument is [NaN];
    otherwise start from [-Infinity] and go through the arguments, [+0]
    replacing a [-0] and a larger number replacing a smaller one. *)
Definition max_step (highest number : float) : float :=
  if is_pos_zero number && is_neg_zero highest then number
  else if lt highest number then number else highest.

Definition Math_max (args : list float) : float :=
  if existsb is_nan args then nan else fold_left max_step args neg_infinity.

(** [Math.min(...)] (ECMA-262, 21.3.2.25), the mirror image. *)
Definition min_step (lowest number : float) : float :=
  if is_neg_zero number && is_pos_zero lowest then number
  else if lt number lowest then number else lowest.

Definition Math_min (args : list float) : float :=
  if existsb is_nan args then nan else fold_left min_step args infinity.

Definition Math_sqrt (a : float) : float := sqrt a.

(** [x.toFixed(f)] picks the integer [n] for which [n / 10^f - |x|] is
    closest to zero, the larger one when there are two (ECMA-262,
    21.1.3.3, step 11.a), and prints the sign and the digits of [n] with a
    point before the last [f] of them. [toFixed_n] is that integer, for the
    magnitude [m * 2^e]. *)
Definition toFixed_n (f : nat) (m : positive) (e : Z) : Z :=
  let p := 10 ^ Z.of_nat f in
  if 0 <=? e then Z.pos m * 2 ^ e * p
  else (2 * Z.pos m * p + 2 ^ (- e)) / (2 * 2 ^ (- e)).

(** The binary64 value nearest to [n / d], ties to even, with sign [s]:
    what [parseFloat] returns for a decimal literal of that value. *)
Definition nearest_quotient (s : bool) (n d : Z) : spec_float :=
  let '(q, e, l) := SFdiv_core_binary prec emax n 0 d 0 in
  binary_round_aux prec emax s q e l.

(** [parseFloat(x.toFixed(f))]. [toFixed] prints [NaN] and the infinities
    by name and [parseFloat] reads them back; both zeros print without a
    sign; a finite [x] is printed as [n / 10^f] with its sign (from 10^21 on
    [toFixed] prints the shortest digits that read back as [x], and [x] is
    then an integer, so that [n / 10^f] is [x] as well). *)
Definition parseFloat_toFixed (x : float) (f : nat) : float :=
  match Prim2SF x with
  | S754_nan => nan
  | S754_infinity _ => x
  | S754_zero _ => zero
  | S754_finite s m e =>
      SF2Prim (nearest_quotient s (toFixed_n f m e) (10 ^ Z.of_nat f))
  end.

End JS.

(** ** Data model *)

(** A PoseNet position: [{ x, y }] in image pixels. *)
Record Position : Type := { x : float; y : float }.

(** An entry of [pose.keypoints]: [{ score, part, position }]. *)
Record Keypoint : Type :=
  { score : float; part : string; position : Position }.

(** The object [kp] of the handlers: own properties named after body parts,
    each holding a position. Reading a property that was never written gives
    [undefined], which is falsy; a position is an object, hence truthy. *)
Abbreviation KeypointSet := (gmap string Position).

(** The JSON object a handler replies with on success. The nearest-of-both
    revisions write [closestHand], [distance] and [accepted]; the
    right-priority revision writes [distance], [accepted] and [confidence].
    A key that a revision does not write is [None]. *)
Record Judgment : Type :=
  { closestHand : option string;
    distance : float;
    accepted : bool;
    confidence : option float }.

(** The JSON object of a [400] reply: [error], and [accepted] where the
    revision writes it. *)
Record Rejection : Type :=
  { error : string; rejected_accepted : option bool }.

(** What the handler sends: [res.json(result)], [res.status(400).json(...)],
    or the [catch] branch's [res.status(500).json(...)]. *)
Inductive Response : Type :=
| Status200 (result : Judgment)
| Status400 (body : Rejection)
| Status500 (message : string).

Definition NoseNotDetected : string := "Nose not detected".
Definition NoWristDetected : string := "No wrist detected".
Definition PoseEstimationFailed : string := "Pose estimation failed".

(** [["nose", "leftWrist", "rightWrist"].includes(point.part)] *)
Definition tracked_parts : list string := ["nose"; "leftWrist"; "rightWrist"].
Definition includes (l : list string) (s : string) : bool :=
  bool_decide (s ∈ l).

(** [a || b] on values that are objects or [undefined]. *)
Definition js_or {A : Type} (a b : option A) : option A :=
  match a with Some _ => a | None => b end.

(** ** src/index.js: filtered keypoints, wrist check, right-priority *)

Module Index.

(** [function dist(a, b)] *)
Definition dist (a b : Position) : float :=
  let dx := (x a - x b)%float in
  let dy := (y a - y b)%float in
  JS.Math_sqrt (dx * dx + dy * dy)%float.

(** The loop over [pose.keypoints] that fills [kp]. *)
Definition kp_step (kp : KeypointSet) (point : Keypoint) : KeypointSet :=
  if JS.lt (score point) 0.5%float then kp
  else if includes tracked_parts (part point)
       then <[part point := position point]> kp
       else kp.

Definition kp (keypoints : list Keypoint) : KeypointSet :=
  fold_left kp_step keypoints ∅.

Definition THRESHOLD_DISTANCE : float := 1500%float.
Definition ACCEPTANCE_THRESHOLD : float := 0.1%float.

(** [const nearestHand = kp.rightWrist || kp.leftWrist] *)
Definition nearestHand (kp : KeypointSet) : option Position :=
  js_or (kp !! "rightWrist") (kp !! "leftWrist").

(** [const confidence = Math.max(0, 1 - d / THRESHOLD_DISTANCE)] *)
Definition confidence (d : float) : float :=
  JS.Math_max [0%float; (1 - d / THRESHOLD_DISTANCE)%float].

Definition result (d : float) : Judgment :=
  Build_Judgment
    None
    (JS.parseFloat_toFixed d 2)
    (JS.ge (confidence d) ACCEPTANCE_THRESHOLD)
    (Some (JS.parseFloat_toFixed (confidence d) 3)).

(** The handler from [if (!kp.nose)] on. Reading [.x] of [undefined]
    throws, which the [catch] turns into the 500 reply. *)
Definition decide (kp : KeypointSet) : Response :=
  match kp !! "nose" with
  | None =>
      Status400 {| error := NoseNotDetected; rejected_accepted := Some false |}
  | Some nose =>
      if negb (bool_decide (is_Some (kp !! "rightWrist")))
         && negb (bool_decide (is_Some (kp !! "leftWrist")))
      then Status400 {| error := NoWristDetected;
                        rejected_accepted := Some false |}
      else match nearestHand kp with
           | Some hand => Status200 (result (dist hand nose))
           | None => Status500 PoseEstimationFailed
           end
  end.

Definition pose (keypoints : list Keypoint) : Response :=
  decide (kp keypoints).

End Index.

(** ** part_000 and part_001: unfiltered keypoints, nearest of both wrists *)

(** The two earlier revisions share the handler body; they differ in the
    distance helper only, which is a parameter here. *)
Section NearestOfBoth.

Variable dist : Position -> Position -> float.

Definition nearest_kp_step (kp : KeypointSet) (point : Keypoint)
  : KeypointSet :=
  if includes tracked_parts (part point)
  then <[part point := position point]> kp
  else kp.

Definition nearest_kp (keypoints : list Keypoint) : KeypointSet :=
  fold_left nearest_kp_step keypoints ∅.

Definition nearest_THRESHOLD_DISTANCE : float := 550%float.
Definition nearest_ACCEPTANCE_THRESHOLD : float := 0.1%float.

(** [kp.leftWrist ? dist(kp.leftWrist, kp.nose) : Infinity] *)
Definition distLeft (kp : KeypointSet) (nose : Position) : float :=
  match kp !! "leftWrist" with
  | Some w => dist w nose
  | None => JS.Infinity
  end.

Definition distRight (kp : KeypointSet) (nose : Position) : float :=
  match kp !! "rightWrist" with
  | Some w => dist w nose
  | None => JS.Infinity
  end.

Definition minDist (kp : KeypointSet) (nose : Position) : float :=
  JS.Math_min [distLeft kp nose; distRight kp nose].

(** [minDist === distLeft ? "leftWrist" : "rightWrist"] *)
Definition nearest_closestHand (kp : KeypointSet) (nose : Position)
  : string :=
  if JS.strict_eq (minDist kp nose) (distLeft kp nose)
  then "leftWrist" else "rightWrist".

(** [Math.max(0, 1 - minDist / THRESHOLD_DISTANCE)] *)
Definition confidenceDecimal (d : float) : float :=
  JS.Math_max [0%float; (1 - d / nearest_THRESHOLD_DISTANCE)%float].

Definition nearest_result (kp : KeypointSet) (nose : Position) : Judgment :=
  {| closestHand := Some (nearest_closestHand kp nose);
     distance := JS.parseFloat_toFixed (minDist kp nose) 2;
     accepted := JS.ge (confidenceDecimal (minDist kp nose))
                       nearest_ACCEPTANCE_THRESHOLD;
     confidence := None |}.

Definition nearest_decide (kp : KeypointSet) : Response :=
  match kp !! "nose" with
  | None =>
      Status400 {| error := NoseNotDetected; rejected_accepted := None |}
  | Some nose => Status200 (nearest_result kp nose)
  end.

Definition nearest_pose (keypoints : list Keypoint) : Response :=
  nearest_decide (nearest_kp keypoints).

End NearestOfBoth.

(** part_001 measures distances with the same [dist] as index.js. *)
Module Part001.
Definition dist := Index.dist.
Definition decide : KeypointSet -> Response := nearest_decide dist.
Definition pose : list Keypoint -> Response := nearest_pose dist.
End Part001.

(** part_000 squares with [**]. ECMA-262 leaves the result of [**] to the
    implementation ("an implementation-approximated Number value"), so the
    operator is a parameter of this revision. *)
Module Part000.
Section Exponentiate.
Variable exponentiate : float -> float -> float.

(** [function euclideanDistance(a, b)] *)
Definition euclideanDistance (a b : Position) : float :=
  JS.Math_sqrt (exponentiate (x a - x b) 2 + exponentiate (y a - y b) 2)%float.

Definition decide : KeypointSet -> Response :=
  nearest_decide euclideanDistance.
Definition pose : list Keypoint -> Response :=
  nearest_pose euclideanDistance.
End Exponentiate.
End Part000.

(** The confidence formula of the three revisions, for a threshold [T]:
    [Math.max(0, 1 - d / T)]. *)
Definition clamped (T d : float) : float :=
  JS.Math_max [0%float; (1 - d / T)%float].

(** ** Inputs used as examples *)

(** The example of the specification: nose (0,0), left wrist (3,4), right
    wrist (6,8). *)
Definition kp7 : KeypointSet :=
  <["nose" := {| x := 0; y := 0 |}]>
    (<["leftWrist" := {| x := 3; y := 4 |}]>
       (<["rightWrist" := {| x := 6; y := 8 |}]> ∅)).

Definition wrists_only : KeypointSet :=
  <["leftWrist" := {| x := 3; y := 4 |}]>
    (<["rightWrist" := {| x := 6; y := 8 |}]> ∅).

Definition nose_only : KeypointSet := <["nose" := {| x := 0; y := 0 |}]> ∅.

(** Four keypoints around the filter threshold of index.js. *)
Definition keypoints_at_the_boundary : list Keypoint :=
  [ {| score := 0.5; part := "nose"; position := {| x := 10; y := 20 |} |};
    {| score := 0.49; part := "leftWrist"; position := {| x := 3; y := 4 |} |};
    {| score := 0.9; part := "rightWrist"; position := {| x := 6; y := 8 |} |};
    {| score := 0.99; part := "leftEye"; position := {| x := 1; y := 1 |} |} ]%float.

(** ** Binary64 numbers as scaled integers

    Every finite binary64 number is an integer multiple of [2^-1074]. The
    definitions below map a number to that integer and describe rounding to
    nearest, ties to even, on integers and fractions of integers; the
    properties relate them to the operations of [SpecFloat]. *)

Module Binary64.

(** Where the fraction [r / b] lies in [0, 1) with respect to 0 and 1/2. *)
Definition loc_of (r b : Z) : location :=
  if r =? 0 then loc_Exact else loc_Inexact (2 * r ?= b).

(** [a / b] rounded to the nearest integer, ties to even. *)
Definition rhe (a b : Z) : Z :=
  round_nearest_even (a / b) (loc_of (a mod b) b).

(** A shift record holds the integer part of [a / b] and the place of its
    fraction. *)
Definition truncates (mrs : shr_record) (a b : Z) : Prop :=
  shr_m mrs = a / b /\ loc_of_shr_record mrs = loc_of (a mod b) b.

(** The scaled value of a binary64 number: its value times [2^1074], an
    integer; the infinities sit at [2^2098], above every finite value. *)
Definition cap : Z := 2 ^ 2098.

Definition rank (f : spec_float) : Z :=
  match f with
  | S754_zero _ => 0
  | S754_infinity s => cond_Zopp s cap
  | S754_nan => 0
  | S754_finite s m e => cond_Zopp s (Z.pos m * 2 ^ (e + 1074))
  end.

(** The scaled magnitude of a finite number. *)
Definition mag (m : positive) (e : Z) : Z := Z.pos m * 2 ^ (e + 1074).

(** Scaled binary64 values are the integers with at most 53 significant
    bits. [RN a b] rounds the non-negative rational [a / b] to the nearest
    such integer, ties to even: it drops [sig_shift] low bits of the integer
    part. *)
Definition sig_shift (w : Z) : Z := Z.max (Zdigits2 w - 53) 0.

Definition RN (a b : Z) : Z :=
  rhe a (b * 2 ^ sig_shift (a / b)) * 2 ^ sig_shift (a / b).

(** The nearest scaled value to an integer of either sign. *)
Definition RNs (z : Z) : Z :=
  cond_Zopp (z <? 0) (Z.min (RN (Z.abs z) 1) cap).

(** The rank of a primitive float. *)
Definition frank (a : float) : Z := rank (Prim2SF a).

(** The rank of [x / y] from the rank [z] of [x], for a positive finite [y]
    of rank [Y]. *)
Definition div_rank (Y z : Z) : Z :=
  cond_Zopp (z <? 0)
    (if cap <=? Z.abs z then cap
     else Z.min (RN (Z.abs z * 2 ^ 1074) Y) cap).

(** The rank of [c - y] from the rank [z] of [y], for a finite [c] of rank
    [C]. *)
Definition sub_rank (C z : Z) : Z :=
  if cap <=? Z.abs z then cond_Zopp (0 <? z) cap else RNs (C - z).

End Binary64.

(** ** Signs, printed ranks and further inputs *)

Module Sign.

(** A binary64 value that is a number and not below zero: a zero of either
    sign, a positive finite number or [+Infinity]. *)
Definition SFnonneg (x : spec_float) : bool :=
  match x with
  | S754_nan => false
  | S754_zero _ => true
  | S754_infinity s => negb s
  | S754_finite s _ _ => negb s
  end.

(** A binary64 value that is a zero or a finite number. *)
Definition SFfinite (x : spec_float) : bool :=
  match x with
  | S754_zero _ | S754_finite _ _ _ => true
  | _ => false
  end.

(** A position whose two coordinates are finite numbers. *)
Definition finite_position (p : Position) : Prop :=
  is_finite (x p) = true /\ is_finite (y p) = true.

End Sign.

(** A nose seen with score 0.3: index.js rejects, part_001 answers. *)
Definition dim_nose : list Keypoint :=
  [ {| score := 0.3; part := "nose"; position := {| x := 0; y := 0 |} |};
    {| score := 0.9; part := "leftWrist"; position := {| x := 3; y := 4 |} |} ]%float.

(** A [NaN] coordinate on the only wrist. *)
Definition nan_wrist : KeypointSet :=
  <["nose" := {| x := 0; y := 0 |}]>
    (<["leftWrist" := {| x := nan; y := 4 |}]> ∅).

(** A nose and a left wrist at distance 5. *)
Definition left_only : KeypointSet :=
  <["nose" := {| x := 0; y := 0 |}]>
    (<["leftWrist" := {| x := 3; y := 4 |}]> ∅).

Module Printed.
Import Binary64.

(** The rank of [parseFloat(x.toFixed(f))] from the rank [X] of a
    non-negative [x]: the integer [n] nearest to [x * 10^f], the larger one
    of two, then the nearest scaled value to [n / 10^f]. *)
Definition printed_rank (f : nat) (X : Z) : Z :=
  if cap <=? X then cap
  else Z.min (RN ((2 * X * 10 ^ Z.of_nat f + 2 ^ 1074) / (2 * 2 ^ 1074)
                  * 2 ^ 1074)
                 (10 ^ Z.of_nat f))
             cap.

(** The rank of a printed number, for either sign. *)
Definition printed_signed (f : nat) (z : Z) : Z :=
  cond_Zopp (z <? 0) (printed_rank f (Z.abs z)).

End Printed.

Module Decimals.
Import Binary64.

(** [x * 10^f] is an integer: [x] has at most [f] decimals. Infinities and
    [NaN] pass, as [toFixed] prints them by name. *)
Definition has_decimals (f : nat) (x : float) : Prop :=
  exists n : Z, frank x * 10 ^ Z.of_nat f = n * 2 ^ 1074.

End Decimals.

(** ** Exact distances, to compare with the computed ones *)

(** The square of the Euclidean distance between two points with finite
    coordinates, over the integers: the coordinates are taken as the exact
    multiples of [2^-1074] they are, so this is the exact square of the
    distance, times [2^2148]. Two distances compare as their squares do. *)
Definition exact_squared_distance (a b : Position) : Z :=
  (Binary64.frank (x a) - Binary64.frank (x b)) ^ 2
  + (Binary64.frank (y a) - Binary64.frank (y b)) ^ 2.

(** Two wrists at exactly the same distance from the nose. *)
Definition equidistant_wrists : KeypointSet :=
  <["nose" := {| x := 0; y := 0 |}]>
    (<["leftWrist" := {| x := 238.22307348251343; y := 133.51395845413208 |}]>
       (<["rightWrist" := {| x := 270.05905389785767;
                             y := 40.55018186569214 |}]> ∅)).

(** The left wrist is nearer to the nose than the right one, by less than
    the rounding of the computed distances. *)
Definition left_barely_nearer : KeypointSet :=
  <["nose" := {| x := 0; y := 0 |}]>
    (<["leftWrist" := {| x := 271.27; y := 217.88 |}]>
       (<["rightWrist" := {| x := 76.75; y := 339.3649139201046 |}]> ∅)).

(** ** The handlers around the decision: cleanup and [catch]

    After the result is built the handlers call [fs.unlinkSync] on the
    upload, inside the [try]; the 400 replies return before that call. What
    [fs] does is not the handlers' own: its answers are inputs here. *)

Module Cleanup.

(** The calls a request makes to [fs], in order. *)
Inductive FsCall : Type := unlinkSync | existsSync.

(** What [fs] answers during one request: whether [fs.unlinkSync] in the
    [try] block returns (it throws otherwise), what [fs.existsSync] returns
    in the [catch] block, and whether [fs.unlinkSync] returns there. *)
Record FsAnswers : Type :=
  { unlink_returns : bool;
    file_exists : bool;
    unlink_in_catch_returns : bool }.

(** How a request ends in the handler: with a reply, or with none when an
    exception leaves the [catch] block (the promise of the async handler is
    rejected; what the framework does then is not the handler's); and the
    calls made to [fs]. *)
Record Outcome : Type :=
  { reply : option Response; fs_calls : list FsCall }.

(** The [catch] block of index.js and part_001, entered after [calls]:
    [if (req.file && fs.existsSync(req.file.path)) fs.unlinkSync(...)], then
    the 500 reply ([req.file] is set on this path; the [details] key, the
    platform's message of the error, is left out of the reply). *)
Definition catch_with_cleanup (fs : FsAnswers) (calls : list FsCall) : Outcome :=
  if file_exists fs
  then if unlink_in_catch_returns fs
       then {| reply := Some (Status500 PoseEstimationFailed);
               fs_calls := calls ++ [existsSync; unlinkSync] |}
       else {| reply := None; fs_calls := calls ++ [existsSync; unlinkSync] |}
  else {| reply := Some (Status500 PoseEstimationFailed);
          fs_calls := calls ++ [existsSync] |}.

(** The [catch] block of part_000: the 500 reply and nothing else. *)
Definition catch_plain (calls : list FsCall) : Outcome :=
  {| reply := Some (Status500 PoseEstimationFailed); fs_calls := calls |}.

(** From the decision to the end of the request: a 400 reply returns at
    once; a result is followed by [fs.unlinkSync(req.file.path)] and
    [return res.json(result)]; an exception goes to [catch]. *)
Definition finish (catch : list FsCall -> Outcome) (fs : FsAnswers)
    (decided : Response) : Outcome :=
  match decided with
  | Status400 body => {| reply := Some (Status400 body); fs_calls := [] |}
  | Status200 result =>
      if unlink_returns fs
      then {| reply := Some (Status200 result); fs_calls := [unlinkSync] |}
      else catch [unlinkSync]
  | Status500 _ => catch []
  end.

(** The three handlers from [pose.keypoints] on. *)
Definition index_handler (fs : FsAnswers) (keypoints : list Keypoint)
  : Outcome :=
  finish (catch_with_cleanup fs) fs (Index.pose keypoints).

Definition part_001_handler (fs : FsAnswers) (keypoints : list Keypoint)
  : Outcome :=
  finish (catch_with_cleanup fs) fs (Part001.pose keypoints).

Definition part_000_handler (exponentiate : float -> float -> float)
    (fs : FsAnswers) (keypoints : list Keypoint) : Outcome :=
  finish catch_plain fs (Part000.pose exponentiate keypoints).

(** Some keypoint reports the part [name]; with a score of at least 0.5. *)
Definition listed (keypoints : list Keypoint) (name : string) : Prop :=
  exists point, point ∈ keypoints /\ part point = name.

Definition seen (keypoints : list Keypoint) (name : string) : Prop :=
  exists point, point ∈ keypoints /\ part point = name
                /\ JS.ge (score point) 0.5 = true.

(** [fs] lets every call return; [fs] lets no [unlinkSync] return. *)
Definition fs_works : FsAnswers :=
  {| unlink_returns := true; file_exists := true;
     unlink_in_catch_returns := true |}.

Definition fs_refuses : FsAnswers :=
  {| unlink_returns := false; file_exists := true;
     unlink_in_catch_returns := false |}.

End Cleanup.

(** * Properties *)

(** ** Comparisons of binary64 values *)

Module Compare.

Lemma SFcompare_swap (a b : spec_float) :
  SFcompare b a = option_map CompOpp (SFcompare a b).
Proof.
  destruct a as [[]|[]| |[] ma ea], b as [[]|[]| |[] mb eb];
    simpl; try reflexivity;
    rewrite (Z.compare_antisym ea eb);
    assert (H : Pos.compare_cont Eq mb ma = CompOpp (Pos.compare_cont Eq ma mb))
      by (rewrite Pos.compare_cont_antisym; reflexivity);
    rewrite H; destruct (ea ?= eb); simpl;
    try rewrite CompOpp_involutive; reflexivity.
Qed.

Lemma SFcompare_refl (a : spec_float) :
  a <> S754_nan -> SFcompare a a = Some Eq.
Proof.
  destruct a as [[]|[]| |[] ma ea]; simpl; try congruence; intros _;
    rewrite Z.compare_refl, Pos.compare_cont_refl; reflexivity.
Qed.

Lemma is_nan_spec (a : float) :
  is_nan a = true <-> Prim2SF a = S754_nan.
Proof.
  unfold is_nan. rewrite FloatAxioms.eqb_spec. unfold SFeqb. split.
  - destruct (Prim2SF a) eqn:E; try reflexivity;
      rewrite SFcompare_refl by discriminate; discriminate.
  - intros ->. reflexivity.
Qed.

Lemma ltb_compare (a b : float) :
  (a <? b)%float = true <-> SFcompare (Prim2SF a) (Prim2SF b) = Some Lt.
Proof.
  rewrite FloatAxioms.ltb_spec. unfold SFltb.
  destruct (SFcompare _ _) as [[]|]; split; congruence.
Qed.

Lemma eqb_compare (a b : float) :
  (a =? b)%float = true <-> SFcompare (Prim2SF a) (Prim2SF b) = Some Eq.
Proof.
  rewrite FloatAxioms.eqb_spec. unfold SFeqb.
  destruct (SFcompare _ _) as [[]|]; split; congruence.
Qed.

Lemma compare_not_nan (a b : float) (c : comparison) :
  SFcompare (Prim2SF a) (Prim2SF b) = Some c ->
  is_nan a = false /\ is_nan b = false.
Proof.
  intros H. split; apply not_true_is_false; rewrite is_nan_spec; intros E;
    rewrite E in H; destruct (Prim2SF a), (Prim2SF b); discriminate.
Qed.

Lemma eqb_refl (a : float) : is_nan a = false -> (a =? a)%float = true.
Proof.
  intros H. apply eqb_compare, SFcompare_refl. intros E.
  apply is_nan_spec in E. congruence.
Qed.

Lemma eqb_sym (a b : float) : (a =? b)%float = (b =? a)%float.
Proof.
  rewrite !FloatAxioms.eqb_spec. unfold SFeqb. rewrite (SFcompare_swap (Prim2SF a)).
  destruct (SFcompare _ _) as [[]|]; reflexivity.
Qed.

Lemma ltb_not_gtb (a b : float) :
  (a <? b)%float = true -> (b <? a)%float = false.
Proof.
  rewrite ltb_compare, (FloatAxioms.ltb_spec b a). unfold SFltb.
  rewrite (SFcompare_swap (Prim2SF a)). intros ->. reflexivity.
Qed.

Lemma ltb_not_eqb (a b : float) :
  (a <? b)%float = true -> (a =? b)%float = false.
Proof. rewrite ltb_compare, FloatAxioms.eqb_spec. unfold SFeqb. intros ->. reflexivity. Qed.

Lemma eqb_not_ltb (a b : float) :
  (a =? b)%float = true -> (a <? b)%float = false.
Proof. rewrite eqb_compare, FloatAxioms.ltb_spec. unfold SFltb. intros ->. reflexivity. Qed.

(** [a >= b] fails exactly when [a < b], unless one of them is [NaN]. *)
Lemma leb_negb_ltb (a b : float) :
  is_nan a = false -> is_nan b = false ->
  (b <=? a)%float = negb (a <? b)%float.
Proof.
  intros Ha Hb. rewrite FloatAxioms.leb_spec, FloatAxioms.ltb_spec. unfold SFleb, SFltb.
  rewrite (SFcompare_swap (Prim2SF a)).
  destruct (SFcompare (Prim2SF a) (Prim2SF b)) as [[]|] eqn:E; try reflexivity.
  exfalso.
  assert (Prim2SF a <> S754_nan) by (rewrite <- is_nan_spec; congruence).
  assert (Prim2SF b <> S754_nan) by (rewrite <- is_nan_spec; congruence).
  destruct (Prim2SF a), (Prim2SF b); simpl in E; congruence.
Qed.

(** Nothing but [+Infinity] fails to be below [+Infinity]. *)
Lemma not_ltb_infinity (a : float) :
  is_nan a = false -> (a <? infinity)%float = false -> a = infinity.
Proof.
  intros Hn H. apply Prim2SF_inj.
  assert (Prim2SF a <> S754_nan) by (rewrite <- is_nan_spec; congruence).
  rewrite FloatAxioms.ltb_spec in H. unfold SFltb in H.
  change (Prim2SF infinity) with (S754_infinity false) in *.
  destruct (Prim2SF a) as [[]|[]| |[] ? ?]; simpl in H; congruence.
Qed.

End Compare.

(** ** Rounding to nearest on scaled integers *)

Module Digits.

Lemma digits2_pos_size (p : positive) : digits2_pos p = Pos.size p.
Proof. induction p; simpl; congruence. Qed.

Lemma Zdigits2_log2 (m : Z) : 0 < m -> Zdigits2 m = Z.log2 m + 1.
Proof.
  destruct m as [|p|p]; try lia. intros _. simpl.
  rewrite digits2_pos_size. destruct p; simpl; lia.
Qed.

Lemma Zdigits2_nonneg (m : Z) : 0 <= Zdigits2 m.
Proof. destruct m; simpl; lia. Qed.

Lemma Zdigits2_bounds (m : Z) :
  0 < m -> 2 ^ (Zdigits2 m - 1) <= m < 2 ^ Zdigits2 m.
Proof.
  intros H. rewrite Zdigits2_log2 by exact H.
  replace (Z.log2 m + 1 - 1) with (Z.log2 m) by lia.
  apply Z.log2_spec. exact H.
Qed.

Lemma Zdigits2_lt_pow2 (m d : Z) :
  0 <= m -> 0 <= d -> (m < 2 ^ d <-> Zdigits2 m <= d).
Proof.
  intros Hm Hd. destruct (Z.eq_dec m 0) as [->|Hz].
  - simpl. split; intros; [lia|]. apply Z.pow_pos_nonneg; lia.
  - rewrite Zdigits2_log2 by lia.
    rewrite (Z.log2_lt_pow2 m d) by lia. lia.
Qed.

Lemma Zdigits2_le_pow2 (m d : Z) :
  0 <= m -> 1 <= d -> (2 ^ (d - 1) <= m <-> d <= Zdigits2 m).
Proof.
  intros Hm Hd. destruct (Z.eq_dec m 0) as [->|Hz].
  - simpl. split; intros H; [|lia].
    assert (0 < 2 ^ (d - 1)) by (apply Z.pow_pos_nonneg; lia). lia.
  - rewrite Zdigits2_log2 by lia.
    rewrite (Z.log2_le_pow2 m (d - 1)) by lia. lia.
Qed.

Lemma Zdigits2_mono (m n : Z) : 0 <= m <= n -> Zdigits2 m <= Zdigits2 n.
Proof.
  intros H. apply Zdigits2_lt_pow2; try lia. apply Zdigits2_nonneg.
  destruct (Z.eq_dec n 0) as [->|Hn].
  - assert (m = 0) by lia. subst. simpl. lia.
  - pose proof (Zdigits2_bounds n). lia.
Qed.

(** digits of [m / 2^j] *)
Lemma Zdigits2_shiftr (m j : Z) :
  0 <= m -> 0 <= j -> Zdigits2 (m / 2 ^ j) = Z.max (Zdigits2 m - j) 0.
Proof.
  intros Hm Hj.
  assert (P : 0 < 2 ^ j) by (apply Z.pow_pos_nonneg; lia).
  destruct (Z.eq_dec m 0) as [->|Hz].
  { rewrite Z.div_0_l by lia. simpl. lia. }
  pose proof (Zdigits2_bounds m ltac:(lia)) as [Hlo Hhi].
  pose proof (Zdigits2_nonneg m).
  destruct (Z_lt_le_dec (Zdigits2 m) (j + 1)) as [Hs|Hs].
  - (* quotient is zero *)
    assert (m < 2 ^ j).
    { eapply Z.lt_le_trans; [exact Hhi|]. apply Z.pow_le_mono_r; lia. }
    rewrite Z.div_small by lia. simpl. lia.
  - assert (Hq : 2 ^ (Zdigits2 m - j - 1) <= m / 2 ^ j < 2 ^ (Zdigits2 m - j)).
    { split.
      - apply Z.div_le_lower_bound; [lia|].
        rewrite <- Z.pow_add_r by lia.
        replace (j + (Zdigits2 m - j - 1)) with (Zdigits2 m - 1) by lia. exact Hlo.
      - apply Z.div_lt_upper_bound; [lia|].
        rewrite <- Z.pow_add_r by lia.
        replace (j + (Zdigits2 m - j)) with (Zdigits2 m) by lia. exact Hhi. }
    assert (0 <= m / 2 ^ j) by (apply Z.div_pos; lia).
    apply Z.le_antisymm.
    + rewrite Z.max_l by lia. apply Zdigits2_lt_pow2; lia.
    + rewrite Z.max_l by lia.
      apply Zdigits2_le_pow2; lia.
Qed.

End Digits.

Module Rounding.
Import Binary64.

Lemma rhe_cases (a b : Z) :
  0 < b ->
  (rhe a b = a / b /\ (2 * (a mod b) < b \/ (2 * (a mod b) = b /\ Z.even (a / b) = true))) \/
  (rhe a b = a / b + 1 /\ (b < 2 * (a mod b) \/ (2 * (a mod b) = b /\ Z.even (a / b) = false))).
Proof.
  intros Hb. unfold rhe, loc_of, round_nearest_even.
  pose proof (Z.mod_pos_bound a b Hb).
  destruct (Z.eqb_spec (a mod b) 0) as [E|E].
  - left. split; [reflexivity|]. lia.
  - destruct (Z.compare_spec (2 * (a mod b)) b) as [C|C|C].
    + destruct (Z.even (a / b)) eqn:Ev; [left|right]; auto.
    + left; auto.
    + right; auto.
Qed.

Lemma rhe_mono (a1 b1 a2 b2 : Z) :
  0 < b1 -> 0 < b2 -> a1 * b2 <= a2 * b1 -> rhe a1 b1 <= rhe a2 b2.
Proof.
  intros H1 H2 H.
  pose proof (Z.div_mod a1 b1 ltac:(lia)) as D1.
  pose proof (Z.div_mod a2 b2 ltac:(lia)) as D2.
  pose proof (Z.mod_pos_bound a1 b1 H1) as R1.
  pose proof (Z.mod_pos_bound a2 b2 H2) as R2.
  destruct (rhe_cases a1 b1 H1) as [[-> C1]|[-> C1]];
    destruct (rhe_cases a2 b2 H2) as [[-> C2]|[-> C2]];
    revert D1 D2 R1 R2 C1 C2;
    generalize (a1 / b1) (a1 mod b1) (a2 / b2) (a2 mod b2);
    intros q1 r1 q2 r2 D1 D2 R1 R2 C1 C2;
    assert (Hq : q1 <= q2)
      by (destruct (Z_le_gt_dec q1 q2) as [|G]; [assumption|exfalso];
          assert (E1 : (q2 + 1) * b1 <= a1) by nia;
          assert (E2 : a2 < (q2 + 1) * b2) by nia;
          assert (E3 : (q2 + 1) * b1 * b2 <= a1 * b2)
            by (apply Z.mul_le_mono_nonneg_r; lia);
          assert (E4 : a2 * b1 < (q2 + 1) * b2 * b1)
            by (apply Z.mul_lt_mono_pos_r; lia);
          lia);
    try lia.
  destruct (Z.eq_dec q1 q2) as [Eq|Ne]; [|lia].
  exfalso. subst q2.
  assert (r1 * b2 <= r2 * b1) by nia.
  destruct C1 as [C1|[C1 E1]], C2 as [C2|[C2 E2]]; try nia.
  congruence.
Qed.

Lemma rhe_ext (a1 b1 a2 b2 : Z) :
  0 < b1 -> 0 < b2 -> a1 * b2 = a2 * b1 -> rhe a1 b1 = rhe a2 b2.
Proof.
  intros. apply Z.le_antisymm; apply rhe_mono; lia.
Qed.

Lemma rhe_lower (a b k : Z) : 0 < b -> k * b <= a -> k <= rhe a b.
Proof.
  intros Hb H.
  assert (k <= a / b) by (apply Z.div_le_lower_bound; lia).
  destruct (rhe_cases a b Hb) as [[-> _]|[-> _]]; lia.
Qed.

Lemma rhe_upper (a b k : Z) : 0 < b -> a <= k * b -> rhe a b <= k.
Proof.
  intros Hb H.
  pose proof (Z.div_mod a b ltac:(lia)).
  pose proof (Z.mod_pos_bound a b Hb).
  destruct (rhe_cases a b Hb) as [[-> _]|[-> C]]; nia.
Qed.

Lemma rhe_nonneg (a b : Z) : 0 <= a -> 0 < b -> 0 <= rhe a b.
Proof. intros. apply rhe_lower; lia. Qed.

Lemma shr_1_fields (q : Z) (r s : bool) :
  0 <= q ->
  shr_1 (Build_shr_record q r s)
  = Build_shr_record (q / 2) (Z.odd q) (orb r s).
Proof.
  intros Hq. destruct q as [|[p|p|]|p]; try lia; simpl shr_1; f_equal.
  - rewrite Pos2Z.inj_xI. apply Z.div_unique with 1; lia.
  - rewrite Pos2Z.inj_xO. apply Z.div_unique with 0; lia.
Qed.

(** One step of the right shift divides by two. *)
Lemma shr_1_truncates (mrs : shr_record) (a b : Z) :
  0 <= a -> 0 < b -> truncates mrs a b -> truncates (shr_1 mrs) a (b * 2).
Proof.
  intros Ha Hb [Hm Hl].
  pose proof (Z.mod_pos_bound a b Hb) as R.
  assert (Hq : 0 <= a / b) by (apply Z.div_pos; lia).
  assert (Hdiv : a / (b * 2) = a / b / 2) by (rewrite Z.div_div; lia).
  assert (Hmod : a mod (b * 2) = a mod b + b * ((a / b) mod 2))
    by (apply Z.rem_mul_r; lia).
  destruct mrs as [m r s]. simpl in Hm, Hl. subst m.
  assert (Hs : orb r s = negb (a mod b =? 0)).
  { unfold loc_of in Hl. destruct (Z.eqb_spec (a mod b) 0), r, s;
      simpl in *; congruence. }
  rewrite shr_1_fields by exact Hq. unfold truncates. simpl.
  split; [symmetry; exact Hdiv|].
  rewrite Hmod, Hs. rewrite Zmod_odd. unfold loc_of.
  destruct (Z.odd (a / b)), (Z.eqb_spec (a mod b) 0) as [E|E]; simpl.
  - destruct (Z.eqb_spec (a mod b + b * 1) 0); [lia|].
    f_equal. symmetry. apply Z.compare_eq_iff. lia.
  - destruct (Z.eqb_spec (a mod b + b * 1) 0); [lia|].
    f_equal. symmetry. apply Z.compare_gt_iff. lia.
  - destruct (Z.eqb_spec (a mod b + b * 0) 0); [reflexivity|lia].
  - destruct (Z.eqb_spec (a mod b + b * 0) 0); [lia|].
    f_equal. symmetry. apply Z.compare_lt_iff. lia.
Qed.

Lemma pow2_xI (p : positive) : 2 ^ Z.pos p~1 = 2 * 2 ^ Z.pos p * 2 ^ Z.pos p.
Proof.
  change (Z.pos p~1) with (2 * Z.pos p + 1).
  rewrite Z.pow_add_r, Z.pow_twice_r by lia. change (2 ^ 1) with 2. ring.
Qed.

Lemma pow2_xO (p : positive) : 2 ^ Z.pos p~0 = 2 ^ Z.pos p * 2 ^ Z.pos p.
Proof. change (Z.pos p~0) with (2 * Z.pos p). apply Z.pow_twice_r. Qed.

Lemma iter_shr_1_truncates (p : positive) :
  forall (mrs : shr_record) (a b : Z),
    0 <= a -> 0 < b -> truncates mrs a b ->
    truncates (SpecFloat.iter_pos shr_1 p mrs) a (b * 2 ^ Z.pos p).
Proof.
  induction p as [p IH|p IH|]; intros mrs a b Ha Hb H;
    simpl SpecFloat.iter_pos.
  - assert (P : 0 < 2 ^ Z.pos p) by (apply Z.pow_pos_nonneg; lia).
    replace (b * 2 ^ Z.pos p~1) with (b * 2 * 2 ^ Z.pos p * 2 ^ Z.pos p)
      by (rewrite pow2_xI; ring).
    apply IH; [lia|nia|]. apply IH; [lia|lia|]. apply shr_1_truncates; auto.
  - assert (P : 0 < 2 ^ Z.pos p) by (apply Z.pow_pos_nonneg; lia).
    replace (b * 2 ^ Z.pos p~0) with (b * 2 ^ Z.pos p * 2 ^ Z.pos p)
      by (rewrite pow2_xO; ring).
    apply IH; [lia|nia|]. apply IH; auto.
  - change (2 ^ 1) with 2. apply shr_1_truncates; auto.
Qed.

Lemma shr_truncates (mrs : shr_record) (e n a b : Z) :
  0 <= a -> 0 < b -> 0 <= n -> truncates mrs a b ->
  truncates (fst (shr mrs e n)) a (b * 2 ^ n) /\ snd (shr mrs e n) = e + n.
Proof.
  intros Ha Hb Hn H. destruct n as [|p|p]; [| |lia]; simpl.
  - rewrite Z.mul_1_r, Z.add_0_r. auto.
  - split; [|reflexivity]. apply iter_shr_1_truncates; auto.
Qed.

Lemma record_of_loc_truncates (m : Z) (l : location) (a b : Z) :
  m = a / b -> l = loc_of (a mod b) b ->
  truncates (shr_record_of_loc m l) a b.
Proof.
  intros -> ->. unfold truncates. split.
  - destruct (loc_of _ _) as [|[]]; reflexivity.
  - destruct (loc_of _ _) as [|[]]; reflexivity.
Qed.

End Rounding.

Module RoundAux.
Import Binary64 Digits Rounding.

Lemma shr_nonpos (mrs : shr_record) (e n : Z) : n <= 0 -> shr mrs e n = (mrs, e).
Proof. destruct n; try reflexivity. lia. Qed.

Lemma fexp_shift (d e : Z) :
  fexp prec emax (d + e) - e = Z.max (d - 53) (- (e + 1074)).
Proof. unfold fexp, SpecFloat.emin, prec, emax. lia. Qed.

Lemma pow2_pos (k : Z) : 0 <= k -> 0 < 2 ^ k.
Proof. intros. apply Z.pow_pos_nonneg; lia. Qed.

Lemma binary_round_aux_rank (s : bool) (mz ez : Z) (lz : location) (a b : Z) :
  0 <= a -> 0 < b -> mz = a / b -> lz = loc_of (a mod b) b ->
  0 <= Z.max (Zdigits2 mz - 53) (- (ez + 1074)) ->
  binary_round_aux prec emax s mz ez lz <> S754_nan /\
  rank (binary_round_aux prec emax s mz ez lz)
  = cond_Zopp s
      (Z.min (rhe a (b * 2 ^ Z.max (Zdigits2 mz - 53) (- (ez + 1074)))
              * 2 ^ (ez + Z.max (Zdigits2 mz - 53) (- (ez + 1074)) + 1074))
             cap).
Proof.
  intros Ha Hb Hm Hl Hn1.
  set (n1 := Z.max (Zdigits2 mz - 53) (- (ez + 1074))) in *.
  assert (Hmz : 0 <= mz) by (subst mz; apply Z.div_pos; lia).
  assert (P1 : 0 < 2 ^ n1) by (apply pow2_pos; lia).
  unfold binary_round_aux, shr_fexp. rewrite fexp_shift. fold n1.
  destruct (shr_truncates (shr_record_of_loc mz lz) ez n1 a b Ha Hb Hn1
              (record_of_loc_truncates mz lz a b Hm Hl)) as [[Tm Tl] Te].
  destruct (shr (shr_record_of_loc mz lz) ez n1) as [mrs' e'].
  simpl in Tm, Tl, Te. subst e'.
  rewrite Tm, Tl. fold (rhe a (b * 2 ^ n1)).
  set (n := rhe a (b * 2 ^ n1)).
  (* the truncated mantissa has at most 53 digits *)
  assert (Hm1 : a / (b * 2 ^ n1) = mz / 2 ^ n1)
    by (rewrite <- Z.div_div by lia; subst mz; reflexivity).
  assert (Hd1 : Zdigits2 (a / (b * 2 ^ n1)) = Z.max (Zdigits2 mz - n1) 0)
    by (rewrite Hm1; apply Zdigits2_shiftr; lia).
  assert (Hm1pos : 0 <= a / (b * 2 ^ n1)) by (apply Z.div_pos; nia).
  assert (Hm1lt : a / (b * 2 ^ n1) < 2 ^ 53)
    by (apply Zdigits2_lt_pow2; lia).
  assert (Hn : a / (b * 2 ^ n1) <= n <= a / (b * 2 ^ n1) + 1)
    by (unfold n; destruct (rhe_cases a (b * 2 ^ n1) ltac:(nia))
          as [[-> _]|[-> _]]; lia).
  rewrite fexp_shift.
  set (sh := ez + n1 + 1074). assert (Hsh : 0 <= sh) by lia.
  assert (Psh : 0 < 2 ^ sh) by (apply pow2_pos; lia).
  replace (- (ez + n1 + 1074)) with (- sh) by lia.
  (* when the exponent is above the least one, the mantissa is normal *)
  assert (Hnorm : 0 < sh -> 2 ^ 52 <= n).
  { intros Hpos. assert (n1 = Zdigits2 mz - 53) by lia.
    assert (53 <= Zdigits2 (a / (b * 2 ^ n1))) by lia.
    apply (Zdigits2_le_pow2 _ 53) in H0; lia. }
  (* the second shift: by one digit when the rounding carried, else none *)
  set (n2 := if Z.eq_dec n (2 ^ 53) then 1 else 0).
  assert (Hn2 : 0 <= n2 <= 1) by (unfold n2; destruct (Z.eq_dec _ _); lia).
  assert (Hshr2 : exists mrs'',
             shr (shr_record_of_loc n loc_Exact) (ez + n1)
                 (Z.max (Zdigits2 n - 53) (- sh)) = (mrs'', ez + n1 + n2)
             /\ shr_m mrs'' * 2 ^ n2 = n /\ 0 <= shr_m mrs'' < 2 ^ 53
             /\ (0 < sh + n2 -> 2 ^ 52 <= shr_m mrs'')).
  { unfold n2. destruct (Z.eq_dec n (2 ^ 53)) as [E|NE].
    - rewrite E. change (Zdigits2 (2 ^ 53) - 53) with 1.
      rewrite Z.max_l by lia.
      eexists. split; [reflexivity|].
      split; [reflexivity|]. split; [split|intros _]; vm_compute;
        try reflexivity; discriminate.
    - assert (Hlt : n < 2 ^ 53) by lia.
      assert (Hdn : Zdigits2 n <= 53) by (apply Zdigits2_lt_pow2; lia).
      rewrite shr_nonpos by lia. eexists. split; [f_equal; lia|].
      replace (shr_m (shr_record_of_loc n loc_Exact)) with n by reflexivity.
      repeat split; try lia. }
  destruct Hshr2 as (mrs'' & -> & Hval & Hrange & Hnorm'').
  assert (Hrank : n * 2 ^ sh = shr_m mrs'' * 2 ^ (sh + n2))
    by (rewrite <- Hval, Z.pow_add_r by lia; ring).
  rewrite Hrank.
  replace (ez + n1 + n2) with (sh + n2 - 1074) by lia.
  assert (Hs2 : 0 <= sh + n2) by lia.
  revert Hs2 Hnorm''. generalize (sh + n2). intros k Hk Hnorm''.
  destruct (shr_m mrs'') as [|p|p] eqn:Em; [| |lia].
  - split; [discriminate|]. simpl. rewrite Z.min_l by (unfold cap; lia).
    destruct s; reflexivity.
  - destruct (Z.leb_spec (k - 1074) (emax - prec)) as [L|L];
      (split; [discriminate|]); unfold rank; apply f_equal.
    + replace (k - 1074 + 1074) with k by lia.
      assert (2 ^ k <= 2 ^ 2045)
        by (apply Z.pow_le_mono_r; unfold emax, prec in L; lia).
      assert (Z.pos p * 2 ^ k < cap).
      { unfold cap. replace 2098 with (53 + 2045) by lia.
        rewrite (Z.pow_add_r 2 53 2045) by lia.
        apply Z.le_lt_trans with (Z.pos p * 2 ^ 2045).
        - apply Z.mul_le_mono_nonneg_l; [lia|assumption].
        - apply Z.mul_lt_mono_pos_r; [apply pow2_pos; lia|].
          apply Hrange. }
      rewrite Z.min_l by lia. reflexivity.
    + assert (2 ^ 2046 <= 2 ^ k)
        by (apply Z.pow_le_mono_r; unfold emax, prec in L; lia).
      assert (2 ^ 52 <= Z.pos p) by (apply Hnorm''; unfold emax, prec in L; lia).
      assert (cap <= Z.pos p * 2 ^ k).
      { unfold cap. replace 2098 with (52 + 2046) by lia.
        rewrite (Z.pow_add_r 2 52 2046) by lia.
        apply Z.mul_le_mono_nonneg; try assumption; [lia|].
        apply Z.lt_le_incl, pow2_pos; lia. }
      rewrite Z.min_r by lia. reflexivity.
Qed.

End RoundAux.

Module Nearest.
Import Binary64 Digits Rounding RoundAux.

Lemma div_le_cross (a1 b1 a2 b2 : Z) :
  0 < b1 -> 0 < b2 -> a1 * b2 <= a2 * b1 -> a1 / b1 <= a2 / b2.
Proof.
  intros H1 H2 H.
  apply Z.div_le_lower_bound; [lia|].
  pose proof (Z.mul_div_le a1 b1 H1).
  apply Z.mul_le_mono_pos_r with b1; [lia|].
  apply Z.le_trans with (a1 * b2); [|lia].
  replace (b2 * (a1 / b1) * b1) with (b2 * (b1 * (a1 / b1))) by ring.
  rewrite (Z.mul_comm a1 b2). apply Z.mul_le_mono_nonneg_l; lia.
Qed.

Lemma sig_shift_nonneg (w : Z) : 0 <= sig_shift w.
Proof. unfold sig_shift. lia. Qed.

Lemma RN_mono (a1 b1 a2 b2 : Z) :
  0 <= a1 -> 0 < b1 -> 0 <= a2 -> 0 < b2 ->
  a1 * b2 <= a2 * b1 -> RN a1 b1 <= RN a2 b2.
Proof.
  intros Ha1 Hb1 Ha2 Hb2 H. unfold RN.
  pose proof (div_le_cross a1 b1 a2 b2 Hb1 Hb2 H) as Hw.
  assert (Hw1 : 0 <= a1 / b1) by (apply Z.div_pos; lia).
  assert (Hw2 : 0 <= a2 / b2) by (apply Z.div_pos; lia).
  pose proof (Zdigits2_mono (a1 / b1) (a2 / b2) ltac:(lia)) as Hd.
  pose proof (Z.mul_div_le a1 b1 Hb1) as L1.
  pose proof (Z.mul_div_le a2 b2 Hb2) as L2.
  pose proof (Z.mul_succ_div_gt a1 b1 Hb1) as U1.
  set (w1 := a1 / b1) in *. set (w2 := a2 / b2) in *.
  set (s1 := sig_shift w1). set (s2 := sig_shift w2).
  assert (Hs1 : 0 <= s1) by apply sig_shift_nonneg.
  assert (Hs2 : 0 <= s2) by apply sig_shift_nonneg.
  assert (Hs : s1 <= s2) by (unfold s1, s2, sig_shift; lia).
  assert (P1 : 0 < 2 ^ s1) by (apply pow2_pos; lia).
  assert (P2 : 0 < 2 ^ s2) by (apply pow2_pos; lia).
  destruct (Z.eq_dec s1 s2) as [E|NE].
  - rewrite <- E. apply Z.mul_le_mono_nonneg_r; [lia|].
    apply rhe_mono; [nia|nia|].
    replace (a1 * (b2 * 2 ^ s1)) with (a1 * b2 * 2 ^ s1) by ring.
    replace (a2 * (b1 * 2 ^ s1)) with (a2 * b1 * 2 ^ s1) by ring.
    apply Z.mul_le_mono_nonneg_r; lia.
  - assert (Hlt : s1 < s2) by lia.
    (* the smaller one stays below 2^(53+s1), the larger one above it *)
    apply Z.le_trans with (2 ^ 53 * 2 ^ s1).
    + apply Z.mul_le_mono_nonneg_r; [lia|].
      apply rhe_upper; [nia|].
      assert (Hd1 : Zdigits2 w1 <= 53 + s1) by (unfold s1, sig_shift; lia).
      apply (Zdigits2_lt_pow2 w1 (53 + s1)) in Hd1; try lia.
      rewrite Z.pow_add_r in Hd1 by lia.
      replace (2 ^ 53 * (b1 * 2 ^ s1)) with (b1 * (2 ^ 53 * 2 ^ s1)) by ring.
      apply Z.le_trans with (b1 * Z.succ w1); [lia|].
      apply Z.mul_le_mono_nonneg_l; lia.
    + apply Z.le_trans with (2 ^ 52 * 2 ^ s2).
      * rewrite <- !Z.pow_add_r by lia. apply Z.pow_le_mono_r; lia.
      * apply Z.mul_le_mono_nonneg_r; [lia|].
        apply rhe_lower; [nia|].
        assert (Hd2 : 53 + s2 <= Zdigits2 w2) by (unfold s2, sig_shift in *; lia).
        apply (Zdigits2_le_pow2 w2 (53 + s2)) in Hd2; try lia.
        replace (53 + s2 - 1) with (52 + s2) in Hd2 by lia.
        rewrite Z.pow_add_r in Hd2 by lia.
        replace (2 ^ 52 * (b2 * 2 ^ s2)) with (b2 * (2 ^ 52 * 2 ^ s2)) by ring.
        apply Z.le_trans with (b2 * w2); [|lia].
        apply Z.mul_le_mono_nonneg_l; lia.
Qed.

Lemma RN_ext (a1 b1 a2 b2 : Z) :
  0 <= a1 -> 0 < b1 -> 0 <= a2 -> 0 < b2 ->
  a1 * b2 = a2 * b1 -> RN a1 b1 = RN a2 b2.
Proof. intros. apply Z.le_antisymm; apply RN_mono; lia. Qed.

Lemma RN_nonneg (a b : Z) : 0 <= a -> 0 < b -> 0 <= RN a b.
Proof.
  intros Ha Hb. unfold RN.
  pose proof (sig_shift_nonneg (a / b)).
  assert (0 < 2 ^ sig_shift (a / b)) by (apply pow2_pos; lia).
  apply Z.mul_nonneg_nonneg; [|lia]. apply rhe_nonneg; nia.
Qed.

(** The mantissa and exponent that [binary_round_aux] arrives at are those
    of [RN]. *)
Lemma rounded_is_RN (a b k : Z) :
  0 <= a -> 0 < b ->
  0 <= Z.max (Zdigits2 (a / b) - 53) (- k) ->
  rhe a (b * 2 ^ Z.max (Zdigits2 (a / b) - 53) (- k))
  * 2 ^ (k + Z.max (Zdigits2 (a / b) - 53) (- k))
  = RN (a * 2 ^ Z.max k 0) (b * 2 ^ Z.max (- k) 0).
Proof.
  intros Ha Hb Hn1.
  set (q := a / b) in *. set (n1 := Z.max (Zdigits2 q - 53) (- k)) in *.
  assert (Hq : 0 <= q) by (apply Z.div_pos; lia).
  pose proof (Zdigits2_nonneg q) as Hdq.
  assert (P1 : 0 < 2 ^ n1) by (apply pow2_pos; lia).
  unfold RN.
  destruct (Z_le_gt_dec k 0) as [Hk|Hk].
  - rewrite (Z.max_r k 0), (Z.max_l (- k) 0) by lia.
    rewrite Z.pow_0_r, Z.mul_1_r.
    assert (Pk : 0 < 2 ^ (- k)) by (apply pow2_pos; lia).
    assert (Hw : a / (b * 2 ^ (- k)) = q / 2 ^ (- k))
      by (rewrite <- Z.div_div by lia; reflexivity).
    assert (Hs : sig_shift (a / (b * 2 ^ (- k))) = k + n1).
    { rewrite Hw. unfold sig_shift.
      rewrite Zdigits2_shiftr by lia. lia. }
    rewrite Hs. f_equal. f_equal.
    rewrite <- Z.mul_assoc, <- Z.pow_add_r by lia. do 2 f_equal. lia.
  - rewrite (Z.max_l k 0), (Z.max_r (- k) 0) by lia.
    rewrite Z.pow_0_r, Z.mul_1_r.
    assert (Pk : 0 < 2 ^ k) by (apply pow2_pos; lia).
    assert (Hd : 53 <= Zdigits2 q) by lia.
    assert (Hqpos : 0 < q).
    { destruct (Z.eq_dec q 0) as [E|]; [|lia]. rewrite E in Hd. simpl in Hd. lia. }
    pose proof (Zdigits2_bounds q Hqpos) as [Blo Bhi].
    pose proof (Z.mul_div_le a b Hb) as L.
    pose proof (Z.mul_succ_div_gt a b Hb) as U. fold q in L, U.
    assert (Hdw : Zdigits2 (a * 2 ^ k / b) = Zdigits2 q + k).
    { assert (0 <= a * 2 ^ k / b) by (apply Z.div_pos; nia).
      apply Z.le_antisymm.
      - apply Zdigits2_lt_pow2; try lia.
        apply Z.div_lt_upper_bound; [lia|].
        rewrite Z.pow_add_r by lia.
        apply Z.lt_le_trans with (b * Z.succ q * 2 ^ k).
        + apply Z.mul_lt_mono_pos_r; lia.
        + replace (b * (2 ^ Zdigits2 q * 2 ^ k))
            with (b * 2 ^ Zdigits2 q * 2 ^ k) by ring.
          apply Z.mul_le_mono_nonneg_r; [lia|].
          apply Z.mul_le_mono_nonneg_l; lia.
      - apply Zdigits2_le_pow2; try lia.
        apply Z.div_le_lower_bound; [lia|].
        replace (Zdigits2 q + k - 1) with (Zdigits2 q - 1 + k) by lia.
        rewrite Z.pow_add_r by lia.
        replace (b * (2 ^ (Zdigits2 q - 1) * 2 ^ k))
          with (b * 2 ^ (Zdigits2 q - 1) * 2 ^ k) by ring.
        apply Z.mul_le_mono_nonneg_r; [lia|].
        apply Z.le_trans with (b * q); [|lia].
        apply Z.mul_le_mono_nonneg_l; lia. }
    assert (Hs : sig_shift (a * 2 ^ k / b) = k + n1)
      by (unfold sig_shift; lia).
    rewrite Hs. f_equal.
    assert (0 < 2 ^ (k + n1)) by (apply pow2_pos; lia).
    apply rhe_ext; [nia|nia|].
    rewrite Z.pow_add_r by lia. ring.
Qed.

(** [binary_round_aux] on a truncated rational gives the nearest scaled
    value, capped at the rank of infinity. *)
Theorem binary_round_aux_RN (s : bool) (mz ez : Z) (lz : location) (a b : Z) :
  0 <= a -> 0 < b -> mz = a / b -> lz = loc_of (a mod b) b ->
  0 <= Z.max (Zdigits2 mz - 53) (- (ez + 1074)) ->
  binary_round_aux prec emax s mz ez lz <> S754_nan /\
  rank (binary_round_aux prec emax s mz ez lz)
  = cond_Zopp s
      (Z.min (RN (a * 2 ^ Z.max (ez + 1074) 0) (b * 2 ^ Z.max (- (ez + 1074)) 0))
             cap).
Proof.
  intros Ha Hb Hm Hl Hn1.
  destruct (binary_round_aux_rank s mz ez lz a b Ha Hb Hm Hl Hn1) as [Hnan Hr].
  split; [exact Hnan|]. rewrite Hr. do 2 f_equal.
  subst mz. rewrite <- (rounded_is_RN a b (ez + 1074) Ha Hb Hn1).
  do 2 f_equal. lia.
Qed.

End Nearest.

Module Order.
Import Binary64 Digits Rounding RoundAux Nearest.

(** What [valid_binary] says of a finite number. *)
Lemma valid_finite (s : bool) (m : positive) (e : Z) :
  valid_binary (S754_finite s m e) = true ->
  -1074 <= e <= 971 /\ Zdigits2 (Z.pos m) <= 53
  /\ (-1074 < e -> Zdigits2 (Z.pos m) = 53).
Proof.
  unfold SpecFloat.valid_binary, bounded, canonical_mantissa, fexp,
    SpecFloat.emin, prec, emax.
  intros H. apply andb_true_iff in H as [H1 H2].
  apply Z.eqb_eq in H1. apply Z.leb_le in H2.
  change (Z.pos (digits2_pos m)) with (Zdigits2 (Z.pos m)) in H1. lia.
Qed.

Lemma valid_mantissa_lt (s : bool) (m : positive) (e : Z) :
  valid_binary (S754_finite s m e) = true -> Z.pos m < 2 ^ 53.
Proof.
  intros H. destruct (valid_finite s m e H) as (_ & Hd & _).
  apply Zdigits2_lt_pow2; lia.
Qed.

Lemma valid_mantissa_ge (s : bool) (m : positive) (e : Z) :
  valid_binary (S754_finite s m e) = true -> -1074 < e -> 2 ^ 52 <= Z.pos m.
Proof.
  intros H He. destruct (valid_finite s m e H) as (_ & _ & Hd).
  specialize (Hd He). apply (Zdigits2_le_pow2 (Z.pos m) 53); lia.
Qed.

Lemma mag_pos (s : bool) (m : positive) (e : Z) :
  valid_binary (S754_finite s m e) = true -> 0 < mag m e < cap.
Proof.
  intros H. pose proof (valid_mantissa_lt s m e H).
  destruct (valid_finite s m e H) as (He & _ & _). unfold mag, cap.
  assert (0 < 2 ^ (e + 1074)) by (apply pow2_pos; lia).
  split; [lia|].
  replace 2098 with (53 + 2045) by lia. rewrite (Z.pow_add_r 2 53 2045) by lia.
  apply Z.le_lt_trans with (Z.pos m * 2 ^ 2045).
  - apply Z.mul_le_mono_nonneg_l; [lia|]. apply Z.pow_le_mono_r; lia.
  - apply Z.mul_lt_mono_pos_r; [apply pow2_pos; lia|assumption].
Qed.

(** Among valid numbers of one sign, the exponent decides first. *)
Lemma mag_lt_exp (s1 s2 : bool) (m1 m2 : positive) (e1 e2 : Z) :
  valid_binary (S754_finite s1 m1 e1) = true ->
  valid_binary (S754_finite s2 m2 e2) = true ->
  e1 < e2 -> mag m1 e1 < mag m2 e2.
Proof.
  intros V1 V2 He.
  pose proof (valid_mantissa_lt s1 m1 e1 V1) as L1.
  destruct (valid_finite s1 m1 e1 V1) as (B1 & _ & _).
  pose proof (valid_mantissa_ge s2 m2 e2 V2 ltac:(lia)) as G2.
  unfold mag.
  assert (P : 0 < 2 ^ (e1 + 1074)) by (apply pow2_pos; lia).
  apply Z.lt_le_trans with (2 ^ 53 * 2 ^ (e1 + 1074)).
  - apply Z.mul_lt_mono_pos_r; assumption.
  - apply Z.le_trans with (2 ^ 52 * 2 ^ (e2 + 1074)).
    + rewrite <- !Z.pow_add_r by lia. apply Z.pow_le_mono_r; lia.
    + apply Z.mul_le_mono_nonneg_r; [|assumption].
      apply Z.lt_le_incl, pow2_pos; lia.
Qed.

Lemma mag_compare (s1 s2 : bool) (m1 m2 : positive) (e1 e2 : Z) :
  valid_binary (S754_finite s1 m1 e1) = true ->
  valid_binary (S754_finite s2 m2 e2) = true ->
  match e1 ?= e2 with
  | Lt => Lt
  | Gt => Gt
  | Eq => Pos.compare_cont Eq m1 m2
  end = (mag m1 e1 ?= mag m2 e2).
Proof.
  intros V1 V2. destruct (Z.compare_spec e1 e2) as [E|L|G]; symmetry.
  - subst e2. unfold mag.
    destruct (valid_finite s1 m1 e1 V1) as (B1 & _ & _).
    assert (P : 0 < 2 ^ (e1 + 1074)) by (apply pow2_pos; lia).
    change (Pos.compare_cont Eq m1 m2) with (Z.pos m1 ?= Z.pos m2).
    destruct (Z.compare_spec (Z.pos m1) (Z.pos m2)) as [E|L|G].
    + rewrite E. apply Z.compare_refl.
    + apply Z.compare_lt_iff. apply Z.mul_lt_mono_pos_r; assumption.
    + apply Z.compare_gt_iff. apply Z.mul_lt_mono_pos_r; assumption.
  - apply Z.compare_lt_iff. eapply mag_lt_exp; eassumption.
  - apply Z.compare_gt_iff. eapply mag_lt_exp; eassumption.
Qed.

(** On valid numbers, [SFcompare] is the order of the ranks. *)
Theorem SFcompare_rank (a b : spec_float) :
  valid_binary a = true -> valid_binary b = true ->
  a <> S754_nan -> b <> S754_nan ->
  SFcompare a b = Some (rank a ?= rank b).
Proof.
  intros Va Vb Na Nb.
  assert (C : 0 < cap) by (apply pow2_pos; lia).
  destruct a as [sa|sa| |sa ma ea], b as [sb|sb| |sb mb eb];
    try congruence; simpl SFcompare; unfold rank; f_equal.
  - destruct sb; cbn [cond_Zopp]; symmetry;
      [apply Z.compare_gt_iff | apply Z.compare_lt_iff]; lia.
  - pose proof (mag_pos sb mb eb Vb). fold (mag mb eb).
    destruct sb; cbn [cond_Zopp]; symmetry;
      [apply Z.compare_gt_iff | apply Z.compare_lt_iff]; lia.
  - destruct sa; cbn [cond_Zopp]; symmetry;
      [apply Z.compare_lt_iff | apply Z.compare_gt_iff]; lia.
  - destruct sa, sb; cbn [cond_Zopp]; symmetry;
      first [apply Z.compare_refl | apply Z.compare_lt_iff; lia
            | apply Z.compare_gt_iff; lia].
  - pose proof (mag_pos sb mb eb Vb). fold (mag mb eb).
    destruct sa, sb; cbn [cond_Zopp]; symmetry;
      first [apply Z.compare_lt_iff; lia | apply Z.compare_gt_iff; lia].
  - pose proof (mag_pos sa ma ea Va). fold (mag ma ea).
    destruct sa; cbn [cond_Zopp]; symmetry;
      [apply Z.compare_lt_iff | apply Z.compare_gt_iff]; lia.
  - pose proof (mag_pos sa ma ea Va). fold (mag ma ea).
    destruct sa, sb; cbn [cond_Zopp]; symmetry;
      first [apply Z.compare_lt_iff; lia | apply Z.compare_gt_iff; lia].
  - pose proof (mag_pos sa ma ea Va). pose proof (mag_pos sb mb eb Vb).
    fold (mag ma ea) (mag mb eb).
    destruct sa, sb; cbn [cond_Zopp].
    + rewrite Z.compare_opp.
      rewrite <- (mag_compare true true mb ma eb ea Vb Va).
      rewrite (Z.compare_antisym eb ea).
      destruct (eb ?= ea); cbn [CompOpp]; try reflexivity.
      rewrite (Pos.compare_cont_antisym ma mb Eq). reflexivity.
    + symmetry. apply Z.compare_lt_iff. lia.
    + symmetry. apply Z.compare_gt_iff. lia.
    + apply (mag_compare false false ma mb ea eb Va Vb).
Qed.

Lemma rank_bounds (a : spec_float) :
  valid_binary a = true -> - cap <= rank a <= cap.
Proof.
  intros V. assert (C : 0 < cap) by (apply pow2_pos; lia).
  destruct a as [s|s| |s m e]; unfold rank; try lia.
  - destruct s; cbn [cond_Zopp]; lia.
  - pose proof (mag_pos s m e V). fold (mag m e).
    destruct s; cbn [cond_Zopp]; lia.
Qed.

End Order.

Module Division.
Import Binary64 Digits Rounding RoundAux Nearest Order.

Lemma new_location_loc_of (nb k : Z) :
  0 < nb -> 0 <= k < nb -> new_location nb k = loc_of k nb.
Proof.
  intros Hnb Hk. unfold new_location.
  destruct (Z.even nb) eqn:Ev.
  - reflexivity.
  - unfold new_location_odd, loc_of.
    destruct (k =? 0); [reflexivity|]. f_equal.
    assert (Od : Z.odd nb = true) by (rewrite <- Z.negb_even, Ev; reflexivity).
    apply Z.odd_spec in Od as [j Hj].
    destruct (Z.compare_spec (2 * k + 1) nb), (Z.compare_spec (2 * k) nb);
      try reflexivity; lia.
Qed.

Lemma div_eucl_div_mod (a b : Z) : Z.div_eucl a b = (a / b, a mod b).
Proof. unfold Z.div, Z.modulo. destruct (Z.div_eucl a b). reflexivity. Qed.

Lemma shifted_mantissa (m s : Z) :
  0 <= s ->
  match s with Z.pos _ => Z.shiftl m s | 0 => m | Z.neg _ => 0 end = m * 2 ^ s.
Proof.
  intros Hs. destruct s as [|p|p]; [| |lia].
  - rewrite Z.mul_1_r. reflexivity.
  - apply Z.shiftl_mul_pow2. lia.
Qed.

Lemma Zdigits2_pos (m : positive) : 1 <= Zdigits2 (Z.pos m).
Proof. simpl. lia. Qed.

(** The quotient of two finite numbers: its rank is the nearest scaled value
    to the quotient of the magnitudes, capped, with the sign of the
    quotient. *)
Theorem SFdiv_finite_rank (sx sy : bool) (mx my : positive) (ex ey : Z) :
  valid_binary (S754_finite sx mx ex) = true ->
  valid_binary (S754_finite sy my ey) = true ->
  SFdiv prec emax (S754_finite sx mx ex) (S754_finite sy my ey) <> S754_nan /\
  rank (SFdiv prec emax (S754_finite sx mx ex) (S754_finite sy my ey))
  = cond_Zopp (xorb sx sy)
      (Z.min (RN (mag mx ex * 2 ^ 1074) (mag my ey)) cap).
Proof.
  intros Vx Vy.
  destruct (valid_finite sx mx ex Vx) as (Bx & _ & _).
  destruct (valid_finite sy my ey Vy) as (By & _ & _).
  unfold SFdiv, SFdiv_core_binary.
  pose proof (Zdigits2_bounds (Z.pos mx) ltac:(lia)) as [L1 _].
  pose proof (Zdigits2_bounds (Z.pos my) ltac:(lia)) as [_ U2].
  pose proof (Zdigits2_pos mx) as D1. pose proof (Zdigits2_pos my) as D2.
  set (d1 := Zdigits2 (Z.pos mx)) in *. set (d2 := Zdigits2 (Z.pos my)) in *.
  set (e' := Z.min (fexp prec emax (d1 + ex - (d2 + ey))) (ex - ey)).
  set (s := ex - ey - e').
  assert (Hs : 0 <= s) by (unfold s, e'; lia).
  rewrite (shifted_mantissa (Z.pos mx) s Hs), div_eucl_div_mod.
  assert (Ps : 0 < 2 ^ s) by (apply pow2_pos; lia).
  set (a := Z.pos mx * 2 ^ s). set (b := Z.pos my).
  assert (Ha : 0 <= a) by (unfold a; lia).
  assert (Hb : 0 < b) by (unfold b; lia).
  assert (Hloc : new_location b (a mod b) = loc_of (a mod b) b)
    by (apply new_location_loc_of; [lia|apply Z.mod_pos_bound; lia]).
  rewrite Hloc.
  (* enough digits in the quotient, unless the exponent is the least one *)
  assert (Hpre : 0 <= Z.max (Zdigits2 (a / b) - 53) (- (e' + 1074))).
  { destruct (Z_le_gt_dec (e' + 1074) 0) as [|Hk]; [lia|].
    assert (He' : e' <= d1 + ex - (d2 + ey) - 53)
      by (unfold e', fexp, SpecFloat.emin, prec, emax in *; lia).
    assert (Hq : 2 ^ 52 <= a / b).
    { apply Z.div_le_lower_bound; [lia|].
      apply Z.le_trans with (2 ^ d2 * 2 ^ 52);
        [apply Z.mul_le_mono_nonneg_r; unfold b; lia|].
      apply Z.le_trans with (2 ^ (d1 - 1) * 2 ^ s);
        [|apply Z.mul_le_mono_nonneg_r; unfold a; lia].
      rewrite <- !Z.pow_add_r by lia.
      apply Z.pow_le_mono_r; unfold s; lia. }
    assert (53 <= Zdigits2 (a / b)).
    { apply Zdigits2_le_pow2; try lia. }
    lia. }
  destruct (binary_round_aux_RN (xorb sx sy) (a / b) e' _ a b Ha Hb
              eq_refl eq_refl Hpre) as [Hnan Hr].
  split; [exact Hnan|]. rewrite Hr. do 2 f_equal.
  (* the two fractions are the same rational *)
  set (k := e' + 1074).
  assert (P1 : 0 < 2 ^ Z.max k 0) by (apply pow2_pos; lia).
  assert (P2 : 0 < 2 ^ Z.max (- k) 0) by (apply pow2_pos; lia).
  assert (P3 : 0 < 2 ^ (ex + 1074)) by (apply pow2_pos; lia).
  assert (P4 : 0 < 2 ^ (ey + 1074)) by (apply pow2_pos; lia).
  assert (P5 : 0 < 2 ^ 1074) by (apply pow2_pos; lia).
  apply RN_ext; unfold mag; try nia.
  unfold a, b.
  replace (Z.pos mx * 2 ^ s * 2 ^ Z.max k 0 * (Z.pos my * 2 ^ (ey + 1074)))
    with (Z.pos mx * Z.pos my * (2 ^ s * 2 ^ Z.max k 0 * 2 ^ (ey + 1074)))
    by ring.
  replace (Z.pos mx * 2 ^ (ex + 1074) * 2 ^ 1074 * (Z.pos my * 2 ^ Z.max (- k) 0))
    with (Z.pos mx * Z.pos my * (2 ^ (ex + 1074) * 2 ^ 1074 * 2 ^ Z.max (- k) 0))
    by ring.
  f_equal. rewrite <- !Z.pow_add_r by lia. f_equal. unfold s, k. lia.
Qed.

End Division.

Module Subtraction.
Import Binary64 Digits Rounding RoundAux Nearest Order.

Lemma pos_iter_xO (m d : positive) :
  Z.pos (Pos.iter xO m d) = Z.pos m * 2 ^ Z.pos d.
Proof.
  induction d as [|d IH] using Pos.peano_ind.
  - simpl. lia.
  - rewrite Pos.iter_succ, Pos2Z.inj_succ, Z.pow_succ_r by lia.
    rewrite Pos2Z.inj_xO, IH. ring.
Qed.

Lemma shl_align_spec (m : positive) (e e' : Z) :
  snd (shl_align m e e') = Z.min e e' /\
  Z.pos (fst (shl_align m e e')) = Z.pos m * 2 ^ (e - Z.min e e').
Proof.
  unfold shl_align. destruct (e' - e) as [|d|d] eqn:E; simpl.
  - assert (e' = e) by lia. subst. rewrite Z.min_id, Z.sub_diag. lia.
  - rewrite Z.min_l by lia. rewrite Z.sub_diag. lia.
  - rewrite Z.min_r by lia. split; [reflexivity|].
    rewrite pos_iter_xO. do 2 f_equal. lia.
Qed.

Lemma Zdigits2_shiftl (m : positive) (j : Z) :
  0 <= j -> Zdigits2 (Z.pos m * 2 ^ j) = Zdigits2 (Z.pos m) + j.
Proof.
  intros Hj.
  pose proof (Zdigits2_bounds (Z.pos m) ltac:(lia)) as [L U].
  assert (D : 1 <= Zdigits2 (Z.pos m)) by (simpl; lia).
  assert (P : 0 < 2 ^ j) by (apply pow2_pos; lia).
  apply Z.le_antisymm.
  - apply Zdigits2_lt_pow2; try lia.
    rewrite Z.pow_add_r by lia. apply Z.mul_lt_mono_pos_r; assumption.
  - apply Zdigits2_le_pow2; try lia.
    replace (Zdigits2 (Z.pos m) + j - 1) with (Zdigits2 (Z.pos m) - 1 + j) by lia.
    rewrite Z.pow_add_r by lia. apply Z.mul_le_mono_nonneg_r; lia.
Qed.

(** Rounding an integer mantissa at a given exponent. *)
Lemma binary_round_rank (s : bool) (m : positive) (e : Z) :
  -1074 <= e ->
  binary_round prec emax s m e <> S754_nan /\
  rank (binary_round prec emax s m e)
  = cond_Zopp s (Z.min (RN (mag m e) 1) cap).
Proof.
  intros He. unfold binary_round.
  set (fe := fexp prec emax (Z.pos (digits2_pos m) + e)).
  assert (Hfe : fe = Z.max (Zdigits2 (Z.pos m) + e - 53) (-1074))
    by (unfold fe, fexp, SpecFloat.emin, prec, emax; simpl Zdigits2; lia).
  destruct (shl_align_spec m e fe) as [Hez Hmz].
  destruct (shl_align m e fe) as [mz ez]. simpl in Hez, Hmz. subst ez.
  set (ez := Z.min e fe) in *.
  assert (Hj : 0 <= e - ez) by (unfold ez; lia).
  assert (Hd : Zdigits2 (Z.pos mz) = Zdigits2 (Z.pos m) + (e - ez))
    by (rewrite Hmz; apply Zdigits2_shiftl; exact Hj).
  assert (Hpre : 0 <= Z.max (Zdigits2 (Z.pos mz) - 53) (- (ez + 1074)))
    by (unfold ez in *; lia).
  destruct (binary_round_aux_RN s (Z.pos mz) ez loc_Exact (Z.pos mz) 1)
    as [Hnan Hr]; try lia.
  - rewrite Z.div_1_r. reflexivity.
  - rewrite Z.mod_1_r. reflexivity.
  - split; [exact Hnan|]. rewrite Hr. do 2 f_equal.
    assert (Hk : 0 <= ez + 1074) by (unfold ez; lia).
    rewrite (Z.max_l (ez + 1074) 0), (Z.max_r (- (ez + 1074)) 0) by lia.
    rewrite Z.pow_0_r, Z.mul_1_r. f_equal.
    unfold mag. rewrite Hmz, <- Z.mul_assoc, <- Z.pow_add_r by lia.
    do 2 f_equal. lia.
Qed.

Lemma cap_pos : 0 < cap.
Proof. apply pow2_pos. lia. Qed.

Lemma RN_1 : RN 1 1 = 1.
Proof. reflexivity. Qed.

Lemma RNs_mono (z1 z2 : Z) : z1 <= z2 -> RNs z1 <= RNs z2.
Proof.
  intros H. unfold RNs. pose proof cap_pos.
  pose proof (RN_nonneg (Z.abs z1) 1 ltac:(lia) ltac:(lia)).
  pose proof (RN_nonneg (Z.abs z2) 1 ltac:(lia) ltac:(lia)).
  destruct (Z.ltb_spec z1 0), (Z.ltb_spec z2 0); cbn [cond_Zopp]; try lia.
  - assert (RN (Z.abs z2) 1 <= RN (Z.abs z1) 1) by (apply RN_mono; lia). lia.
  - assert (RN (Z.abs z1) 1 <= RN (Z.abs z2) 1) by (apply RN_mono; lia). lia.
Qed.

Lemma RNs_0 (z : Z) : RNs z = 0 -> z = 0.
Proof.
  unfold RNs. intros H. pose proof cap_pos.
  destruct (Z.eq_dec z 0) as [|Hz]; [assumption|exfalso].
  assert (H1 : RN 1 1 <= RN (Z.abs z) 1) by (apply RN_mono; lia).
  rewrite RN_1 in H1.
  destruct (z <? 0); cbn [cond_Zopp] in H; lia.
Qed.

(** The difference of two finite numbers. *)
Theorem SFsub_finite_rank (sx sy : bool) (mx my : positive) (ex ey : Z) :
  valid_binary (S754_finite sx mx ex) = true ->
  valid_binary (S754_finite sy my ey) = true ->
  let x := S754_finite sx mx ex in
  let y := S754_finite sy my ey in
  SFsub prec emax x y <> S754_nan /\
  rank (SFsub prec emax x y) = RNs (rank x - rank y) /\
  (rank x = rank y -> SFsub prec emax x y = S754_zero false).
Proof.
  intros Vx Vy x y.
  destruct (valid_finite sx mx ex Vx) as (Bx & _ & _).
  destruct (valid_finite sy my ey Vy) as (By & _ & _).
  unfold x, y, SFsub.
  set (ez := Z.min ex ey).
  destruct (shl_align_spec mx ex ez) as [_ Hx].
  destruct (shl_align_spec my ey ez) as [_ Hy].
  rewrite Hx, Hy.
  replace (Z.min ex ez) with ez by (unfold ez; lia).
  replace (Z.min ey ez) with ez by (unfold ez; lia).
  set (M := cond_Zopp sx (Z.pos mx * 2 ^ (ex - ez))
            - cond_Zopp sy (Z.pos my * 2 ^ (ey - ez))).
  assert (Pz : 0 < 2 ^ (ez + 1074)) by (apply pow2_pos; unfold ez; lia).
  assert (HM : M * 2 ^ (ez + 1074)
               = rank (S754_finite sx mx ex) - rank (S754_finite sy my ey)).
  { unfold M, rank.
    replace (ex + 1074) with (ex - ez + (ez + 1074)) by lia.
    replace (ey + 1074) with (ey - ez + (ez + 1074)) by lia.
    rewrite (Z.pow_add_r 2 (ex - ez) (ez + 1074)) by (unfold ez; lia).
    rewrite (Z.pow_add_r 2 (ey - ez) (ez + 1074)) by (unfold ez; lia).
    destruct sx, sy; cbn [cond_Zopp]; ring. }
  rewrite <- HM. unfold binary_normalize.
  destruct M as [|p|p] eqn:EM.
  - split; [discriminate|]. split; [reflexivity|]. reflexivity.
  - destruct (binary_round_rank false p ez ltac:(unfold ez; lia)) as [Hn Hr].
    split; [exact Hn|]. split.
    + rewrite Hr. unfold RNs, mag.
      rewrite (proj2 (Z.ltb_ge _ _)) by lia.
      rewrite Z.abs_eq by lia. reflexivity.
    + intros H0. exfalso. lia.
  - destruct (binary_round_rank true p ez ltac:(unfold ez; lia)) as [Hn Hr].
    split; [exact Hn|]. split.
    + rewrite Hr. unfold RNs, mag.
      rewrite (proj2 (Z.ltb_lt _ _)) by lia.
      rewrite Z.abs_neq by lia.
      replace (- (Z.neg p * 2 ^ (ez + 1074))) with (Z.pos p * 2 ^ (ez + 1074))
        by (rewrite <- Pos2Z.opp_pos; ring).
      reflexivity.
    + intros H0. exfalso. lia.
Qed.

End Subtraction.

Module Monotone.
Import Binary64 Digits Rounding RoundAux Nearest Order Division Subtraction.

Lemma not_nan_spec (a : float) : is_nan a = false <-> Prim2SF a <> S754_nan.
Proof.
  unfold is_nan. rewrite FloatAxioms.eqb_spec. unfold SFeqb.
  pose proof (Prim2SF_valid a) as V.
  destruct (Prim2SF a) as [s|s| |s m e] eqn:E.
  - simpl. split; [discriminate|reflexivity].
  - destruct s; simpl; (split; [discriminate|reflexivity]).
  - simpl. split; [discriminate|congruence].
  - rewrite SFcompare_rank by (assumption || discriminate).
    rewrite Z.compare_refl. simpl. split; [discriminate|reflexivity].
Qed.

Lemma compare_frank (a b : float) :
  is_nan a = false -> is_nan b = false ->
  SFcompare (Prim2SF a) (Prim2SF b) = Some (frank a ?= frank b).
Proof.
  intros Ha Hb. apply SFcompare_rank; try apply Prim2SF_valid;
    apply not_nan_spec; assumption.
Qed.

Lemma leb_frank (a b : float) :
  (a <=? b)%float = true <->
  is_nan a = false /\ is_nan b = false /\ frank a <= frank b.
Proof.
  rewrite FloatAxioms.leb_spec. unfold SFleb. split.
  - intros H.
    destruct (SFcompare (Prim2SF a) (Prim2SF b)) as [c|] eqn:E; [|discriminate].
    destruct (Compare.compare_not_nan a b c E) as [Ha Hb].
    rewrite (compare_frank a b Ha Hb) in E. injection E as E.
    repeat split; try assumption.
    destruct (Z.compare_spec (frank a) (frank b)); subst c;
      first [lia | discriminate].
  - intros (Ha & Hb & H). rewrite (compare_frank a b Ha Hb).
    destruct (Z.compare_spec (frank a) (frank b)); try reflexivity. lia.
Qed.

Lemma ltb_frank (a b : float) :
  (a <? b)%float = true <->
  is_nan a = false /\ is_nan b = false /\ frank a < frank b.
Proof.
  rewrite FloatAxioms.ltb_spec. unfold SFltb. split.
  - intros H.
    destruct (SFcompare (Prim2SF a) (Prim2SF b)) as [c|] eqn:E; [|discriminate].
    destruct (Compare.compare_not_nan a b c E) as [Ha Hb].
    rewrite (compare_frank a b Ha Hb) in E. injection E as E.
    repeat split; try assumption.
    destruct (Z.compare_spec (frank a) (frank b)); subst c;
      first [lia | discriminate].
  - intros (Ha & Hb & H). rewrite (compare_frank a b Ha Hb).
    destruct (Z.compare_spec (frank a) (frank b)); try reflexivity; lia.
Qed.

(** *** Division by a positive finite number *)

Section Divide.

Variable Y : Z.
Hypothesis HY : 0 < Y.

Lemma RN_0_l : RN 0 Y = 0.
Proof.
  unfold RN. rewrite Z.div_0_l by lia. change (sig_shift 0) with 0.
  rewrite Z.pow_0_r, Z.mul_1_r, Z.mul_1_r. unfold rhe.
  rewrite Z.div_0_l, Z.mod_0_l by lia. reflexivity.
Qed.

Lemma div_rank_mono (z1 z2 : Z) : z1 <= z2 -> div_rank Y z1 <= div_rank Y z2.
Proof.
  intros H. unfold div_rank. pose proof cap_pos as C.
  assert (P : 0 < 2 ^ 1074) by (apply pow2_pos; lia).
  assert (N : forall z, 0 <= RN (Z.abs z * 2 ^ 1074) Y)
    by (intros z; apply RN_nonneg; lia).
  assert (M : forall u v, Z.abs u <= Z.abs v ->
                RN (Z.abs u * 2 ^ 1074) Y <= RN (Z.abs v * 2 ^ 1074) Y).
  { intros u v Huv. apply RN_mono; try lia.
    apply Z.mul_le_mono_nonneg_r; [lia|].
    apply Z.mul_le_mono_nonneg_r; lia. }
  pose proof (N z1). pose proof (N z2).
  destruct (Z.ltb_spec z1 0), (Z.ltb_spec z2 0); cbn [cond_Zopp]; try lia.
  - pose proof (M z2 z1 ltac:(lia)).
    destruct (Z.leb_spec cap (Z.abs z1)), (Z.leb_spec cap (Z.abs z2)); lia.
  - destruct (Z.leb_spec cap (Z.abs z1)), (Z.leb_spec cap (Z.abs z2)); lia.
  - pose proof (M z1 z2 ltac:(lia)).
    destruct (Z.leb_spec cap (Z.abs z1)), (Z.leb_spec cap (Z.abs z2)); lia.
Qed.

End Divide.

Lemma SFdiv_rank (x : spec_float) (mT : positive) (eT : Z) :
  valid_binary x = true -> x <> S754_nan ->
  valid_binary (S754_finite false mT eT) = true ->
  SFdiv prec emax x (S754_finite false mT eT) <> S754_nan /\
  rank (SFdiv prec emax x (S754_finite false mT eT))
  = div_rank (mag mT eT) (rank x).
Proof.
  intros Vx Nx VT. pose proof cap_pos as C.
  pose proof (mag_pos false mT eT VT) as PT.
  destruct x as [s|s| |s m e]; try congruence.
  - split; [discriminate|]. unfold div_rank. simpl rank.
    change (0 <? 0) with false. change (Z.abs 0) with 0.
    rewrite (proj2 (Z.leb_gt _ _)) by lia.
    rewrite Z.mul_0_l, RN_0_l by lia. cbn [cond_Zopp]. lia.
  - split; [discriminate|]. unfold div_rank. simpl SFdiv.
    rewrite xorb_false_r. unfold rank.
    destruct s; cbn [cond_Zopp].
    + rewrite (proj2 (Z.ltb_lt _ _)) by lia.
      rewrite (proj2 (Z.leb_le _ _)) by lia. reflexivity.
    + rewrite (proj2 (Z.ltb_ge _ _)) by lia.
      rewrite (proj2 (Z.leb_le _ _)) by lia. reflexivity.
  - destruct (SFdiv_finite_rank s false m mT e eT Vx VT) as [Hn Hr].
    split; [exact Hn|]. rewrite Hr, xorb_false_r.
    pose proof (mag_pos s m e Vx) as Px.
    unfold div_rank, rank. fold (mag m e).
    destruct s; cbn [cond_Zopp].
    + rewrite (proj2 (Z.ltb_lt _ _)) by lia.
      rewrite (proj2 (Z.leb_gt _ _)) by lia.
      rewrite Z.abs_neq, Z.opp_involutive by lia. reflexivity.
    + rewrite (proj2 (Z.ltb_ge _ _)) by lia.
      rewrite (proj2 (Z.leb_gt _ _)) by lia.
      rewrite Z.abs_eq by lia. reflexivity.
Qed.

(** Dividing by a positive finite number keeps the order of numbers. *)
Theorem div_mono (a b T : float) (mT : positive) (eT : Z) :
  Prim2SF T = S754_finite false mT eT ->
  (a <=? b)%float = true -> (a / T <=? b / T)%float = true.
Proof.
  intros HT H. apply leb_frank in H as (Ha & Hb & H).
  assert (VT : valid_binary (S754_finite false mT eT) = true)
    by (rewrite <- HT; apply Prim2SF_valid).
  pose proof (mag_pos false mT eT VT) as PT.
  destruct (SFdiv_rank (Prim2SF a) mT eT (Prim2SF_valid a)
              (proj1 (not_nan_spec a) Ha) VT) as [Na Ra].
  destruct (SFdiv_rank (Prim2SF b) mT eT (Prim2SF_valid b)
              (proj1 (not_nan_spec b) Hb) VT) as [Nb Rb].
  rewrite <- HT, <- div_spec in Na, Ra, Nb, Rb.
  apply leb_frank. repeat split; try (apply not_nan_spec; assumption).
  unfold frank in *. rewrite Ra, Rb. apply div_rank_mono; lia.
Qed.

(** *** Subtraction from a finite number *)

Lemma rhe_mul (c b : Z) : 0 < b -> rhe (c * b) b = c.
Proof.
  intros Hb. unfold rhe. rewrite Z.div_mul, Z.mod_mul by lia. reflexivity.
Qed.

(** A valid magnitude is its own nearest scaled value. *)
Lemma RN_mag (s : bool) (m : positive) (e : Z) :
  valid_binary (S754_finite s m e) = true -> RN (mag m e) 1 = mag m e.
Proof.
  intros V. destruct (valid_finite s m e V) as (Be & Hd & _).
  unfold RN. rewrite Z.div_1_r, Z.mul_1_l. unfold mag.
  set (k := e + 1074). assert (Hk : 0 <= k) by (unfold k; lia).
  assert (Hs : sig_shift (Z.pos m * 2 ^ k) = Z.max (Zdigits2 (Z.pos m) + k - 53) 0)
    by (unfold sig_shift; rewrite Zdigits2_shiftl by lia; reflexivity).
  rewrite Hs. set (sh := Z.max (Zdigits2 (Z.pos m) + k - 53) 0).
  assert (Hsh : 0 <= sh <= k) by (unfold sh; lia).
  assert (P : 0 < 2 ^ sh) by (apply pow2_pos; lia).
  replace (Z.pos m * 2 ^ k) with (Z.pos m * 2 ^ (k - sh) * 2 ^ sh)
    by (rewrite <- Z.mul_assoc, <- Z.pow_add_r by lia; do 2 f_equal; lia).
  rewrite rhe_mul by exact P. reflexivity.
Qed.

Lemma RNs_bounds (z : Z) : - cap <= RNs z <= cap.
Proof.
  unfold RNs. pose proof cap_pos.
  pose proof (RN_nonneg (Z.abs z) 1 ltac:(lia) ltac:(lia)).
  destruct (z <? 0); cbn [cond_Zopp]; lia.
Qed.

Lemma sub_rank_anti (C z1 z2 : Z) :
  z1 <= z2 -> sub_rank C z2 <= sub_rank C z1.
Proof.
  intros H. unfold sub_rank. pose proof cap_pos.
  pose proof (RNs_bounds (C - z1)). pose proof (RNs_bounds (C - z2)).
  pose proof (RNs_mono (C - z2) (C - z1) ltac:(lia)).
  destruct (Z.leb_spec cap (Z.abs z1)), (Z.leb_spec cap (Z.abs z2)),
    (Z.ltb_spec 0 z1), (Z.ltb_spec 0 z2); cbn [cond_Zopp]; lia.
Qed.

Lemma SFsub_rank (sx : bool) (mx : positive) (ex : Z) (y : spec_float) :
  valid_binary (S754_finite sx mx ex) = true ->
  valid_binary y = true -> y <> S754_nan ->
  SFsub prec emax (S754_finite sx mx ex) y <> S754_nan /\
  rank (SFsub prec emax (S754_finite sx mx ex) y)
  = sub_rank (rank (S754_finite sx mx ex)) (rank y).
Proof.
  intros Vx Vy Ny. pose proof cap_pos as C.
  pose proof (mag_pos sx mx ex Vx) as Px.
  destruct y as [s|s| |s m e]; try congruence.
  - split; [discriminate|]. simpl SFsub. unfold sub_rank.
    change (rank (S754_zero s)) with 0. change (Z.abs 0) with 0.
    rewrite (proj2 (Z.leb_gt _ _)) by lia. rewrite Z.sub_0_r.
    unfold RNs, rank. fold (mag mx ex).
    destruct sx; cbn [cond_Zopp].
    + rewrite (proj2 (Z.ltb_lt _ _)) by lia.
      rewrite Z.abs_neq, Z.opp_involutive by lia.
      rewrite (RN_mag true mx ex Vx). cbn [cond_Zopp]. lia.
    + rewrite (proj2 (Z.ltb_ge _ _)) by lia.
      rewrite Z.abs_eq by lia.
      rewrite (RN_mag false mx ex Vx). cbn [cond_Zopp]. lia.
  - split; [discriminate|]. simpl SFsub. unfold sub_rank.
    change (rank (S754_infinity s)) with (cond_Zopp s cap).
    change (rank (S754_infinity (negb s))) with (cond_Zopp (negb s) cap).
    destruct s; cbn [cond_Zopp negb].
    + rewrite (proj2 (Z.leb_le _ _)) by lia.
      rewrite (proj2 (Z.ltb_ge _ _)) by lia. reflexivity.
    + rewrite (proj2 (Z.leb_le _ _)) by lia.
      rewrite (proj2 (Z.ltb_lt _ _)) by lia. reflexivity.
  - destruct (SFsub_finite_rank sx s mx m ex e Vx Vy) as (Hn & Hr & _).
    split; [exact Hn|]. rewrite Hr. unfold sub_rank.
    pose proof (rank_bounds _ Vy) as By.
    pose proof (mag_pos s m e Vy) as Py.
    assert (Z.abs (rank (S754_finite s m e)) < cap)
      by (unfold rank; fold (mag m e); destruct s; cbn [cond_Zopp]; lia).
    rewrite (proj2 (Z.leb_gt _ _)) by lia. reflexivity.
Qed.

(** Subtracting from a finite number reverses the order of numbers. *)
Theorem sub_anti (c p q : float) (sc : bool) (mc : positive) (ec : Z) :
  Prim2SF c = S754_finite sc mc ec ->
  (p <=? q)%float = true -> (c - q <=? c - p)%float = true.
Proof.
  intros Hc H. apply leb_frank in H as (Hp & Hq & H).
  assert (Vc : valid_binary (S754_finite sc mc ec) = true)
    by (rewrite <- Hc; apply Prim2SF_valid).
  destruct (SFsub_rank sc mc ec (Prim2SF p) Vc (Prim2SF_valid p)
              (proj1 (not_nan_spec p) Hp)) as [Np Rp].
  destruct (SFsub_rank sc mc ec (Prim2SF q) Vc (Prim2SF_valid q)
              (proj1 (not_nan_spec q) Hq)) as [Nq Rq].
  rewrite <- Hc, <- sub_spec in Np, Rp, Nq, Rq.
  apply leb_frank. repeat split; try (apply not_nan_spec; assumption).
  unfold frank in *. rewrite Rp, Rq. apply sub_rank_anti. exact H.
Qed.

(** A difference with a finite, non-zero first operand is never [-0]. *)
Theorem sub_not_neg_zero (c q : float) (sc : bool) (mc : positive) (ec : Z) :
  Prim2SF c = S754_finite sc mc ec -> (c - q)%float <> neg_zero.
Proof.
  intros Hc E.
  assert (Vc : valid_binary (S754_finite sc mc ec) = true)
    by (rewrite <- Hc; apply Prim2SF_valid).
  assert (E' : Prim2SF (c - q) = S754_zero true) by (rewrite E; reflexivity).
  rewrite sub_spec, Hc in E'. pose proof (Prim2SF_valid q) as Vq.
  destruct (Prim2SF q) as [s|s| |s m e]; try discriminate E'.
  destruct (SFsub_finite_rank sc s mc m ec e Vc Vq) as (_ & Hr & Hz).
  cbv zeta in Hr, Hz. unfold SF64sub in E'. rewrite E' in Hr, Hz.
  symmetry in Hr. apply RNs_0 in Hr.
  assert (S754_zero true = S754_zero false) by (apply Hz; lia).
  discriminate.
Qed.

End Monotone.

(** ** The reply of each revision, case by case *)

Section Decide.

Variable kp : KeypointSet.

Lemma index_decide_no_nose :
  kp !! "nose" = None ->
  Index.decide kp
  = Status400 {| error := NoseNotDetected; rejected_accepted := Some false |}.
Proof. unfold Index.decide. intros ->. reflexivity. Qed.

Lemma nearest_decide_no_nose (dist : Position -> Position -> float) :
  kp !! "nose" = None ->
  nearest_decide dist kp
  = Status400 {| error := NoseNotDetected; rejected_accepted := None |}.
Proof. unfold nearest_decide. intros ->. reflexivity. Qed.

Lemma index_decide_no_wrist (nose : Position) :
  kp !! "nose" = Some nose ->
  kp !! "rightWrist" = None -> kp !! "leftWrist" = None ->
  Index.decide kp
  = Status400 {| error := NoWristDetected; rejected_accepted := Some false |}.
Proof. unfold Index.decide. intros -> -> ->. reflexivity. Qed.

Lemma index_decide_right (nose right : Position) :
  kp !! "nose" = Some nose -> kp !! "rightWrist" = Some right ->
  Index.decide kp = Status200 (Index.result (Index.dist right nose)).
Proof.
  unfold Index.decide, Index.nearestHand. intros -> ->.
  rewrite bool_decide_eq_true_2 by (eexists; reflexivity). reflexivity.
Qed.

Lemma index_decide_left (nose left : Position) :
  kp !! "nose" = Some nose ->
  kp !! "rightWrist" = None -> kp !! "leftWrist" = Some left ->
  Index.decide kp = Status200 (Index.result (Index.dist left nose)).
Proof.
  unfold Index.decide, Index.nearestHand. intros -> -> ->.
  rewrite (bool_decide_eq_true_2 (is_Some (Some left))) by (eexists; reflexivity).
  rewrite andb_false_r. reflexivity.
Qed.

(** Every success reply of index.js comes from a nose and a selected wrist. *)
Lemma index_decide_200 (j : Judgment) :
  Index.decide kp = Status200 j ->
  exists nose hand,
    kp !! "nose" = Some nose /\ Index.nearestHand kp = Some hand /\
    j = Index.result (Index.dist hand nose).
Proof.
  unfold Index.decide. destruct (kp !! "nose") as [nose|]; [|discriminate].
  destruct (_ && _); [discriminate|].
  destruct (Index.nearestHand kp) as [hand|]; [|discriminate].
  intros [= <-]. eauto.
Qed.

Lemma nearest_decide_200 (dist : Position -> Position -> float) (j : Judgment) :
  nearest_decide dist kp = Status200 j ->
  exists nose, kp !! "nose" = Some nose /\ j = nearest_result dist kp nose.
Proof.
  unfold nearest_decide. destruct (kp !! "nose") as [nose|]; [|discriminate].
  intros [= <-]. eauto.
Qed.

End Decide.

(** C3: when [kp] has no nose, every revision replies 400 with the error
    "Nose not detected", whatever the wrists are, and none of them produces a
    Judgment. *)
Theorem nose_absent_is_NoseNotDetected
    (exponentiate : float -> float -> float) (kp : KeypointSet) :
  kp !! "nose" = None ->
  (exists body, Index.decide kp = Status400 body /\ error body = NoseNotDetected) /\
  (exists body, Part000.decide exponentiate kp = Status400 body
                /\ error body = NoseNotDetected) /\
  (exists body, Part001.decide kp = Status400 body /\ error body = NoseNotDetected) /\
  (forall j, Index.decide kp <> Status200 j
             /\ Part000.decide exponentiate kp <> Status200 j
             /\ Part001.decide kp <> Status200 j).
Proof.
  intros H. unfold Part000.decide, Part001.decide.
  rewrite (index_decide_no_nose kp H), !(nearest_decide_no_nose kp _ H).
  repeat split; try (eexists; split; reflexivity); discriminate.
Qed.

Lemma nose_absent_is_NoseNotDetected_witness :
  wrists_only !! "nose" = None /\
  (exists body, Index.decide wrists_only = Status400 body
                /\ error body = NoseNotDetected).
Proof.
  split; [reflexivity|].
  apply (nose_absent_is_NoseNotDetected (fun b _ => b * b)%float wrists_only).
  reflexivity.
Defined.

(** C6: in index.js, the revision that checks for wrists, a [kp] with a nose
    and no wrist gets the 400 reply "No wrist detected", which is another
    error than "Nose not detected". *)
Theorem no_wrist_is_NoWristDetected (kp : KeypointSet) (nose : Position) :
  kp !! "nose" = Some nose ->
  kp !! "leftWrist" = None -> kp !! "rightWrist" = None ->
  (exists body, Index.decide kp = Status400 body /\ error body = NoWristDetected) /\
  NoWristDetected <> NoseNotDetected.
Proof.
  intros Hn Hl Hr. rewrite (index_decide_no_wrist kp nose Hn Hr Hl).
  split; [eexists; split; reflexivity | discriminate].
Qed.

Lemma no_wrist_is_NoWristDetected_witness :
  exists body, Index.decide nose_only = Status400 body
               /\ error body = NoWristDetected.
Proof.
  apply (no_wrist_is_NoWristDetected nose_only {| x := 0; y := 0 |});
    reflexivity.
Defined.



(** ** Building [kp] in index.js *)

Section KeypointFilter.

Lemma kp_snoc (l : list Keypoint) (p : Keypoint) :
  Index.kp (l ++ [p]) = Index.kp_step (Index.kp l) p.
Proof. unfold Index.kp. rewrite fold_left_app. reflexivity. Qed.

(** A property of [kp] was written by a tracked keypoint that the filter let
    through. *)
Lemma kp_lookup_Some (l : list Keypoint) (name : string) (pos : Position) :
  Index.kp l !! name = Some pos ->
  name ∈ tracked_parts /\
  exists point, point ∈ l /\ part point = name /\ position point = pos
                /\ JS.lt (score point) 0.5%float = false.
Proof.
  induction l as [|p l IH] using rev_ind.
  - unfold Index.kp; simpl. rewrite lookup_empty. discriminate.
  - rewrite kp_snoc. unfold Index.kp_step.
    assert (Hold : Index.kp l !! name = Some pos ->
                   name ∈ tracked_parts /\
                   exists point, point ∈ l ++ [p] /\ part point = name
                                 /\ position point = pos
                                 /\ JS.lt (score point) 0.5%float = false).
    { intros H. destruct (IH H) as (Ht & q & Hq & ?). split; [exact Ht|].
      exists q. split; [|assumption]. apply elem_of_app. left; exact Hq. }
    destruct (JS.lt (score p) 0.5%float) eqn:Hs; [exact Hold|].
    unfold includes. case_bool_decide as Hp; [|exact Hold].
    destruct (decide (part p = name)) as [<-|Hne].
    + rewrite lookup_insert_eq. intros [= <-]. split; [exact Hp|].
      exists p. repeat split; [|exact Hs]. apply elem_of_app. right.
      apply list_elem_of_singleton. reflexivity.
    + rewrite lookup_insert_ne by exact Hne. exact Hold.
Qed.

(** A tracked keypoint that the filter lets through leaves its part in [kp]. *)
Lemma kp_lookup_kept (l : list Keypoint) (point : Keypoint) :
  point ∈ l -> part point ∈ tracked_parts ->
  JS.lt (score point) 0.5%float = false ->
  is_Some (Index.kp l !! part point).
Proof.
  intros Hin Ht Hs. induction l as [|p l IH] using rev_ind.
  - inversion Hin.
  - rewrite kp_snoc. unfold Index.kp_step.
    apply elem_of_app in Hin as [Hin|Hin].
    + specialize (IH Hin).
      destruct (JS.lt (score p) 0.5%float); [exact IH|].
      destruct (includes tracked_parts (part p)); [|exact IH].
      destruct (decide (part p = part point)) as [->|Hne].
      * rewrite lookup_insert_eq. eexists; reflexivity.
      * rewrite lookup_insert_ne by exact Hne. exact IH.
    + apply list_elem_of_singleton in Hin. subst p. rewrite Hs.
      unfold includes. rewrite bool_decide_eq_true_2 by exact Ht.
      rewrite lookup_insert_eq. eexists; reflexivity.
Qed.

Lemma part_unique (l : list Keypoint) (p q : Keypoint) :
  NoDup (part <$> l) -> p ∈ l -> q ∈ l -> part p = part q -> p = q.
Proof.
  induction l as [|a l IH]; intros Hnd Hp Hq Heq.
  - inversion Hp.
  - rewrite fmap_cons in Hnd. apply NoDup_cons in Hnd as [Ha Hnd].
    apply elem_of_cons in Hp as [->|Hp], Hq as [->|Hq].
    + reflexivity.
    + exfalso. apply Ha. rewrite Heq. apply list_elem_of_fmap_2. exact Hq.
    + exfalso. apply Ha. rewrite <- Heq. apply list_elem_of_fmap_2. exact Hp.
    + apply IH; assumption.
Qed.

End KeypointFilter.

(** For a score that is a number, the test [point.score < 0.5] of the loop
    fails exactly when [point.score >= 0.5]. *)
Lemma filter_test (s : float) :
  is_nan s = false -> JS.lt s 0.5%float = negb (JS.ge s 0.5%float).
Proof.
  intros Hs. unfold JS.lt, JS.ge.
  rewrite (Compare.leb_negb_ltb s 0.5%float Hs eq_refl).
  rewrite negb_involutive. reflexivity.
Qed.

(** C9: index.js passes to the decision a [kp] that holds exactly the parts
    among nose, leftWrist and rightWrist that some keypoint reports with a
    score of at least 0.5, each with the position of such a keypoint; a score
    of exactly 0.5 is kept; and when every part is reported once, a tracked
    part is in [kp], with its position, if its score is at least 0.5 and
    absent if it is below. Scores are numbers. *)
Theorem kp_keeps_scores_from_half (keypoints : list Keypoint) :
  Forall (fun p => is_nan (score p) = false) keypoints ->
  (forall name,
      is_Some (Index.kp keypoints !! name) <->
      name ∈ tracked_parts /\
      exists point, point ∈ keypoints /\ part point = name
                    /\ JS.ge (score point) 0.5%float = true) /\
  (forall name pos,
      Index.kp keypoints !! name = Some pos ->
      exists point, point ∈ keypoints /\ part point = name
                    /\ position point = pos
                    /\ JS.ge (score point) 0.5%float = true) /\
  (forall point,
      point ∈ keypoints -> part point ∈ tracked_parts ->
      score point = 0.5%float ->
      is_Some (Index.kp keypoints !! part point)) /\
  (NoDup (part <$> keypoints) ->
   forall point,
     point ∈ keypoints -> part point ∈ tracked_parts ->
     Index.kp keypoints !! part point
     = if JS.ge (score point) 0.5%float then Some (position point) else None).
Proof.
  intros Hnum. rewrite Forall_forall in Hnum.
  assert (Hinv : forall name pos,
             Index.kp keypoints !! name = Some pos ->
             name ∈ tracked_parts /\
             exists point, point ∈ keypoints /\ part point = name
                           /\ position point = pos
                           /\ JS.ge (score point) 0.5%float = true).
  { intros name pos H.
    destruct (kp_lookup_Some keypoints name pos H) as (Ht & q & Hq & Hp & Hpos & Hs).
    split; [exact Ht|]. exists q. repeat split; try assumption.
    rewrite filter_test in Hs by (apply Hnum; exact Hq).
    apply negb_false_iff in Hs. exact Hs. }
  assert (Hkept : forall point,
             point ∈ keypoints -> part point ∈ tracked_parts ->
             JS.ge (score point) 0.5%float = true ->
             is_Some (Index.kp keypoints !! part point)).
  { intros point Hin Ht Hs. apply kp_lookup_kept; try assumption.
    rewrite filter_test by (apply Hnum; exact Hin). rewrite Hs. reflexivity. }
  split; [|split; [|split]].
  - intros name. split.
    + intros [pos H]. destruct (Hinv name pos H) as (Ht & q & ? & ? & ? & ?).
      split; [exact Ht|]. exists q. auto.
    + intros (Ht & q & Hq & <- & Hs). apply Hkept; assumption.
  - intros name pos H. apply (Hinv name pos H).
  - intros point Hin Ht Hs. apply Hkept; try assumption.
    rewrite Hs. reflexivity.
  - intros Hnd point Hin Ht.
    destruct (JS.ge (score point) 0.5%float) eqn:Hs.
    + destruct (Hkept point Hin Ht Hs) as [pos Hpos]. rewrite Hpos.
      destruct (Hinv _ _ Hpos) as (_ & q & Hq & Hpq & <- & _).
      rewrite (part_unique keypoints q point Hnd Hq Hin Hpq). reflexivity.
    + destruct (Index.kp keypoints !! part point) as [pos|] eqn:Hpos;
        [|reflexivity].
      destruct (Hinv _ _ Hpos) as (_ & q & Hq & Hpq & _ & Hsq).
      rewrite (part_unique keypoints q point Hnd Hq Hin Hpq) in Hsq.
      congruence.
Qed.

Lemma kp_keeps_scores_from_half_witness :
  Index.kp keypoints_at_the_boundary !! "nose" = Some {| x := 10; y := 20 |} /\
  Index.kp keypoints_at_the_boundary !! "leftWrist" = None /\
  Index.kp keypoints_at_the_boundary !! "rightWrist" = Some {| x := 6; y := 8 |}.
Proof.
  assert (Hnum : Forall (fun p => is_nan (score p) = false)
                        keypoints_at_the_boundary)
    by (repeat constructor).
  assert (Hnd : NoDup (part <$> keypoints_at_the_boundary))
    by compute_done.
  destruct (kp_keeps_scores_from_half keypoints_at_the_boundary Hnum)
    as (_ & _ & _ & H).
  specialize (H Hnd).
  assert (Hin : forall i p, keypoints_at_the_boundary !! i = Some p ->
                            p ∈ keypoints_at_the_boundary)
    by (intros i p; apply list_elem_of_lookup_2).
  split; [|split].
  - apply (H _ (Hin 0%nat _ eq_refl)). compute_done.
  - apply (H _ (Hin 1%nat _ eq_refl)). compute_done.
  - apply (H _ (Hin 2%nat _ eq_refl)). compute_done.
Defined.

(** ** [Math.min] and [Math.max] of two numbers *)

Section MinMax.

Lemma Math_min_pair (a b : float) :
  is_nan a = false -> is_nan b = false ->
  JS.Math_min [a; b] = JS.min_step a b.
Proof.
  intros Ha Hb. unfold JS.Math_min. simpl. rewrite Ha, Hb. simpl.
  f_equal. unfold JS.min_step.
  change (JS.is_pos_zero infinity) with false. rewrite andb_false_r.
  unfold JS.lt. destruct (a <? infinity)%float eqn:E; [reflexivity|].
  symmetry. apply Compare.not_ltb_infinity; assumption.
Qed.

(** When the first is strictly below the second, the minimum is the first. *)
Lemma Math_min_lt_l (a b : float) :
  (a <? b)%float = true -> JS.Math_min [a; b] = a.
Proof.
  intros H.
  destruct (Compare.compare_not_nan a b Lt) as [Ha Hb];
    [apply Compare.ltb_compare; exact H|].
  rewrite Math_min_pair by assumption. unfold JS.min_step, JS.lt.
  rewrite (Compare.ltb_not_gtb a b H).
  destruct (JS.is_neg_zero b && JS.is_pos_zero a) eqn:Z; [|reflexivity].
  apply andb_true_iff in Z as [Zb Za].
  apply FloatAxioms.Leibniz.eqb_spec in Zb, Za. subst. discriminate H.
Qed.

(** When the second is strictly below the first, the minimum is the second. *)
Lemma Math_min_lt_r (a b : float) :
  (b <? a)%float = true -> JS.Math_min [a; b] = b.
Proof.
  intros H.
  destruct (Compare.compare_not_nan b a Lt) as [Hb Ha];
    [apply Compare.ltb_compare; exact H|].
  rewrite Math_min_pair by assumption. unfold JS.min_step, JS.lt.
  rewrite H. destruct (_ && _); reflexivity.
Qed.

(** When the two are equal numbers, the minimum is the first, unless the
    first is [+0] and the second [-0]. *)
Lemma Math_min_eq (a b : float) :
  (a =? b)%float = true ->
  JS.Math_min [a; b] = a \/ (a = zero /\ JS.Math_min [a; b] = neg_zero).
Proof.
  intros H.
  destruct (Compare.compare_not_nan a b Eq) as [Ha Hb];
    [apply Compare.eqb_compare; exact H|].
  rewrite Math_min_pair by assumption. unfold JS.min_step, JS.lt.
  rewrite Compare.eqb_sym in H.
  rewrite (Compare.eqb_not_ltb b a H).
  destruct (JS.is_neg_zero b && JS.is_pos_zero a) eqn:Z; [right|left; reflexivity].
  apply andb_true_iff in Z as [Zb Za].
  apply FloatAxioms.Leibniz.eqb_spec in Zb, Za. subst. split; reflexivity.
Qed.

End MinMax.

(** C4 (as the code has it): in part_000 and part_001, with a nose and both
    wrists in [kp], the reply names the wrist whose computed distance to the
    nose is smaller and reports that distance; when the two computed
    distances are equal it names the left wrist. The computed distance is
    the binary64 value of [Math.sqrt(dx * dx + dy * dy)], in part_000 of
    [Math.sqrt(dx ** 2 + dy ** 2)], every operation rounded. *)
Theorem nearest_wrist_is_selected
    (exponentiate : float -> float -> float)
    (kp : KeypointSet) (nose left right : Position) :
  kp !! "nose" = Some nose ->
  kp !! "leftWrist" = Some left ->
  kp !! "rightWrist" = Some right ->
  (exists j,
      Part001.decide kp = Status200 j /\
      let dl := sqrt ((x left - x nose) * (x left - x nose)
                      + (y left - y nose) * (y left - y nose))%float in
      let dr := sqrt ((x right - x nose) * (x right - x nose)
                      + (y right - y nose) * (y right - y nose))%float in
      ((dl <? dr)%float = true ->
       closestHand j = Some "leftWrist"
       /\ distance j = JS.parseFloat_toFixed dl 2) /\
      ((dr <? dl)%float = true ->
       closestHand j = Some "rightWrist"
       /\ distance j = JS.parseFloat_toFixed dr 2) /\
      ((dl =? dr)%float = true ->
       closestHand j = Some "leftWrist"
       /\ distance j = JS.parseFloat_toFixed dl 2)) /\
  (exists j,
      Part000.decide exponentiate kp = Status200 j /\
      let dl := sqrt (exponentiate (x left - x nose) 2
                      + exponentiate (y left - y nose) 2)%float in
      let dr := sqrt (exponentiate (x right - x nose) 2
                      + exponentiate (y right - y nose) 2)%float in
      ((dl <? dr)%float = true ->
       closestHand j = Some "leftWrist"
       /\ distance j = JS.parseFloat_toFixed dl 2) /\
      ((dr <? dl)%float = true ->
       closestHand j = Some "rightWrist"
       /\ distance j = JS.parseFloat_toFixed dr 2) /\
      ((dl =? dr)%float = true ->
       closestHand j = Some "leftWrist"
       /\ distance j = JS.parseFloat_toFixed dl 2)).
Proof.
  intros Hn Hl Hr.
  assert (G : forall dist,
             exists j,
               nearest_decide dist kp = Status200 j /\
               let dl := dist left nose in
               let dr := dist right nose in
               ((dl <? dr)%float = true ->
                closestHand j = Some "leftWrist"
                /\ distance j = JS.parseFloat_toFixed dl 2) /\
               ((dr <? dl)%float = true ->
                closestHand j = Some "rightWrist"
                /\ distance j = JS.parseFloat_toFixed dr 2) /\
               ((dl =? dr)%float = true ->
                closestHand j = Some "leftWrist"
                /\ distance j = JS.parseFloat_toFixed dl 2)).
  { intros dist. unfold nearest_decide. rewrite Hn.
    eexists; split; [reflexivity|].
    unfold nearest_result, nearest_closestHand, minDist, distLeft, distRight.
    rewrite Hl, Hr. simpl. unfold JS.strict_eq. split; [|split].
    - intros H. rewrite (Math_min_lt_l _ _ H).
      destruct (Compare.compare_not_nan _ _ Lt
                  (proj1 (Compare.ltb_compare _ _) H)) as [Hd _].
      rewrite (Compare.eqb_refl _ Hd). split; reflexivity.
    - intros H. rewrite (Math_min_lt_r _ _ H).
      rewrite (Compare.ltb_not_eqb _ _ H). split; reflexivity.
    - intros H. destruct (Math_min_eq _ _ H) as [-> | [E ->]].
      + destruct (Compare.compare_not_nan _ _ Eq
                    (proj1 (Compare.eqb_compare _ _) H)) as [Hd _].
        rewrite (Compare.eqb_refl _ Hd). split; reflexivity.
      + rewrite E. split; reflexivity. }
  split.
  - exact (G Part001.dist).
  - exact (G (Part000.euclideanDistance exponentiate)).
Qed.

Lemma nearest_wrist_is_selected_witness :
  exists j, Part001.decide kp7 = Status200 j
            /\ closestHand j = Some "leftWrist" /\ distance j = 5%float.
Proof.
  destruct (nearest_wrist_is_selected
              (fun b _ => b * b)%float kp7
              {| x := 0; y := 0 |} {| x := 3; y := 4 |} {| x := 6; y := 8 |}
              eq_refl eq_refl eq_refl) as [(j & Hj & Hlt & _) _].
  exists j. split; [exact Hj|]. apply Hlt. reflexivity.
Defined.

(** C4 as stated fails: the order of the computed distances is not the order
    of the Euclidean distances. With the nose at (0,0), the left wrist at
    (238.22307348251343, 133.51395845413208) and the right wrist at
    (270.05905389785767, 40.55018186569214) are at exactly the same distance
    and part_001 names the right wrist, where the left one is due; with the
    left wrist at (271.27, 217.88) and the right wrist at
    (76.75, 339.3649139201046) the left wrist is strictly nearer and part_001
    names the right wrist. *)
Lemma exactly_nearer_wrist_is_not_selected :
  (exact_squared_distance {| x := 238.22307348251343; y := 133.51395845413208 |}
                          {| x := 0; y := 0 |}
   = exact_squared_distance {| x := 270.05905389785767; y := 40.55018186569214 |}
                            {| x := 0; y := 0 |}
   /\ exists j, Part001.decide equidistant_wrists = Status200 j
                /\ closestHand j = Some "rightWrist") /\
  (exact_squared_distance {| x := 271.27; y := 217.88 |} {| x := 0; y := 0 |}
   < exact_squared_distance {| x := 76.75; y := 339.3649139201046 |}
                            {| x := 0; y := 0 |}
   /\ exists j, Part001.decide left_barely_nearer = Status200 j
                /\ closestHand j = Some "rightWrist").
Proof.
  split; (split; [vm_compute; reflexivity|]);
    eexists; (split; [vm_compute; reflexivity|reflexivity]).
Qed.

(** C2: in every success reply, [accepted] is true exactly when the confidence
    as computed, before it is rounded for the reply, is at least
    ACCEPTANCE_THRESHOLD; nothing else enters the decision. *)
Theorem accepted_iff_confidence_reaches_threshold
    (exponentiate : float -> float -> float) (kp : KeypointSet) (j : Judgment) :
  (Index.decide kp = Status200 j ->
   exists nose hand,
     kp !! "nose" = Some nose /\ Index.nearestHand kp = Some hand /\
     (accepted j = true <->
      (Index.ACCEPTANCE_THRESHOLD
       <=? Index.confidence (Index.dist hand nose))%float = true)) /\
  (Part001.decide kp = Status200 j ->
   exists nose,
     kp !! "nose" = Some nose /\
     (accepted j = true <->
      (nearest_ACCEPTANCE_THRESHOLD
       <=? confidenceDecimal (minDist Part001.dist kp nose))%float = true)) /\
  (Part000.decide exponentiate kp = Status200 j ->
   exists nose,
     kp !! "nose" = Some nose /\
     (accepted j = true <->
      (nearest_ACCEPTANCE_THRESHOLD
       <=? confidenceDecimal
             (minDist (Part000.euclideanDistance exponentiate) kp nose))%float
      = true)).
Proof.
  split; [|split].
  - intros H. destruct (index_decide_200 kp j H) as (nose & hand & Hn & Hh & ->).
    exists nose, hand. repeat split; auto.
  - intros H. destruct (nearest_decide_200 kp _ j H) as (nose & Hn & ->).
    exists nose. repeat split; auto.
  - intros H. destruct (nearest_decide_200 kp _ j H) as (nose & Hn & ->).
    exists nose. repeat split; auto.
Qed.

Lemma accepted_iff_confidence_reaches_threshold_witness :
  exists nose hand,
    kp7 !! "nose" = Some nose /\ Index.nearestHand kp7 = Some hand /\
    (true = true <->
     (Index.ACCEPTANCE_THRESHOLD
      <=? Index.confidence (Index.dist hand nose))%float = true).
Proof.
  apply (accepted_iff_confidence_reaches_threshold
           (fun b _ => b * b)%float kp7 (Index.result 10%float)).
  reflexivity.
Defined.

(** The reply of index.js rounds the confidence to three decimals after
    [accepted] is decided: at distance 1350.15 the confidence is just below
    0.1, the reply shows 0.1 and [accepted] is false. *)
Example accepted_is_decided_before_rounding :
  Index.result 1350.15%float
  = {| closestHand := None; distance := 1350.15%float;
       accepted := false; confidence := Some 0.1%float |}.
Proof. vm_compute. reflexivity. Qed.

(** C7 (as the code has it): on nose (0,0), left wrist (3,4), right wrist
    (6,8), with THRESHOLD_DISTANCE 550 and ACCEPTANCE_THRESHOLD 0.1, part_001
    finds the distances 5 and 10, picks the left wrist and replies with
    closestHand "leftWrist", distance 5 and accepted true; the reply has no
    confidence key; the confidence computed on the way is 1 - 5/550, which
    prints as 0.991 with three decimals. part_000 does the same as soon as
    its [**] squares 3, 4, 6 and 8 exactly. *)
Theorem example_3_4_6_8 :
  distLeft Part001.dist kp7 {| x := 0; y := 0 |} = 5%float /\
  distRight Part001.dist kp7 {| x := 0; y := 0 |} = 10%float /\
  Part001.decide kp7
  = Status200 {| closestHand := Some "leftWrist"; distance := 5%float;
                 accepted := true; confidence := None |} /\
  confidenceDecimal 5%float = (1 - 5 / 550)%float /\
  JS.parseFloat_toFixed (confidenceDecimal 5%float) 3 = 0.991%float /\
  (forall exponentiate : float -> float -> float,
      exponentiate 3%float 2%float = 9%float ->
      exponentiate 4%float 2%float = 16%float ->
      exponentiate 6%float 2%float = 36%float ->
      exponentiate 8%float 2%float = 64%float ->
      Part000.decide exponentiate kp7 = Part001.decide kp7).
Proof.
  do 5 (split; [vm_compute; reflexivity|]).
  intros exponentiate H3 H4 H6 H8.
  unfold Part000.decide, Part001.decide, nearest_decide.
  change (kp7 !! "nose") with (Some {| x := 0; y := 0 |}).
  f_equal.
  unfold nearest_result, nearest_closestHand, minDist, distLeft, distRight.
  change (kp7 !! "leftWrist") with (Some {| x := 3; y := 4 |}).
  change (kp7 !! "rightWrist") with (Some {| x := 6; y := 8 |}).
  unfold Part000.euclideanDistance, Part001.dist, Index.dist. simpl.
  change (3 - 0)%float with 3%float. change (4 - 0)%float with 4%float.
  change (6 - 0)%float with 6%float. change (8 - 0)%float with 8%float.
  rewrite H3, H4, H6, H8. reflexivity.
Qed.

Lemma example_3_4_6_8_witness :
  Part000.decide (fun b _ => b * b)%float kp7 = Part001.decide kp7.
Proof.
  apply example_3_4_6_8; reflexivity.
Defined.

(** C7 as stated fails: the reply of the nearest-of-both revisions carries no
    confidence, so it does not carry 0.991. *)
Lemma example_3_4_6_8_returns_no_confidence :
  ~ (exists j, Part001.decide kp7 = Status200 j
               /\ closestHand j = Some "leftWrist"
               /\ distance j = 5%float
               /\ confidence j = Some 0.991%float
               /\ accepted j = true).
Proof.
  intros (j & Hj & _ & _ & Hc & _).
  vm_compute in Hj. injection Hj as <-. discriminate Hc.
Qed.

(** C10 (as the code has it): in part_000 and part_001 a [kp] with a nose and
    no wrist is not rejected: both wrist distances are [Infinity], the
    comparison [minDist === distLeft] holds and names the left wrist, and the
    reply is closestHand "leftWrist", distance [Infinity], accepted false,
    with no confidence key; the confidence computed on the way is 0. *)
Theorem no_wrist_still_answers
    (exponentiate : float -> float -> float)
    (kp : KeypointSet) (nose : Position) :
  kp !! "nose" = Some nose ->
  kp !! "leftWrist" = None -> kp !! "rightWrist" = None ->
  (forall dist, distLeft dist kp nose = infinity
                /\ distRight dist kp nose = infinity
                /\ minDist dist kp nose = infinity) /\
  confidenceDecimal infinity = 0%float /\
  Part001.decide kp
  = Status200 {| closestHand := Some "leftWrist"; distance := infinity;
                 accepted := false; confidence := None |} /\
  Part000.decide exponentiate kp
  = Status200 {| closestHand := Some "leftWrist"; distance := infinity;
                 accepted := false; confidence := None |}.
Proof.
  intros Hn Hl Hr.
  assert (D : forall dist, distLeft dist kp nose = infinity
                           /\ distRight dist kp nose = infinity
                           /\ minDist dist kp nose = infinity).
  { intros dist. unfold minDist, distLeft, distRight. rewrite Hl, Hr.
    repeat split; reflexivity. }
  assert (G : forall dist,
             nearest_decide dist kp
             = Status200 {| closestHand := Some "leftWrist";
                            distance := infinity;
                            accepted := false; confidence := None |}).
  { intros dist. unfold nearest_decide. rewrite Hn.
    unfold nearest_result, nearest_closestHand.
    destruct (D dist) as (-> & _ & ->). reflexivity. }
  split; [exact D|]. split; [reflexivity|]. split; apply G.
Qed.

Lemma no_wrist_still_answers_witness :
  Part001.decide nose_only
  = Status200 {| closestHand := Some "leftWrist"; distance := infinity;
                 accepted := false; confidence := None |}.
Proof.
  apply (no_wrist_still_answers (fun b _ => b * b)%float nose_only
           {| x := 0; y := 0 |}); reflexivity.
Defined.

(** C10 as stated fails: the Judgment that is returned has no confidence, so
    it does not have confidence 0. *)
Lemma no_wrist_reply_has_no_confidence :
  ~ (exists j, Part001.decide nose_only = Status200 j
               /\ closestHand j = Some "leftWrist"
               /\ distance j = infinity
               /\ confidence j = Some 0%float
               /\ accepted j = false).
Proof.
  intros (j & Hj & _ & _ & Hc & _).
  vm_compute in Hj. injection Hj as <-. discriminate Hc.
Qed.

(** ** The confidence as a function of the distance *)

Section Confidence.

Import Binary64 Monotone.

(** [Math.max(0, u)] of a number [u] is [u] when [0 < u] and [+0] otherwise. *)
Lemma Math_max_0 (u : float) :
  is_nan u = false ->
  JS.Math_max [0%float; u] = if (0 <? u)%float then u else 0%float.
Proof.
  intros Hu. unfold JS.Math_max. simpl. rewrite Hu. simpl.
  change (JS.max_step neg_infinity 0) with 0%float.
  unfold JS.max_step, JS.lt.
  change (JS.is_neg_zero 0) with false. rewrite andb_false_r. reflexivity.
Qed.

(** A number that is neither below nor above zero is a zero. *)
Lemma frank_0 (u : float) :
  is_nan u = false -> frank u = 0 -> u = 0%float \/ u = neg_zero.
Proof.
  intros Hu H. unfold frank in H. pose proof (Prim2SF_valid u) as V.
  apply not_nan_spec in Hu. pose proof RoundAux.pow2_pos 2098 ltac:(lia) as C.
  fold cap in C.
  destruct (Prim2SF u) as [s|s| |s m e] eqn:E; try congruence.
  - destruct s; [right|left]; apply Prim2SF_inj; rewrite E; reflexivity.
  - exfalso. unfold rank in H. destruct s; cbn [cond_Zopp] in H; lia.
  - exfalso. pose proof (Order.mag_pos s m e V). unfold rank in H.
    fold (mag m e) in H. destruct s; cbn [cond_Zopp] in H; lia.
Qed.

Variable T : float.
Variable mT : positive.
Variable eT : Z.
Hypothesis HT : Prim2SF T = S754_finite false mT eT.
Hypothesis HTT : (T / T)%float = 1%float.

Lemma one_finite : Prim2SF 1 = S754_finite false 4503599627370496 (-52).
Proof. reflexivity. Qed.

Lemma linear_le_0 (d : float) :
  (T <=? d)%float = true -> (1 - d / T <=? 0)%float = true.
Proof.
  intros H. apply (div_mono T d T mT eT HT) in H. rewrite HTT in H.
  apply (sub_anti 1 _ _ _ _ _ one_finite) in H. exact H.
Qed.

Lemma linear_ge_0 (d : float) :
  (d <=? T)%float = true -> (0 <=? 1 - d / T)%float = true.
Proof.
  intros H. apply (div_mono d T T mT eT HT) in H. rewrite HTT in H.
  apply (sub_anti 1 _ _ _ _ _ one_finite) in H. exact H.
Qed.

Lemma clamped_zero (d : float) :
  (T <=? d)%float = true -> clamped T d = 0%float.
Proof.
  intros H. apply linear_le_0 in H. apply leb_frank in H as (Hn & _ & H).
  unfold clamped. rewrite Math_max_0 by exact Hn.
  destruct (0 <? 1 - d / T)%float eqn:E; [|reflexivity].
  apply ltb_frank in E as (_ & _ & E). lia.
Qed.

Lemma clamped_linear (d : float) :
  (d <=? T)%float = true -> clamped T d = (1 - d / T)%float.
Proof.
  intros H. apply linear_ge_0 in H. apply leb_frank in H as (_ & Hn & H).
  unfold clamped. rewrite Math_max_0 by exact Hn.
  destruct (0 <? 1 - d / T)%float eqn:E; [reflexivity|].
  assert (Z : frank (1 - d / T) = 0).
  { destruct (Z.eq_dec (frank (1 - d / T)) 0) as [|NZ]; [assumption|].
    assert (L : (0 <? 1 - d / T)%float = true)
      by (apply ltb_frank; split; [reflexivity|]; split; [exact Hn|];
          change (frank 0) with 0 in *; lia).
    congruence. }
  destruct (frank_0 _ Hn Z) as [->|N]; [reflexivity|].
  exfalso. exact (sub_not_neg_zero 1 (d / T) _ _ _ one_finite N).
Qed.

Lemma clamped_anti (d1 d2 : float) :
  (d1 <=? d2)%float = true -> (clamped T d2 <=? clamped T d1)%float = true.
Proof.
  intros H. apply (div_mono d1 d2 T mT eT HT) in H.
  apply (sub_anti 1 _ _ _ _ _ one_finite) in H.
  apply leb_frank in H as (H2 & H1 & H).
  unfold clamped. rewrite !Math_max_0 by assumption.
  apply leb_frank.
  destruct (0 <? 1 - d2 / T)%float eqn:E2, (0 <? 1 - d1 / T)%float eqn:E1;
    repeat split; try assumption; try reflexivity; try lia.
  - apply ltb_frank in E2 as (_ & _ & E2).
    destruct (Z_lt_le_dec (frank 0) (frank (1 - d1 / T))) as [L|L]; [|lia].
    assert ((0 <? 1 - d1 / T)%float = true)
      by (apply ltb_frank; split; [reflexivity|]; split; [assumption|exact L]).
    congruence.
  - apply ltb_frank in E1 as (_ & _ & E1). lia.
Qed.

End Confidence.

Lemma threshold_1500 :
  Prim2SF Index.THRESHOLD_DISTANCE = S754_finite false 6597069766656000 (-42).
Proof. reflexivity. Qed.

Lemma threshold_550 :
  Prim2SF nearest_THRESHOLD_DISTANCE
  = S754_finite false 4837851162214400 (-43).
Proof. reflexivity. Qed.

(** C1: the confidence that every revision computes from the distance [d] is
    [Math.max(0, 1 - d / THRESHOLD_DISTANCE)], and every Judgment is built
    from it; it is exactly 0 for every [d >= THRESHOLD_DISTANCE]; for
    [d <= THRESHOLD_DISTANCE] the clamp is idle and it is the linear
    expression [1 - d / THRESHOLD_DISTANCE]; at distance 0 it is 1. *)
Theorem confidence_is_clamped_linear (d : float) :
  Index.confidence d
  = JS.Math_max [0; 1 - d / Index.THRESHOLD_DISTANCE]%float /\
  confidenceDecimal d
  = JS.Math_max [0; 1 - d / nearest_THRESHOLD_DISTANCE]%float /\
  (forall kp j,
      Index.decide kp = Status200 j ->
      exists nose hand,
        kp !! "nose" = Some nose /\ Index.nearestHand kp = Some hand /\
        confidence j
        = Some (JS.parseFloat_toFixed
                  (Index.confidence (Index.dist hand nose)) 3) /\
        accepted j
        = JS.ge (Index.confidence (Index.dist hand nose))
                Index.ACCEPTANCE_THRESHOLD) /\
  (forall dist kp j,
      nearest_decide dist kp = Status200 j ->
      exists nose,
        kp !! "nose" = Some nose /\
        accepted j
        = JS.ge (confidenceDecimal (minDist dist kp nose))
                nearest_ACCEPTANCE_THRESHOLD) /\
  ((Index.THRESHOLD_DISTANCE <=? d)%float = true ->
   Index.confidence d = 0%float) /\
  ((nearest_THRESHOLD_DISTANCE <=? d)%float = true ->
   confidenceDecimal d = 0%float) /\
  ((d <=? Index.THRESHOLD_DISTANCE)%float = true ->
   Index.confidence d = (1 - d / Index.THRESHOLD_DISTANCE)%float) /\
  ((d <=? nearest_THRESHOLD_DISTANCE)%float = true ->
   confidenceDecimal d = (1 - d / nearest_THRESHOLD_DISTANCE)%float) /\
  Index.confidence 0 = 1%float /\
  confidenceDecimal 0 = 1%float.
Proof.
  split; [reflexivity|]. split; [reflexivity|].
  split.
  { intros kp j H.
    destruct (index_decide_200 kp j H) as (nose & hand & Hn & Hh & ->).
    exists nose, hand. repeat split; assumption. }
  split.
  { intros dist kp j H.
    destruct (nearest_decide_200 kp dist j H) as (nose & Hn & ->).
    exists nose. split; [assumption|reflexivity]. }
  split; [exact (clamped_zero _ _ _ threshold_1500 eq_refl d)|].
  split; [exact (clamped_zero _ _ _ threshold_550 eq_refl d)|].
  split; [exact (clamped_linear _ _ _ threshold_1500 eq_refl d)|].
  split; [exact (clamped_linear _ _ _ threshold_550 eq_refl d)|].
  split; reflexivity.
Qed.

Lemma confidence_is_clamped_linear_witness :
  Index.confidence 2000 = 0%float /\ confidenceDecimal 550 = 0%float /\
  Index.confidence 750 = (1 - 750 / 1500)%float.
Proof.
  split; [|split].
  - apply (confidence_is_clamped_linear 2000). reflexivity.
  - apply (confidence_is_clamped_linear 550). reflexivity.
  - apply (confidence_is_clamped_linear 750). reflexivity.
Defined.

(** C8: with the threshold fixed, the confidence does not increase with the
    distance: for [d1 <= d2] the confidence at [d2] is at most the confidence
    at [d1], in index.js and in the nearest-of-both revisions. *)
Theorem confidence_is_monotone (d1 d2 : float) :
  (d1 <=? d2)%float = true ->
  (Index.confidence d2 <=? Index.confidence d1)%float = true /\
  (confidenceDecimal d2 <=? confidenceDecimal d1)%float = true.
Proof.
  intros H. split.
  - exact (clamped_anti _ _ _ threshold_1500 d1 d2 H).
  - exact (clamped_anti _ _ _ threshold_550 d1 d2 H).
Qed.

Lemma confidence_is_monotone_witness :
  (Index.confidence 700 <=? Index.confidence 5)%float = true /\
  (confidenceDecimal 700 <=? confidenceDecimal 5)%float = true.
Proof.
  apply (confidence_is_monotone 5 700). reflexivity.
Defined.

(** * Further properties of the code *)

(** ** Signs of sums, squares and square roots *)

Module SignFacts.
Import Binary64 Sign Rounding.

Lemma shr_1_nonneg (mrs : shr_record) :
  0 <= shr_m mrs -> 0 <= shr_m (shr_1 mrs).
Proof.
  destruct mrs as [m r s]. intros H. simpl in H.
  rewrite shr_1_fields by exact H. simpl. apply Z.div_pos; lia.
Qed.

Lemma iter_shr_1_nonneg (p : positive) :
  forall mrs, 0 <= shr_m mrs -> 0 <= shr_m (SpecFloat.iter_pos shr_1 p mrs).
Proof.
  induction p as [p IH|p IH|]; intros mrs H; simpl SpecFloat.iter_pos.
  - apply IH, IH, shr_1_nonneg, H.
  - apply IH, IH, H.
  - apply shr_1_nonneg, H.
Qed.

Lemma shr_nonneg (mrs : shr_record) (e n : Z) :
  0 <= shr_m mrs -> 0 <= shr_m (fst (shr mrs e n)).
Proof.
  intros H. destruct n; simpl; try exact H. apply iter_shr_1_nonneg, H.
Qed.

Lemma shr_fexp_nonneg (m e : Z) (l : location) :
  0 <= m -> 0 <= shr_m (fst (shr_fexp prec emax m e l)).
Proof.
  intros H. unfold shr_fexp. apply shr_nonneg.
  destruct l as [|[]]; exact H.
Qed.

Lemma round_nearest_even_nonneg (m : Z) (l : location) :
  0 <= m -> 0 <= round_nearest_even m l.
Proof.
  intros H. unfold round_nearest_even.
  destruct l as [|[]]; try lia. destruct (Z.even m); lia.
Qed.

(** Rounding a non-negative mantissa gives a zero, a finite number or an
    infinity of the sign that was asked for, never [NaN]. *)
Lemma binary_round_aux_cases (s : bool) (m e : Z) (l : location) :
  0 <= m ->
  binary_round_aux prec emax s m e l = S754_zero s \/
  binary_round_aux prec emax s m e l = S754_infinity s \/
  exists m' e', binary_round_aux prec emax s m e l = S754_finite s m' e'.
Proof.
  intros H. unfold binary_round_aux.
  pose proof (shr_fexp_nonneg m e l H) as H1.
  destruct (shr_fexp prec emax m e l) as [mrs' e']. simpl in H1.
  pose proof (shr_fexp_nonneg _ e' loc_Exact
                (round_nearest_even_nonneg _ (loc_of_shr_record mrs') H1)) as H2.
  destruct (shr_fexp prec emax _ e' loc_Exact) as [mrs'' e'']. simpl in H2.
  destruct (shr_m mrs'') as [|p|p]; [left; reflexivity| |lia].
  destruct (e'' <=? emax - prec); [right; right; eauto | right; left; reflexivity].
Qed.

Lemma binary_round_aux_nonneg (m e : Z) (l : location) :
  0 <= m -> SFnonneg (binary_round_aux prec emax false m e l) = true.
Proof.
  intros H.
  destruct (binary_round_aux_cases false m e l H) as [->|[->|(m' & e' & ->)]];
    reflexivity.
Qed.

Lemma binary_round_aux_abs (s : bool) (m e : Z) (l : location) :
  SFabs (binary_round_aux prec emax s m e l)
  = binary_round_aux prec emax false m e l.
Proof.
  unfold binary_round_aux.
  destruct (shr_fexp prec emax m e l) as [mrs' e'].
  destruct (shr_fexp prec emax _ e' loc_Exact) as [mrs'' e''].
  destruct (shr_m mrs''); try reflexivity.
  destruct (e'' <=? emax - prec); reflexivity.
Qed.

Lemma binary_round_cases (s : bool) (m : positive) (e : Z) :
  binary_round prec emax s m e = S754_zero s \/
  binary_round prec emax s m e = S754_infinity s \/
  exists m' e', binary_round prec emax s m e = S754_finite s m' e'.
Proof.
  unfold binary_round. destruct (shl_align m e _) as [mz ez].
  apply binary_round_aux_cases. lia.
Qed.

Lemma binary_round_abs (s : bool) (m : positive) (e : Z) :
  SFabs (binary_round prec emax s m e) = binary_round prec emax false m e.
Proof.
  unfold binary_round. destruct (shl_align m e _) as [mz ez].
  apply binary_round_aux_abs.
Qed.

Lemma binary_normalize_opp (M e : Z) :
  SFabs (binary_normalize prec emax (- M) e false)
  = SFabs (binary_normalize prec emax M e false).
Proof.
  destruct M as [|p|p]; simpl; try reflexivity;
    rewrite !binary_round_abs; reflexivity.
Qed.

(** Swapping the operands of a subtraction changes the sign at most. *)
Lemma SFsub_swap (a b : spec_float) :
  SFabs (SFsub prec emax a b) = SFabs (SFsub prec emax b a).
Proof.
  destruct a as [sa|sa| |sa ma ea], b as [sb|sb| |sb mb eb];
    try reflexivity; try (destruct sa, sb; reflexivity);
    try (destruct sa; reflexivity); try (destruct sb; reflexivity).
  unfold SFsub. rewrite (Z.min_comm eb ea).
  rewrite <- binary_normalize_opp. do 2 f_equal. lia.
Qed.

(** A square depends on the magnitude only. *)
Lemma SFmul_self_abs (a : spec_float) :
  SFmul prec emax a a = SFmul prec emax (SFabs a) (SFabs a).
Proof. destruct a as [[]|[]| |[] m e]; reflexivity. Qed.

Lemma SFmul_self_nonneg (a : spec_float) :
  a <> S754_nan -> SFnonneg (SFmul prec emax a a) = true.
Proof.
  destruct a as [[]|[]| |s m e]; try congruence; try reflexivity.
  intros _. unfold SFmul. replace (xorb s s) with false by (destruct s; reflexivity).
  apply binary_round_aux_nonneg. lia.
Qed.

Lemma SFadd_nonneg (a b : spec_float) :
  SFnonneg a = true -> SFnonneg b = true ->
  SFnonneg (SFadd prec emax a b) = true.
Proof.
  destruct a as [sa|sa| |sa ma ea], b as [sb|sb| |sb mb eb];
    try discriminate; try (destruct sa, sb; (discriminate || reflexivity));
    try (destruct sa; (discriminate || reflexivity));
    try (destruct sb; (discriminate || reflexivity)).
  destruct sa, sb; try discriminate. intros _ _.
  unfold SFadd. cbn [cond_Zopp].
  set (p := fst (shl_align ma ea (Z.min ea eb))).
  set (q := fst (shl_align mb eb (Z.min ea eb))).
  change (Z.pos p + Z.pos q) with (Z.pos (p + q)). cbn [binary_normalize].
  destruct (binary_round_cases false (p + q) (Z.min ea eb))
    as [E|[E|(m' & e' & E)]]; rewrite E; reflexivity.
Qed.

Lemma SFsqrt_nonneg (a : spec_float) :
  SFnonneg a = true -> SFnonneg (SFsqrt prec emax a) = true.
Proof.
  destruct a as [s|[]| |[] m e]; try discriminate; try reflexivity.
  intros _. unfold SFsqrt, SFsqrt_core_binary.
  set (m' := match _ with Z.pos _ => _ | 0 => _ | Z.neg _ => _ end).
  destruct (Z.sqrtrem m') as [q r] eqn:E.
  apply binary_round_aux_nonneg.
  assert (Hq : q = Z.sqrt m') by (rewrite <- Z.sqrtrem_sqrt, E; reflexivity).
  rewrite Hq. apply Z.sqrt_nonneg.
Qed.

(** A square root is [NaN] or not below zero. *)
Lemma SFsqrt_sign (a : spec_float) :
  SFsqrt prec emax a = S754_nan \/ SFnonneg (SFsqrt prec emax a) = true.
Proof.
  destruct a as [s|[]| |[] m e]; auto.
  right. apply SFsqrt_nonneg. reflexivity.
Qed.

Lemma SFsub_finite (a b : spec_float) :
  SFfinite a = true -> SFfinite b = true -> SFsub prec emax a b <> S754_nan.
Proof.
  destruct a as [sa|sa| |sa ma ea], b as [sb|sb| |sb mb eb];
    try discriminate; intros _ _; try (destruct sa, sb; discriminate);
    try discriminate.
  unfold SFsub, binary_normalize.
  destruct (_ - _) as [|p|p]; [discriminate| |].
  - destruct (binary_round_cases false p (Z.min ea eb))
      as [E|[E|(m' & e' & E)]]; rewrite E; discriminate.
  - destruct (binary_round_cases true p (Z.min ea eb))
      as [E|[E|(m' & e' & E)]]; rewrite E; discriminate.
Qed.

End SignFacts.

(** ** The distance function *)

Module Distance.
Import Binary64 Sign SignFacts.

Lemma is_finite_spec (v : float) :
  is_finite v = true <-> SFfinite (Prim2SF v) = true.
Proof.
  unfold is_finite, is_infinity, is_nan.
  rewrite !FloatAxioms.eqb_spec, abs_spec. unfold SFeqb.
  change (Prim2SF infinity) with (S754_infinity false).
  destruct (Prim2SF v) as [[]|[]| |[] m e]; simpl;
    rewrite ?Z.compare_refl, ?Pos.compare_cont_refl; simpl;
    split; congruence.
Qed.

Lemma nonneg_leb_0 (v : float) :
  SFnonneg (Prim2SF v) = true -> (0 <=? v)%float = true.
Proof.
  rewrite FloatAxioms.leb_spec. unfold SFleb.
  change (Prim2SF 0) with (S754_zero false).
  destruct (Prim2SF v) as [s|[]| |[] m e]; simpl; congruence.
Qed.

Lemma nonneg_number (v : float) :
  SFnonneg (Prim2SF v) = true -> is_nan v = false.
Proof.
  intros H. apply not_true_is_false. rewrite Compare.is_nan_spec.
  intros E. rewrite E in H. discriminate.
Qed.

(** [(u - v) * (u - v)] and [(v - u) * (v - u)] are the same number. *)
Lemma square_of_difference (u v : float) :
  ((u - v) * (u - v))%float = ((v - u) * (v - u))%float.
Proof.
  apply Prim2SF_inj. rewrite !mul_spec, !sub_spec. unfold SF64mul, SF64sub.
  rewrite SFmul_self_abs, (SFsub_swap (Prim2SF u) (Prim2SF v)).
  rewrite <- SFmul_self_abs. reflexivity.
Qed.

(** The square of a difference of finite numbers is a number not below
    zero. *)
Lemma square_nonneg (u v : float) :
  is_finite u = true -> is_finite v = true ->
  SFnonneg (Prim2SF ((u - v) * (u - v))) = true.
Proof.
  intros Hu Hv. apply is_finite_spec in Hu, Hv.
  rewrite mul_spec, sub_spec. apply SFmul_self_nonneg.
  apply SFsub_finite; assumption.
Qed.

(** X1: [dist] does not depend on the order of its two points. *)
Theorem dist_symmetric (a b : Position) : Index.dist a b = Index.dist b a.
Proof.
  unfold Index.dist. cbv zeta.
  rewrite (square_of_difference (x a) (x b)).
  rewrite (square_of_difference (y a) (y b)). reflexivity.
Qed.

(** A square root is [NaN] or a number that is not below zero. *)
Lemma sqrt_not_negative (z : float) :
  is_nan (sqrt z) = true \/ (0 <=? sqrt z)%float = true.
Proof.
  destruct (SFsqrt_sign (Prim2SF z)) as [E|E];
    fold SF64sqrt in E; rewrite <- sqrt_spec in E.
  - left. apply Compare.is_nan_spec. exact E.
  - right. apply nonneg_leb_0. exact E.
Qed.

(** X2: a distance is [NaN] or a number that is not below zero, whatever the
    coordinates are: in index.js and part_001, and in part_000 whatever its
    [**] returns. *)
Theorem dist_never_negative
    (exponentiate : float -> float -> float) (a b : Position) :
  (is_nan (Index.dist a b) = true \/ (0 <=? Index.dist a b)%float = true) /\
  (is_nan (Part000.euclideanDistance exponentiate a b) = true
   \/ (0 <=? Part000.euclideanDistance exponentiate a b)%float = true).
Proof. split; apply sqrt_not_negative. Qed.

(** X3: between two points with finite coordinates the distance is a number
    (possibly [Infinity], by overflow) and is not below zero. *)
Theorem dist_of_finite_positions (a b : Position) :
  finite_position a -> finite_position b ->
  is_nan (Index.dist a b) = false /\ (0 <=? Index.dist a b)%float = true.
Proof.
  intros [Hax Hay] [Hbx Hby].
  assert (N : SFnonneg (Prim2SF (Index.dist a b)) = true).
  { unfold Index.dist, JS.Math_sqrt. cbv zeta.
    rewrite sqrt_spec, add_spec.
    apply SFsqrt_nonneg, SFadd_nonneg; apply square_nonneg; assumption. }
  split; [apply nonneg_number | apply nonneg_leb_0]; exact N.
Qed.

Lemma dist_of_finite_positions_witness :
  is_nan (Index.dist {| x := 3; y := 4 |} {| x := 0; y := 0 |}) = false /\
  (0 <=? Index.dist {| x := 3; y := 4 |} {| x := 0; y := 0 |})%float = true.
Proof.
  apply dist_of_finite_positions; split; reflexivity.
Defined.

Lemma sub_self (u : float) : is_finite u = true -> (u - u)%float = 0%float.
Proof.
  intros H. apply is_finite_spec in H. apply Prim2SF_inj.
  rewrite sub_spec. pose proof (Prim2SF_valid u) as V.
  change (Prim2SF 0) with (S754_zero false).
  destruct (Prim2SF u) as [[]| | |s m e]; try discriminate; try reflexivity.
  apply (Subtraction.SFsub_finite_rank s s m m e e V V). reflexivity.
Qed.

(** X4: a point with finite coordinates is at distance [+0] from itself. *)
Theorem dist_self (a : Position) :
  finite_position a -> Index.dist a a = 0%float.
Proof.
  intros [Hx Hy]. unfold Index.dist. cbv zeta.
  rewrite (sub_self _ Hx), (sub_self _ Hy). reflexivity.
Qed.

Lemma dist_self_witness : Index.dist {| x := 3; y := 4 |} {| x := 3; y := 4 |} = 0%float.
Proof. apply dist_self. split; reflexivity. Defined.

End Distance.

(** ** The acceptance test as a cutoff on the distance *)

Module Acceptance.
Import Binary64 Monotone.

Lemma leb_trans (a b c : float) :
  (a <=? b)%float = true -> (b <=? c)%float = true -> (a <=? c)%float = true.
Proof.
  rewrite !leb_frank. intros (Ha & Hb & H1) (_ & Hc & H2).
  repeat split; try assumption. lia.
Qed.

Lemma leb_refl (a : float) : is_nan a = false -> (a <=? a)%float = true.
Proof. intros H. apply leb_frank. repeat split; try assumption. lia. Qed.

Lemma ltb_leb (a b : float) : (a <? b)%float = true -> (a <=? b)%float = true.
Proof.
  rewrite ltb_frank, leb_frank. intros (Ha & Hb & H).
  repeat split; try assumption. lia.
Qed.

Lemma ltb_not_leb (a b : float) :
  (a <? b)%float = true -> (b <=? a)%float = false.
Proof.
  rewrite ltb_frank. intros (Ha & Hb & H). apply not_true_is_false.
  rewrite leb_frank. intros (_ & _ & H'). lia.
Qed.

Lemma ltb_nan (a b : float) : is_nan a = true -> (a <? b)%float = false.
Proof.
  intros H. apply not_true_is_false. rewrite ltb_frank.
  intros (H' & _). congruence.
Qed.

(** Below a finite positive number with mantissa [m + 1] means at most the
    number with mantissa [m] and the same exponent. *)
Lemma ltb_pred (d c c' : float) (m : positive) (e : Z) :
  Prim2SF c = S754_finite false (Pos.succ m) e ->
  Prim2SF c' = S754_finite false m e ->
  (d <? c)%float = true -> (d <=? c')%float = true.
Proof.
  intros Hc Hc'. rewrite FloatAxioms.ltb_spec, FloatAxioms.leb_spec.
  unfold SFltb, SFleb. rewrite Hc, Hc'.
  destruct (Prim2SF d) as [s|[]| |[] md ed]; simpl; try congruence.
  destruct (ed ?= e); try congruence.
  rewrite !Pos.compare_cont_spec. simpl.
  destruct (Pos.compare_spec md (Pos.succ m)) as [E|L|G]; try discriminate.
  intros _. destruct (Pos.compare_spec md m); try reflexivity. lia.
Qed.

(** A [NaN] distance gives a [NaN] confidence. *)
Lemma clamped_nan (T d : float) : is_nan d = true -> clamped T d = nan.
Proof.
  intros H. apply Compare.is_nan_spec in H.
  assert (E : (1 - d / T)%float = nan).
  { apply Prim2SF_inj. rewrite sub_spec, div_spec, H. reflexivity. }
  unfold clamped. rewrite E. reflexivity.
Qed.

Section Cutoff.

Variables T A c c' : float.
Variables mT m : positive.
Variables eT e : Z.
Hypothesis HT : Prim2SF T = S754_finite false mT eT.
Hypothesis Hc : Prim2SF c = S754_finite false (Pos.succ m) e.
Hypothesis Hc' : Prim2SF c' = S754_finite false m e.
Hypothesis Hacc : (A <=? clamped T c')%float = true.
Hypothesis Hrej : (clamped T c <? A)%float = true.

(** The test [confidence >= A] is the test [d < c] on the distance. *)
Lemma accepted_below_cutoff (d : float) :
  JS.ge (clamped T d) A = (d <? c)%float.
Proof.
  unfold JS.ge. destruct (is_nan d) eqn:Hd.
  - rewrite (clamped_nan T d Hd), (ltb_nan d c Hd).
    apply not_true_is_false. rewrite leb_frank. intros (_ & N & _).
    discriminate N.
  - destruct (d <? c)%float eqn:L.
    + apply (ltb_pred d c c' m e Hc Hc') in L.
      apply (clamped_anti T mT eT HT) in L.
      exact (leb_trans _ _ _ Hacc L).
    + assert (Nc : is_nan c = false)
        by (apply not_nan_spec; rewrite Hc; discriminate).
      pose proof (Compare.leb_negb_ltb d c Hd Nc) as G. rewrite L in G.
      apply (clamped_anti T mT eT HT) in G.
      apply not_true_is_false. intros H.
      pose proof (leb_trans _ _ _ H G) as H'.
      rewrite (ltb_not_leb _ _ Hrej) in H'. discriminate.
Qed.

End Cutoff.

Lemma clamped_number (T d : float) (mT : positive) (eT : Z) :
  Prim2SF T = S754_finite false mT eT ->
  is_nan d = false -> is_nan (1 - d / T) = false.
Proof.
  intros HT Hd. pose proof (leb_refl d Hd) as H.
  apply (div_mono d d T mT eT HT) in H.
  apply (sub_anti 1 _ _ _ _ _ one_finite) in H.
  apply leb_frank in H. tauto.
Qed.

Lemma clamped_range (T d : float) (mT : positive) (eT : Z) :
  Prim2SF T = S754_finite false mT eT ->
  is_nan d = false ->
  (0 <=? clamped T d)%float = true /\
  ((0 <=? d)%float = true -> (clamped T d <=? clamped T 0)%float = true).
Proof.
  intros HT Hd. split.
  - pose proof (clamped_number T d mT eT HT Hd) as Hn.
    unfold clamped. rewrite Math_max_0 by exact Hn.
    destruct (0 <? 1 - d / T)%float eqn:E; [apply ltb_leb; exact E|reflexivity].
  - apply (clamped_anti T mT eT HT).
Qed.

End Acceptance.

(** ** The loop that fills [kp] *)

Module Collect.

Lemma nearest_kp_snoc (l : list Keypoint) (p : Keypoint) :
  nearest_kp (l ++ [p]) = nearest_kp_step (nearest_kp l) p.
Proof. unfold nearest_kp. rewrite fold_left_app. reflexivity. Qed.

(** Both loops only ever write tracked parts, with the position of a keypoint
    of that name. *)
Lemma nearest_kp_lookup_Some (l : list Keypoint) (name : string) (pos : Position) :
  nearest_kp l !! name = Some pos ->
  name ∈ tracked_parts /\
  exists point, point ∈ l /\ part point = name /\ position point = pos.
Proof.
  induction l as [|p l IH] using rev_ind.
  - unfold nearest_kp; simpl. rewrite lookup_empty. discriminate.
  - rewrite nearest_kp_snoc. unfold nearest_kp_step.
    assert (Hold : nearest_kp l !! name = Some pos ->
                   name ∈ tracked_parts /\
                   exists point, point ∈ l ++ [p] /\ part point = name
                                 /\ position point = pos).
    { intros H. destruct (IH H) as (Ht & q & Hq & ?). split; [exact Ht|].
      exists q. split; [|assumption]. apply elem_of_app. left; exact Hq. }
    unfold includes. case_bool_decide as Hp; [|exact Hold].
    destruct (decide (part p = name)) as [<-|Hne].
    + rewrite lookup_insert_eq. intros [= <-]. split; [exact Hp|].
      exists p. repeat split. apply elem_of_app. right.
      apply list_elem_of_singleton. reflexivity.
    + rewrite lookup_insert_ne by exact Hne. exact Hold.
Qed.

Lemma nearest_kp_lookup_present (l : list Keypoint) (point : Keypoint) :
  point ∈ l -> part point ∈ tracked_parts ->
  is_Some (nearest_kp l !! part point).
Proof.
  intros Hin Ht. induction l as [|p l IH] using rev_ind.
  - inversion Hin.
  - rewrite nearest_kp_snoc. unfold nearest_kp_step.
    apply elem_of_app in Hin as [Hin|Hin].
    + specialize (IH Hin).
      destruct (includes tracked_parts (part p)); [|exact IH].
      destruct (decide (part p = part point)) as [->|Hne].
      * rewrite lookup_insert_eq. eexists; reflexivity.
      * rewrite lookup_insert_ne by exact Hne. exact IH.
    + apply list_elem_of_singleton in Hin. subst p.
      unfold includes. rewrite bool_decide_eq_true_2 by exact Ht.
      rewrite lookup_insert_eq. eexists; reflexivity.
Qed.

(** Keypoints after the last one of a part leave that part alone. *)
Lemma nearest_kp_app_other (l l2 : list Keypoint) (name : string) :
  (forall q, q ∈ l2 -> part q <> name) ->
  nearest_kp (l ++ l2) !! name = nearest_kp l !! name.
Proof.
  induction l2 as [|p l2 IH] using rev_ind; intros H.
  - rewrite app_nil_r. reflexivity.
  - rewrite app_assoc, nearest_kp_snoc. unfold nearest_kp_step.
    assert (Hp : part p <> name)
      by (apply H, elem_of_app; right; apply list_elem_of_singleton; reflexivity).
    assert (IH' : nearest_kp (l ++ l2) !! name = nearest_kp l !! name)
      by (apply IH; intros q Hq; apply H, elem_of_app; left; exact Hq).
    destruct (includes tracked_parts (part p)); [|exact IH'].
    rewrite lookup_insert_ne by exact Hp. exact IH'.
Qed.

Lemma kp_app_other (l l2 : list Keypoint) (name : string) :
  (forall q, q ∈ l2 -> part q <> name) ->
  Index.kp (l ++ l2) !! name = Index.kp l !! name.
Proof.
  induction l2 as [|p l2 IH] using rev_ind; intros H.
  - rewrite app_nil_r. reflexivity.
  - rewrite app_assoc, kp_snoc. unfold Index.kp_step.
    assert (Hp : part p <> name)
      by (apply H, elem_of_app; right; apply list_elem_of_singleton; reflexivity).
    assert (IH' : Index.kp (l ++ l2) !! name = Index.kp l !! name)
      by (apply IH; intros q Hq; apply H, elem_of_app; left; exact Hq).
    destruct (JS.lt (score p) 0.5); [exact IH'|].
    destruct (includes tracked_parts (part p)); [|exact IH'].
    rewrite lookup_insert_ne by exact Hp. exact IH'.
Qed.

(** X5: the loop of index.js is the loop of the earlier revisions run on the
    keypoints that pass the test [score < 0.5] negatively: filtering is a
    pass of its own in front of the collection. *)
Theorem kp_is_filter_then_collect (keypoints : list Keypoint) :
  Index.kp keypoints
  = nearest_kp
      (List.filter (fun p => negb (JS.lt (score p) 0.5)) keypoints).
Proof.
  unfold Index.kp, nearest_kp. generalize (∅ : KeypointSet).
  induction keypoints as [|p l IH]; intros acc; [reflexivity|].
  simpl. unfold Index.kp_step at 2.
  destruct (JS.lt (score p) 0.5); simpl; rewrite IH; reflexivity.
Qed.

(** X6: in part_000 and part_001 [kp] has a part exactly when the part is
    tracked and some keypoint reports it, whatever its score; the value is
    the position of the last keypoint of that part. *)
Theorem nearest_kp_last_wins (keypoints : list Keypoint) :
  (forall name,
      is_Some (nearest_kp keypoints !! name) <->
      name ∈ tracked_parts /\ exists point, point ∈ keypoints /\ part point = name) /\
  (forall before after p,
      keypoints = before ++ p :: after ->
      part p ∈ tracked_parts ->
      (forall q, q ∈ after -> part q <> part p) ->
      nearest_kp keypoints !! part p = Some (position p)).
Proof.
  split.
  - intros name. split.
    + intros [pos H].
      destruct (nearest_kp_lookup_Some _ _ _ H) as (Ht & q & Hq & Hp & _).
      split; [exact Ht|]. exists q. auto.
    + intros (Ht & q & Hq & <-). apply nearest_kp_lookup_present; assumption.
  - intros before after p -> Ht Hafter.
    replace (before ++ p :: after) with ((before ++ [p]) ++ after)
      by (rewrite <- app_assoc; reflexivity).
    rewrite nearest_kp_app_other by exact Hafter.
    rewrite nearest_kp_snoc. unfold nearest_kp_step, includes.
    rewrite bool_decide_eq_true_2 by exact Ht. apply lookup_insert_eq.
Qed.

Lemma nearest_kp_last_wins_witness :
  nearest_kp keypoints_at_the_boundary !! "leftWrist"
  = Some {| x := 3; y := 4 |}.
Proof.
  destruct (nearest_kp_last_wins keypoints_at_the_boundary) as [_ H].
  apply (H [ {| score := 0.5; part := "nose"; position := {| x := 10; y := 20 |} |} ]%float
           [ {| score := 0.9; part := "rightWrist"; position := {| x := 6; y := 8 |} |};
             {| score := 0.99; part := "leftEye"; position := {| x := 1; y := 1 |} |} ]%float
           {| score := 0.49; part := "leftWrist"; position := {| x := 3; y := 4 |} |}%float).
  - reflexivity.
  - compute_done.
  - intros q Hq. apply elem_of_cons in Hq as [->|Hq]; [discriminate|].
    apply list_elem_of_singleton in Hq as ->. discriminate.
Defined.

(** The same for index.js, among the keypoints that pass the filter. *)
Lemma kp_last_wins (before after : list Keypoint) (p : Keypoint) :
  part p ∈ tracked_parts -> JS.lt (score p) 0.5 = false ->
  (forall q, q ∈ after -> part q <> part p) ->
  Index.kp (before ++ p :: after) !! part p = Some (position p).
Proof.
  intros Ht Hs Hafter.
  replace (before ++ p :: after) with ((before ++ [p]) ++ after)
    by (rewrite <- app_assoc; reflexivity).
  rewrite kp_app_other by exact Hafter.
  rewrite kp_snoc. unfold Index.kp_step, includes. rewrite Hs.
  rewrite bool_decide_eq_true_2 by exact Ht. apply lookup_insert_eq.
Qed.

(** Two steps of a loop commute when they concern different parts. *)
Section Permuted.

Variable step : KeypointSet -> Keypoint -> KeypointSet.
Hypothesis step_comm :
  forall acc p q, part p <> part q -> step (step acc p) q = step (step acc q) p.

Lemma fold_step_permutation (l l' : list Keypoint) :
  l ≡ₚ l' -> NoDup (part <$> l) ->
  forall acc, fold_left step l acc = fold_left step l' acc.
Proof.
  induction 1 as [|p l l' HP IH|p q l|l l' l'' HP1 IH1 HP2 IH2];
    intros Hnd acc.
  - reflexivity.
  - simpl. apply IH. rewrite fmap_cons in Hnd.
    apply NoDup_cons in Hnd. tauto.
  - simpl. rewrite step_comm; [reflexivity|].
    rewrite !fmap_cons in Hnd. apply NoDup_cons in Hnd as [Hq _].
    intros E. apply Hq. rewrite E. apply elem_of_cons. left. reflexivity.
  - rewrite IH1 by exact Hnd. apply IH2.
    rewrite <- HP1. exact Hnd.
Qed.

End Permuted.

Lemma nearest_kp_step_comm (acc : KeypointSet) (p q : Keypoint) :
  part p <> part q ->
  nearest_kp_step (nearest_kp_step acc p) q
  = nearest_kp_step (nearest_kp_step acc q) p.
Proof.
  intros H. unfold nearest_kp_step.
  destruct (includes tracked_parts (part p)),
    (includes tracked_parts (part q)); try reflexivity.
  apply insert_insert_ne. congruence.
Qed.

Lemma kp_step_comm (acc : KeypointSet) (p q : Keypoint) :
  part p <> part q ->
  Index.kp_step (Index.kp_step acc p) q = Index.kp_step (Index.kp_step acc q) p.
Proof.
  intros H. unfold Index.kp_step.
  destruct (JS.lt (score p) 0.5), (JS.lt (score q) 0.5); try reflexivity.
  destruct (includes tracked_parts (part p)),
    (includes tracked_parts (part q)); try reflexivity.
  apply insert_insert_ne. congruence.
Qed.

(** X7: when every part is reported once, [kp] does not depend on the order
    in which PoseNet lists the keypoints, in any revision. *)
Theorem kp_order_irrelevant (keypoints keypoints' : list Keypoint) :
  keypoints ≡ₚ keypoints' -> NoDup (part <$> keypoints) ->
  Index.kp keypoints = Index.kp keypoints' /\
  nearest_kp keypoints = nearest_kp keypoints'.
Proof.
  intros HP Hnd. split.
  - apply (fold_step_permutation _ kp_step_comm _ _ HP Hnd).
  - apply (fold_step_permutation _ nearest_kp_step_comm _ _ HP Hnd).
Qed.

Lemma kp_order_irrelevant_witness :
  Index.kp keypoints_at_the_boundary
  = Index.kp (reverse keypoints_at_the_boundary).
Proof.
  apply kp_order_irrelevant.
  - symmetry. apply reverse_Permutation.
  - compute_done.
Defined.

End Collect.

(** ** The replies, case by case *)

Module Replies.
Import Binary64 Monotone Sign Distance Acceptance.

(** *** Which reply the decision step sends *)

Lemma index_replies (kp : KeypointSet) :
  ((exists body, Index.decide kp = Status400 body /\ error body = NoseNotDetected)
   <-> kp !! "nose" = None) /\
  ((exists body, Index.decide kp = Status400 body /\ error body = NoWristDetected)
   <-> is_Some (kp !! "nose")
       /\ kp !! "rightWrist" = None /\ kp !! "leftWrist" = None) /\
  ((exists j, Index.decide kp = Status200 j)
   <-> is_Some (kp !! "nose")
       /\ (is_Some (kp !! "rightWrist") \/ is_Some (kp !! "leftWrist"))) /\
  (forall message, Index.decide kp <> Status500 message) /\
  (forall body, Index.decide kp = Status400 body ->
                rejected_accepted body = Some false).
Proof.
  destruct (kp !! "nose") as [nose|] eqn:Hn.
  - destruct (kp !! "rightWrist") as [r|] eqn:Hr.
    + rewrite (index_decide_right kp nose r Hn Hr).
      split; [|split; [|split; [|split]]]; try discriminate.
      * split; [intros (? & E & _); discriminate E | discriminate].
      * split; [intros (? & E & _); discriminate E
               | intros (_ & E & _); discriminate E].
      * split; [intros _; split; [|left]; eexists; reflexivity
               | intros _; eexists; reflexivity].
    + destruct (kp !! "leftWrist") as [l|] eqn:Hl.
      * rewrite (index_decide_left kp nose l Hn Hr Hl).
        split; [|split; [|split; [|split]]]; try discriminate.
        -- split; [intros (? & E & _); discriminate E | discriminate].
        -- split; [intros (? & E & _); discriminate E
                  | intros (_ & _ & E); discriminate E].
        -- split; [intros _; split; [|right]; eexists; reflexivity
                  | intros _; eexists; reflexivity].
      * rewrite (index_decide_no_wrist kp nose Hn Hr Hl).
        split; [|split; [|split; [|split]]]; try discriminate.
        -- split; [intros (? & [= <-] & E); discriminate E | discriminate].
        -- split; [intros _; split; [eexists; reflexivity | split; reflexivity]
                  | intros _; eexists; split; reflexivity].
        -- split; [intros (? & E); discriminate E
                  | intros (_ & [[? E] | [? E]]); discriminate E].
        -- intros body [= <-]. reflexivity.
  - rewrite (index_decide_no_nose kp Hn).
    split; [|split; [|split; [|split]]]; try discriminate.
    + split; [reflexivity | intros _; eexists; split; reflexivity].
    + split; [intros (? & [= <-] & E); discriminate E
             | intros ([? E] & _); discriminate E].
    + split; [intros (? & E); discriminate E
             | intros ([? E] & _); discriminate E].
    + intros body [= <-]. reflexivity.
Qed.

Lemma nearest_replies
    (dist : Position -> Position -> float) (kp : KeypointSet) :
  ((exists body, nearest_decide dist kp = Status400 body
                 /\ error body = NoseNotDetected)
   <-> kp !! "nose" = None) /\
  ((exists j, nearest_decide dist kp = Status200 j) <-> is_Some (kp !! "nose")) /\
  (forall body, nearest_decide dist kp = Status400 body ->
                error body <> NoWristDetected) /\
  (forall message, nearest_decide dist kp <> Status500 message).
Proof.
  unfold nearest_decide. destruct (kp !! "nose") as [nose|].
  - split; [|split; [|split]].
    + split; [intros (? & E & _); discriminate E | discriminate].
    + split; [intros _; eexists; reflexivity | intros _; eexists; reflexivity].
    + intros body E. discriminate E.
    + intros message E. discriminate E.
  - split; [|split; [|split]].
    + split; [reflexivity | intros _; eexists; split; reflexivity].
    + split; [intros (? & E); discriminate E | intros [? E]; discriminate E].
    + intros body [= <-]. discriminate.
    + intros message E. discriminate E.
Qed.


(** *** The handlers from [pose.keypoints] on *)

(** X10: index.js replies "Nose not detected" exactly when no keypoint named
    nose has a score of at least 0.5, so a nose seen with a lower score is
    treated as absent; the earlier revisions reply it exactly when no
    keypoint is named nose, whatever the scores. Scores are numbers. *)
Theorem pose_nose_not_detected
    (dist : Position -> Position -> float) (keypoints : list Keypoint) :
  Forall (fun p => is_nan (score p) = false) keypoints ->
  ((exists body, Index.pose keypoints = Status400 body
                 /\ error body = NoseNotDetected)
   <-> ~ exists point, point ∈ keypoints /\ part point = "nose"
                       /\ JS.ge (score point) 0.5 = true) /\
  ((exists body, nearest_pose dist keypoints = Status400 body
                 /\ error body = NoseNotDetected)
   <-> ~ exists point, point ∈ keypoints /\ part point = "nose").
Proof.
  intros Hnum. rewrite Forall_forall in Hnum.
  unfold Index.pose, nearest_pose.
  rewrite (proj1 (index_replies _)).
  rewrite (proj1 (nearest_replies dist _)).
  split.
  - split.
    + intros Hnone (point & Hin & Hp & Hs).
      destruct (kp_lookup_kept keypoints point Hin) as [pos Hpos].
      * rewrite Hp. compute_done.
      * rewrite filter_test by (apply Hnum; exact Hin). rewrite Hs. reflexivity.
      * rewrite Hp in Hpos. congruence.
    + intros Hno. destruct (Index.kp keypoints !! "nose") as [pos|] eqn:E;
        [exfalso|reflexivity].
      destruct (kp_lookup_Some keypoints "nose" pos E) as (_ & q & Hq & Hp & _ & Hs).
      apply Hno. exists q. repeat split; try assumption.
      rewrite filter_test in Hs by (apply Hnum; exact Hq).
      apply negb_false_iff in Hs. exact Hs.
  - split.
    + intros Hnone (point & Hin & Hp).
      destruct (Collect.nearest_kp_lookup_present keypoints point Hin) as [pos Hpos].
      * rewrite Hp. compute_done.
      * rewrite Hp in Hpos. congruence.
    + intros Hno. destruct (nearest_kp keypoints !! "nose") as [pos|] eqn:E;
        [exfalso|reflexivity].
      destruct (Collect.nearest_kp_lookup_Some keypoints "nose" pos E)
        as (_ & q & Hq & Hp & _).
      apply Hno. exists q. split; assumption.
Qed.

Lemma pose_nose_not_detected_witness :
  (exists body, Index.pose dim_nose = Status400 body
                /\ error body = NoseNotDetected) /\
  ~ (exists body, Part001.pose dim_nose = Status400 body
                  /\ error body = NoseNotDetected).
Proof.
  assert (Hnum : Forall (fun p => is_nan (score p) = false) dim_nose)
    by (repeat constructor).
  destruct (pose_nose_not_detected Part001.dist dim_nose Hnum) as [H1 H2].
  split.
  - apply H1. intros (point & Hin & Hp & Hs).
    apply elem_of_cons in Hin as [->|Hin]; [discriminate Hs|].
    apply list_elem_of_singleton in Hin as ->. discriminate Hp.
  - intros H. apply H2 in H. apply H.
    exists {| score := 0.3; part := "nose"; position := {| x := 0; y := 0 |} |}%float.
    split; [|reflexivity]. apply elem_of_cons. left. reflexivity.
Defined.

End Replies.

(** ** The handlers to the end of the request *)

Module Handlers.
Import Cleanup.

Lemma kp_has_iff_seen (keypoints : list Keypoint) (name : string) :
  Forall (fun p => is_nan (score p) = false) keypoints ->
  name ∈ tracked_parts ->
  (is_Some (Index.kp keypoints !! name) <-> seen keypoints name).
Proof.
  intros Hnum Ht. rewrite Forall_forall in Hnum. split.
  - intros [pos H].
    destruct (kp_lookup_Some keypoints name pos H) as (_ & q & Hq & Hp & _ & Hs).
    exists q. repeat split; try assumption.
    rewrite filter_test in Hs by (apply Hnum; exact Hq).
    apply negb_false_iff in Hs. exact Hs.
  - intros (point & Hin & <- & Hs).
    apply kp_lookup_kept; try assumption.
    rewrite filter_test by (apply Hnum; exact Hin). rewrite Hs. reflexivity.
Qed.

Lemma nearest_kp_has_iff_listed (keypoints : list Keypoint) (name : string) :
  name ∈ tracked_parts ->
  (is_Some (nearest_kp keypoints !! name) <-> listed keypoints name).
Proof.
  intros Ht. split.
  - intros [pos H].
    destruct (Collect.nearest_kp_lookup_Some keypoints name pos H)
      as (_ & q & Hq & Hp & _).
    exists q. split; assumption.
  - intros (point & Hin & <-).
    apply Collect.nearest_kp_lookup_present; assumption.
Qed.

Lemma tracked_nose : "nose" ∈ tracked_parts.
Proof. compute_done. Qed.
Lemma tracked_leftWrist : "leftWrist" ∈ tracked_parts.
Proof. compute_done. Qed.
Lemma tracked_rightWrist : "rightWrist" ∈ tracked_parts.
Proof. compute_done. Qed.

(** The reply of the decision step of index.js, by what [kp] holds. *)
Lemma index_decide_shape (kp : KeypointSet) :
  (~ (is_Some (kp !! "nose")
      /\ (is_Some (kp !! "rightWrist") \/ is_Some (kp !! "leftWrist")))
   /\ exists body, Index.decide kp = Status400 body) \/
  ((is_Some (kp !! "nose")
    /\ (is_Some (kp !! "rightWrist") \/ is_Some (kp !! "leftWrist")))
   /\ exists j, Index.decide kp = Status200 j).
Proof.
  destruct (kp !! "nose") as [nose|] eqn:Hn.
  - destruct (kp !! "rightWrist") as [r|] eqn:Hr.
    + right. rewrite (index_decide_right kp nose r Hn Hr).
      split; [split; [|left]|]; eexists; reflexivity.
    + destruct (kp !! "leftWrist") as [l|] eqn:Hl.
      * right. rewrite (index_decide_left kp nose l Hn Hr Hl).
        split; [split; [|right]|]; eexists; reflexivity.
      * left. rewrite (index_decide_no_wrist kp nose Hn Hr Hl).
        split; [|eexists; reflexivity].
        intros (_ & [[? E]|[? E]]); discriminate E.
  - left. rewrite (index_decide_no_nose kp Hn).
    split; [|eexists; reflexivity]. intros ([? E] & _). discriminate E.
Qed.

Lemma nearest_decide_shape
    (dist : Position -> Position -> float) (kp : KeypointSet) :
  (~ is_Some (kp !! "nose")
   /\ exists body, nearest_decide dist kp = Status400 body) \/
  (is_Some (kp !! "nose") /\ exists j, nearest_decide dist kp = Status200 j).
Proof.
  unfold nearest_decide. destruct (kp !! "nose") as [nose|].
  - right. split; eexists; reflexivity.
  - left. split; [|eexists; reflexivity]. intros [? E]. discriminate E.
Qed.

(** X8: index.js from [pose.keypoints] to the end of the request, for
    keypoints whose scores are numbers and whatever [fs] answers. The reply
    is a 400 exactly when the nose, or both wrists, are not seen with a score
    of at least 0.5, and then [fs] is not called: the upload stays on disk.
    It is the Judgment of the decision exactly when nose and a wrist are seen
    and [fs.unlinkSync] returns. When [fs.unlinkSync] throws the Judgment is
    dropped: the reply is the 500 of the [catch] block, unless the file
    exists and the second [fs.unlinkSync] throws as well, and then the
    handler sends no reply. *)
Theorem index_handler_outcomes (fs : FsAnswers) (keypoints : list Keypoint) :
  Forall (fun p => is_nan (score p) = false) keypoints ->
  let out := index_handler fs keypoints in
  let ready := seen keypoints "nose"
               /\ (seen keypoints "rightWrist" \/ seen keypoints "leftWrist") in
  ((exists body, reply out = Some (Status400 body)) <-> ~ ready) /\
  (forall body, reply out = Some (Status400 body) ->
                Index.pose keypoints = Status400 body /\ fs_calls out = []) /\
  ((exists j, reply out = Some (Status200 j))
   <-> ready /\ unlink_returns fs = true) /\
  (forall j, reply out = Some (Status200 j) ->
             Index.pose keypoints = Status200 j /\ fs_calls out = [unlinkSync]) /\
  ((exists message, reply out = Some (Status500 message))
   <-> ready /\ unlink_returns fs = false
       /\ (file_exists fs = false \/ unlink_in_catch_returns fs = true)) /\
  (reply out = None
   <-> ready /\ unlink_returns fs = false
       /\ file_exists fs = true /\ unlink_in_catch_returns fs = false).
Proof.
  intros Hnum out ready.
  assert (R : ready <->
              is_Some (Index.kp keypoints !! "nose")
              /\ (is_Some (Index.kp keypoints !! "rightWrist")
                  \/ is_Some (Index.kp keypoints !! "leftWrist"))).
  { unfold ready.
    rewrite (kp_has_iff_seen keypoints "nose" Hnum tracked_nose).
    rewrite (kp_has_iff_seen keypoints "rightWrist" Hnum tracked_rightWrist).
    rewrite (kp_has_iff_seen keypoints "leftWrist" Hnum tracked_leftWrist).
    reflexivity. }
  subst out. unfold index_handler, Index.pose.
  destruct (index_decide_shape (Index.kp keypoints))
    as [(Hn & body & E)|(Hr & j & E)]; rewrite E;
    rewrite <- R in *; clear R; generalize dependent ready; intros ready ?;
    destruct fs as [[] [] []]; simpl;
    repeat split; intros; destruct_and?; destruct_or?;
    repeat match goal with H : exists _, _ |- _ => destruct H end;
    simplify_eq; try tauto; try (eexists; reflexivity); eauto.
Qed.

Lemma index_handler_outcomes_witness :
  (exists j, reply (index_handler fs_works keypoints_at_the_boundary)
             = Some (Status200 j)) /\
  reply (index_handler fs_refuses keypoints_at_the_boundary) = None.
Proof.
  assert (Hnum : Forall (fun p => is_nan (score p) = false)
                   keypoints_at_the_boundary) by (repeat constructor).
  assert (Hready : seen keypoints_at_the_boundary "nose"
                   /\ (seen keypoints_at_the_boundary "rightWrist"
                       \/ seen keypoints_at_the_boundary "leftWrist")).
  { split; [|left].
    - exists {| score := 0.5; part := "nose";
                position := {| x := 10; y := 20 |} |}.
      split; [set_solver|split; reflexivity].
    - exists {| score := 0.9; part := "rightWrist";
                position := {| x := 6; y := 8 |} |}.
      split; [set_solver|split; reflexivity]. }
  split.
  - apply (index_handler_outcomes fs_works keypoints_at_the_boundary Hnum).
    split; [exact Hready|reflexivity].
  - apply (index_handler_outcomes fs_refuses keypoints_at_the_boundary Hnum).
    split; [exact Hready|]. repeat split.
Defined.

(** X9: part_001 and part_000 from [pose.keypoints] to the end of the
    request, whatever [fs] answers. The reply is the 400 exactly when no
    keypoint is named nose, and then [fs] is not called: the upload stays on
    disk. It is the Judgment of the decision exactly when a nose is listed
    and [fs.unlinkSync] returns. When [fs.unlinkSync] throws the Judgment is
    dropped: part_000 always replies 500; part_001 replies 500 unless the
    file exists and the second [fs.unlinkSync] throws as well, and then the
    handler sends no reply. *)
Theorem nearest_handler_outcomes
    (exponentiate : float -> float -> float)
    (fs : FsAnswers) (keypoints : list Keypoint) :
  let out1 := part_001_handler fs keypoints in
  let out0 := part_000_handler exponentiate fs keypoints in
  let nose := listed keypoints "nose" in
  (((exists body, reply out1 = Some (Status400 body)) <-> ~ nose) /\
   ((exists body, reply out0 = Some (Status400 body)) <-> ~ nose)) /\
  (forall body,
      (reply out1 = Some (Status400 body) ->
       Part001.pose keypoints = Status400 body /\ fs_calls out1 = []) /\
      (reply out0 = Some (Status400 body) ->
       Part000.pose exponentiate keypoints = Status400 body
       /\ fs_calls out0 = [])) /\
  (((exists j, reply out1 = Some (Status200 j))
    <-> nose /\ unlink_returns fs = true) /\
   ((exists j, reply out0 = Some (Status200 j))
    <-> nose /\ unlink_returns fs = true)) /\
  (forall j,
      (reply out1 = Some (Status200 j) ->
       Part001.pose keypoints = Status200 j /\ fs_calls out1 = [unlinkSync]) /\
      (reply out0 = Some (Status200 j) ->
       Part000.pose exponentiate keypoints = Status200 j
       /\ fs_calls out0 = [unlinkSync])) /\
  ((exists message, reply out1 = Some (Status500 message))
   <-> nose /\ unlink_returns fs = false
       /\ (file_exists fs = false \/ unlink_in_catch_returns fs = true)) /\
  (reply out1 = None
   <-> nose /\ unlink_returns fs = false
       /\ file_exists fs = true /\ unlink_in_catch_returns fs = false) /\
  ((exists message, reply out0 = Some (Status500 message))
   <-> nose /\ unlink_returns fs = false) /\
  reply out0 <> None.
Proof.
  intros out1 out0 nose.
  assert (R : nose <-> is_Some (nearest_kp keypoints !! "nose"))
    by (symmetry; apply nearest_kp_has_iff_listed, tracked_nose).
  subst out1 out0.
  unfold part_001_handler, part_000_handler, Part001.pose, Part000.pose,
    nearest_pose.
  destruct (nearest_decide_shape Part001.dist (nearest_kp keypoints))
    as [(Hn & b1 & E1)|(Hr & j1 & E1)];
    destruct (nearest_decide_shape (Part000.euclideanDistance exponentiate)
                (nearest_kp keypoints))
      as [(Hn' & b0 & E0)|(Hr' & j0 & E0)];
    try contradiction; rewrite E1, E0;
    rewrite <- R in *; clear R; generalize dependent nose; intros nose ? ?;
    destruct fs as [[] [] []]; simpl;
    repeat split; intros; destruct_and?; destruct_or?;
    repeat match goal with H : exists _, _ |- _ => destruct H end;
    simplify_eq; try tauto; try (eexists; reflexivity); eauto.
Qed.

End Handlers.

(** ** Judgments *)

Module Judgments.
Import Binary64 Monotone Sign Distance Acceptance.

Lemma cutoff_1350 :
  Prim2SF 1350 = S754_finite false (Pos.succ 5937362789990399) (-42).
Proof. reflexivity. Qed.

Lemma below_1350 :
  Prim2SF (next_down 1350) = S754_finite false 5937362789990399 (-42).
Proof. reflexivity. Qed.

Lemma cutoff_495 :
  Prim2SF 495 = S754_finite false (Pos.succ 8708132091985919) (-44).
Proof. reflexivity. Qed.

Lemma below_495 :
  Prim2SF (next_down 495) = S754_finite false 8708132091985919 (-44).
Proof. reflexivity. Qed.

Lemma index_accepts_below_1350 (d : float) :
  JS.ge (Index.confidence d) Index.ACCEPTANCE_THRESHOLD = (d <? 1350)%float.
Proof.
  exact (accepted_below_cutoff
           Index.THRESHOLD_DISTANCE Index.ACCEPTANCE_THRESHOLD 1350
           (next_down 1350) _ _ _ _ threshold_1500 cutoff_1350 below_1350
           eq_refl eq_refl d).
Qed.

Lemma nearest_accepts_below_495 (d : float) :
  JS.ge (confidenceDecimal d) nearest_ACCEPTANCE_THRESHOLD = (d <? 495)%float.
Proof.
  exact (accepted_below_cutoff
           nearest_THRESHOLD_DISTANCE nearest_ACCEPTANCE_THRESHOLD 495
           (next_down 495) _ _ _ _ threshold_550 cutoff_495 below_495
           eq_refl eq_refl d).
Qed.

(** X11: the acceptance test on the confidence is a test on the distance:
    index.js accepts exactly the distances strictly below 1350 and the
    earlier revisions exactly those strictly below 495; at 1350 and at 495
    themselves, where [1 - d / THRESHOLD_DISTANCE] would be 0.1 over the
    reals, the computed confidence falls short of 0.1 and the reply is not
    accepted; a [NaN] distance is not accepted. *)
Theorem accepted_iff_distance_below_cutoff (d : float) :
  JS.ge (Index.confidence d) Index.ACCEPTANCE_THRESHOLD = (d <? 1350)%float /\
  JS.ge (confidenceDecimal d) nearest_ACCEPTANCE_THRESHOLD = (d <? 495)%float /\
  (forall kp j,
      Index.decide kp = Status200 j ->
      exists nose hand,
        kp !! "nose" = Some nose /\ Index.nearestHand kp = Some hand /\
        accepted j = (Index.dist hand nose <? 1350)%float) /\
  (forall dist kp j,
      nearest_decide dist kp = Status200 j ->
      exists nose,
        kp !! "nose" = Some nose /\
        accepted j = (minDist dist kp nose <? 495)%float).
Proof.
  split; [apply index_accepts_below_1350|].
  split; [apply nearest_accepts_below_495|]. split.
  - intros kp j H.
    destruct (index_decide_200 kp j H) as (nose & hand & Hn & Hh & ->).
    exists nose, hand. repeat split; try assumption.
    apply index_accepts_below_1350.
  - intros dist kp j H.
    destruct (nearest_decide_200 kp dist j H) as (nose & Hn & ->).
    exists nose. split; [assumption|]. apply nearest_accepts_below_495.
Qed.

(** X12: for a distance that is a number the confidence is a number not below
    0, and for a distance not below 0 it is at most 1, in every revision. *)
Theorem confidence_between_0_and_1 (d : float) :
  is_nan d = false ->
  (0 <=? Index.confidence d)%float = true /\
  (0 <=? confidenceDecimal d)%float = true /\
  ((0 <=? d)%float = true ->
   (Index.confidence d <=? 1)%float = true /\
   (confidenceDecimal d <=? 1)%float = true).
Proof.
  intros Hd.
  destruct (clamped_range _ d _ _ threshold_1500 Hd) as [A1 B1].
  destruct (clamped_range _ d _ _ threshold_550 Hd) as [A2 B2].
  split; [exact A1|]. split; [exact A2|]. intros H0.
  split; [exact (B1 H0) | exact (B2 H0)].
Qed.

Lemma confidence_between_0_and_1_witness :
  (0 <=? Index.confidence 700)%float = true /\
  (0 <=? confidenceDecimal 700)%float = true /\
  ((0 <=? 700)%float = true ->
   (Index.confidence 700 <=? 1)%float = true /\
   (confidenceDecimal 700 <=? 1)%float = true).
Proof. apply (confidence_between_0_and_1 700). reflexivity. Defined.

(** *** Distances that are not numbers *)

Lemma nan_is_nan (d : float) : is_nan d = true -> d = nan.
Proof.
  intros H. apply Prim2SF_inj. apply Compare.is_nan_spec in H. rewrite H.
  reflexivity.
Qed.

Lemma Math_min_of_nan (a b : float) :
  is_nan a = true \/ is_nan b = true -> JS.Math_min [a; b] = nan.
Proof.
  intros H. unfold JS.Math_min. simpl.
  destruct H as [-> | ->]; rewrite ?orb_true_r; reflexivity.
Qed.

Lemma eqb_nan_l (a : float) : (nan =? a)%float = false.
Proof. rewrite FloatAxioms.eqb_spec. reflexivity. Qed.

(** X13: a distance that is [NaN] (a [NaN] coordinate, or two infinite ones)
    is not an error: the reply is a 200 with distance [NaN] and accepted
    false; index.js adds confidence [NaN], and the earlier revisions name
    the right wrist, also when only the left one is there. *)
Theorem nan_distance_is_answered
    (dist : Position -> Position -> float) (kp : KeypointSet) (nose : Position) :
  kp !! "nose" = Some nose ->
  (forall hand,
      Index.nearestHand kp = Some hand ->
      is_nan (Index.dist hand nose) = true ->
      Index.decide kp
      = Status200 {| closestHand := None; distance := nan;
                     accepted := false; confidence := Some nan |}) /\
  (is_nan (distLeft dist kp nose) = true
   \/ is_nan (distRight dist kp nose) = true ->
   nearest_decide dist kp
   = Status200 {| closestHand := Some "rightWrist"; distance := nan;
                  accepted := false; confidence := None |}).
Proof.
  intros Hn. split.
  - intros hand Hh Hd.
    assert (E : Index.decide kp = Status200 (Index.result (Index.dist hand nose))).
    { unfold Index.nearestHand in Hh.
      destruct (kp !! "rightWrist") as [r|] eqn:Hr.
      - injection Hh as <-. apply index_decide_right; assumption.
      - simpl in Hh. apply index_decide_left; assumption. }
    rewrite E, (nan_is_nan _ Hd). reflexivity.
  - intros Hd. unfold nearest_decide. rewrite Hn.
    unfold nearest_result, nearest_closestHand, minDist.
    rewrite (Math_min_of_nan _ _ Hd). unfold JS.strict_eq.
    rewrite eqb_nan_l. reflexivity.
Qed.

Lemma nan_distance_is_answered_witness :
  Index.decide nan_wrist
  = Status200 {| closestHand := None; distance := nan;
                 accepted := false; confidence := Some nan |} /\
  Part001.decide nan_wrist
  = Status200 {| closestHand := Some "rightWrist"; distance := nan;
                 accepted := false; confidence := None |}.
Proof.
  destruct (nan_distance_is_answered Part001.dist nan_wrist
              {| x := 0; y := 0 |} eq_refl) as [H1 H2].
  split.
  - apply (H1 {| x := nan; y := 4 |}); reflexivity.
  - apply H2. left. reflexivity.
Defined.

End Judgments.

(** ** One wrist, two wrists *)

Module Wrists.
Import Binary64 Monotone Sign Distance Acceptance.

Lemma infinity_not_below (a : float) : (infinity <? a)%float = false.
Proof.
  rewrite FloatAxioms.ltb_spec. unfold SFltb.
  change (Prim2SF infinity) with (S754_infinity false).
  destruct (Prim2SF a) as [s|[]| |s m e]; reflexivity.
Qed.

(** A missing right wrist, at distance [Infinity], never wins. *)
Lemma Math_min_infinity_r (a : float) :
  is_nan a = false -> JS.Math_min [a; infinity] = a.
Proof.
  intros Ha. rewrite Math_min_pair by (exact Ha || reflexivity).
  unfold JS.min_step, JS.lt. rewrite infinity_not_below.
  change (JS.is_neg_zero infinity) with false. reflexivity.
Qed.

Lemma Math_min_infinity_l (b : float) :
  is_nan b = false -> JS.Math_min [infinity; b] = b.
Proof.
  intros Hb. rewrite Math_min_pair by (exact Hb || reflexivity).
  unfold JS.min_step, JS.lt.
  change (JS.is_pos_zero infinity) with false. rewrite andb_false_r.
  destruct (b <? infinity)%float eqn:E; [reflexivity|].
  symmetry. apply Compare.not_ltb_infinity; assumption.
Qed.

(** The minimum of two numbers is at most each of them. *)
Lemma Math_min_le (a b : float) :
  is_nan a = false -> is_nan b = false ->
  (JS.Math_min [a; b] <=? a)%float = true /\
  (JS.Math_min [a; b] <=? b)%float = true.
Proof.
  intros Ha Hb. rewrite Math_min_pair by assumption. unfold JS.min_step, JS.lt.
  destruct (JS.is_neg_zero b && JS.is_pos_zero a) eqn:Z.
  - apply andb_true_iff in Z as [Zb Za].
    apply FloatAxioms.Leibniz.eqb_spec in Zb, Za. subst. split; reflexivity.
  - destruct (b <? a)%float eqn:L.
    + split; [apply ltb_leb; exact L | apply leb_refl; exact Hb].
    + split; [apply leb_refl; exact Ha|].
      rewrite (Compare.leb_negb_ltb b a Hb Ha), L. reflexivity.
Qed.

Lemma dist_nonneg (a b : Position) :
  finite_position a -> finite_position b ->
  SFnonneg (Prim2SF (Index.dist a b)) = true.
Proof.
  intros [Hax Hay] [Hbx Hby]. unfold Index.dist, JS.Math_sqrt. cbv zeta.
  rewrite sqrt_spec, add_spec.
  apply SignFacts.SFsqrt_nonneg, SignFacts.SFadd_nonneg;
    apply square_nonneg; assumption.
Qed.

(** X14: for keypoints with finite coordinates, the distance that part_001
    measures is at most the one that index.js measures for the same [kp];
    with a single wrist the two are the same distance. *)
Theorem nearest_distance_is_at_most_right_priority
    (kp : KeypointSet) (nose hand : Position) :
  kp !! "nose" = Some nose ->
  Index.nearestHand kp = Some hand ->
  (forall name pos, kp !! name = Some pos -> finite_position pos) ->
  (minDist Part001.dist kp nose <=? Index.dist hand nose)%float = true /\
  (kp !! "leftWrist" = None \/ kp !! "rightWrist" = None ->
   minDist Part001.dist kp nose = Index.dist hand nose).
Proof.
  intros Hn Hh Hfin. pose proof (Hfin _ _ Hn) as Fn.
  unfold Index.nearestHand in Hh.
  unfold minDist, distLeft, distRight, Part001.dist, JS.Infinity.
  destruct (kp !! "rightWrist") as [r|] eqn:Hr.
  - injection Hh as <-. pose proof (Hfin _ _ Hr) as Fr.
    pose proof (nonneg_number _ (dist_nonneg r nose Fr Fn)) as Nr.
    destruct (kp !! "leftWrist") as [l|] eqn:Hl.
    + pose proof (Hfin _ _ Hl) as Fl.
      pose proof (nonneg_number _ (dist_nonneg l nose Fl Fn)) as Nl.
      split; [apply Math_min_le; assumption|].
      intros [E|E]; discriminate E.
    + rewrite (Math_min_infinity_l _ Nr).
      split; [apply leb_refl; exact Nr | reflexivity].
  - simpl in Hh. rewrite Hh. pose proof (Hfin _ _ Hh) as Fl.
    pose proof (nonneg_number _ (dist_nonneg hand nose Fl Fn)) as Nl.
    rewrite (Math_min_infinity_r _ Nl).
    split; [apply leb_refl; exact Nl | reflexivity].
Qed.

Lemma nearest_distance_is_at_most_right_priority_witness :
  (minDist Part001.dist kp7 {| x := 0; y := 0 |}
   <=? Index.dist {| x := 6; y := 8 |} {| x := 0; y := 0 |})%float = true.
Proof.
  apply (nearest_distance_is_at_most_right_priority kp7).
  - reflexivity.
  - reflexivity.
  - intros name pos H.
    destruct (decide (name = "nose")) as [->|N1];
      [injection H as <-; split; reflexivity|].
    destruct (decide (name = "leftWrist")) as [->|N2];
      [injection H as <-; split; reflexivity|].
    destruct (decide (name = "rightWrist")) as [->|N3];
      [injection H as <-; split; reflexivity|].
    unfold kp7 in H. rewrite !lookup_insert_ne, lookup_empty in H by congruence.
    discriminate H.
Defined.

(** X15: in part_000 and part_001 a single wrist is the selected one when
    its distance is a number below [Infinity] (left: any number), and the
    reply reports its distance; a right wrist at distance [Infinity] is
    reported under the label of the absent left wrist. *)
Theorem single_wrist_is_selected
    (dist : Position -> Position -> float)
    (kp : KeypointSet) (nose w : Position) :
  kp !! "nose" = Some nose ->
  is_nan (dist w nose) = false ->
  (kp !! "leftWrist" = Some w -> kp !! "rightWrist" = None ->
   nearest_decide dist kp
   = Status200 {| closestHand := Some "leftWrist";
                  distance := JS.parseFloat_toFixed (dist w nose) 2;
                  accepted := JS.ge (confidenceDecimal (dist w nose))
                                    nearest_ACCEPTANCE_THRESHOLD;
                  confidence := None |}) /\
  (kp !! "leftWrist" = None -> kp !! "rightWrist" = Some w ->
   (dist w nose <? infinity)%float = true ->
   nearest_decide dist kp
   = Status200 {| closestHand := Some "rightWrist";
                  distance := JS.parseFloat_toFixed (dist w nose) 2;
                  accepted := JS.ge (confidenceDecimal (dist w nose))
                                    nearest_ACCEPTANCE_THRESHOLD;
                  confidence := None |}) /\
  (kp !! "leftWrist" = None -> kp !! "rightWrist" = Some w ->
   dist w nose = infinity ->
   nearest_decide dist kp
   = Status200 {| closestHand := Some "leftWrist"; distance := infinity;
                  accepted := false; confidence := None |}).
Proof.
  intros Hn Hw. unfold nearest_decide. rewrite Hn.
  unfold nearest_result, nearest_closestHand, minDist, distLeft, distRight,
    JS.strict_eq, JS.Infinity.
  split; [|split].
  - intros -> ->. rewrite (Math_min_infinity_r _ Hw).
    rewrite (Compare.eqb_refl _ Hw). reflexivity.
  - intros -> -> L. rewrite (Math_min_infinity_l _ Hw).
    rewrite (Compare.ltb_not_eqb _ _ L). reflexivity.
  - intros -> -> E. rewrite E. reflexivity.
Qed.

Lemma single_wrist_is_selected_witness :
  Part001.decide left_only
  = Status200 {| closestHand := Some "leftWrist"; distance := 5;
                 accepted := true; confidence := None |}.
Proof.
  destruct (single_wrist_is_selected Part001.dist left_only
              {| x := 0; y := 0 |} {| x := 3; y := 4 |} eq_refl eq_refl)
    as [H _].
  apply H; reflexivity.
Defined.

End Wrists.

(** ** [parseFloat(x.toFixed(f))] *)

Module Printing.
Import Binary64 Digits Rounding RoundAux Nearest Order Division Subtraction
  Monotone Printed Decimals.

(** [binary_round_aux] ends on a zero, an infinity or a canonical finite
    number. *)
Lemma binary_round_aux_valid (s : bool) (mz ez : Z) (lz : location) (a b : Z) :
  0 <= a -> 0 < b -> mz = a / b -> lz = loc_of (a mod b) b ->
  0 <= Z.max (Zdigits2 mz - 53) (- (ez + 1074)) ->
  valid_binary (binary_round_aux prec emax s mz ez lz) = true.
Proof.
  intros Ha Hb Hm Hl Hn1.
  set (n1 := Z.max (Zdigits2 mz - 53) (- (ez + 1074))) in *.
  assert (Hmz : 0 <= mz) by (subst mz; apply Z.div_pos; lia).
  assert (P1 : 0 < 2 ^ n1) by (apply pow2_pos; lia).
  unfold binary_round_aux, shr_fexp. rewrite fexp_shift. fold n1.
  destruct (shr_truncates (shr_record_of_loc mz lz) ez n1 a b Ha Hb Hn1
              (record_of_loc_truncates mz lz a b Hm Hl)) as [[Tm Tl] Te].
  destruct (shr (shr_record_of_loc mz lz) ez n1) as [mrs' e'].
  simpl in Tm, Tl, Te. subst e'.
  rewrite Tm, Tl. fold (rhe a (b * 2 ^ n1)).
  set (n := rhe a (b * 2 ^ n1)).
  assert (Hm1 : a / (b * 2 ^ n1) = mz / 2 ^ n1)
    by (rewrite <- Z.div_div by lia; subst mz; reflexivity).
  assert (Hd1 : Zdigits2 (a / (b * 2 ^ n1)) = Z.max (Zdigits2 mz - n1) 0)
    by (rewrite Hm1; apply Zdigits2_shiftr; lia).
  assert (Hm1pos : 0 <= a / (b * 2 ^ n1)) by (apply Z.div_pos; nia).
  assert (Hm1lt : a / (b * 2 ^ n1) < 2 ^ 53)
    by (apply Zdigits2_lt_pow2; lia).
  assert (Hn : a / (b * 2 ^ n1) <= n <= a / (b * 2 ^ n1) + 1)
    by (unfold n; destruct (rhe_cases a (b * 2 ^ n1) ltac:(nia))
          as [[-> _]|[-> _]]; lia).
  rewrite fexp_shift.
  set (sh := ez + n1 + 1074). assert (Hsh : 0 <= sh) by lia.
  replace (- (ez + n1 + 1074)) with (- sh) by lia.
  assert (Hnorm : 0 < sh -> 2 ^ 52 <= n).
  { intros Hpos. assert (n1 = Zdigits2 mz - 53) by lia.
    assert (53 <= Zdigits2 (a / (b * 2 ^ n1))) by lia.
    apply (Zdigits2_le_pow2 _ 53) in H0; lia. }
  set (n2 := if Z.eq_dec n (2 ^ 53) then 1 else 0).
  assert (Hn2 : 0 <= n2 <= 1) by (unfold n2; destruct (Z.eq_dec _ _); lia).
  assert (Hshr2 : exists mrs'',
             shr (shr_record_of_loc n loc_Exact) (ez + n1)
                 (Z.max (Zdigits2 n - 53) (- sh)) = (mrs'', ez + n1 + n2)
             /\ 0 <= shr_m mrs'' < 2 ^ 53
             /\ (0 < sh + n2 -> 2 ^ 52 <= shr_m mrs'')).
  { unfold n2. destruct (Z.eq_dec n (2 ^ 53)) as [E|NE].
    - rewrite E. change (Zdigits2 (2 ^ 53) - 53) with 1.
      rewrite Z.max_l by lia.
      eexists. split; [reflexivity|].
      split; [split|intros _]; vm_compute; try reflexivity; discriminate.
    - assert (Hlt : n < 2 ^ 53) by lia.
      assert (Hdn : Zdigits2 n <= 53) by (apply Zdigits2_lt_pow2; lia).
      rewrite shr_nonpos by lia. eexists. split; [f_equal; lia|].
      replace (shr_m (shr_record_of_loc n loc_Exact)) with n by reflexivity.
      repeat split; try lia. }
  destruct Hshr2 as (mrs'' & -> & Hrange & Hnorm'').
  replace (ez + n1 + n2) with (sh + n2 - 1074) by lia.
  assert (Hs2 : 0 <= sh + n2) by lia.
  revert Hs2 Hnorm''. generalize (sh + n2). intros k Hk Hnorm''.
  destruct (shr_m mrs'') as [|p|p] eqn:Em; [reflexivity| |lia].
  destruct (Z.leb_spec (k - 1074) (emax - prec)) as [L|L]; [|reflexivity].
  unfold SpecFloat.valid_binary, bounded. apply andb_true_iff.
  split; [|apply Z.leb_le; exact L].
  unfold canonical_mantissa. apply Z.eqb_eq.
  change (Z.pos (digits2_pos p)) with (Zdigits2 (Z.pos p)).
  assert (Hd : Zdigits2 (Z.pos p) <= 53) by (apply Zdigits2_lt_pow2; lia).
  unfold fexp, SpecFloat.emin, prec, emax.
  destruct (Z.eq_dec k 0) as [->|Hk0]; [lia|].
  assert (53 <= Zdigits2 (Z.pos p))
    by (apply Zdigits2_le_pow2; try lia; apply Hnorm''; lia).
  lia.
Qed.

Lemma pow2_balance (sh k k' ex ey : Z) :
  0 <= sh -> 0 <= k -> 0 <= k' -> -1074 <= ex -> -1074 <= ey ->
  sh + k + (ey + 1074) = ex + 1074 + 1074 + k' ->
  2 ^ sh * 2 ^ k * 2 ^ (ey + 1074) = 2 ^ (ex + 1074) * 2 ^ 1074 * 2 ^ k'.
Proof.
  intros H1 H2 H3 H4 H5 H6. rewrite <- !Z.pow_add_r by lia. f_equal. exact H6.
Qed.

(** The quotient of two positive integers with exponents, rounded: a valid
    number whose rank is the nearest scaled value to the quotient. *)
Lemma div_core_round (s : bool) (mx my : positive) (ex ey : Z) (q e : Z)
    (l : location) :
  -1074 <= ex -> -1074 <= ey ->
  SFdiv_core_binary prec emax (Z.pos mx) ex (Z.pos my) ey = (q, e, l) ->
  valid_binary (binary_round_aux prec emax s q e l) = true /\
  binary_round_aux prec emax s q e l <> S754_nan /\
  rank (binary_round_aux prec emax s q e l)
  = cond_Zopp s (Z.min (RN (mag mx ex * 2 ^ 1074) (mag my ey)) cap).
Proof.
  intros Bx By. unfold SFdiv_core_binary.
  pose proof (Zdigits2_bounds (Z.pos mx) ltac:(lia)) as [L1 _].
  pose proof (Zdigits2_bounds (Z.pos my) ltac:(lia)) as [_ U2].
  pose proof (Zdigits2_pos mx) as D1. pose proof (Zdigits2_pos my) as D2.
  set (d1 := Zdigits2 (Z.pos mx)) in *. set (d2 := Zdigits2 (Z.pos my)) in *.
  set (e' := Z.min (fexp prec emax (d1 + ex - (d2 + ey))) (ex - ey)).
  set (sh := ex - ey - e').
  assert (Hs : 0 <= sh) by (unfold sh, e'; lia).
  rewrite (shifted_mantissa (Z.pos mx) sh Hs), div_eucl_div_mod.
  assert (Ps : 0 < 2 ^ sh) by (apply pow2_pos; lia).
  set (a := Z.pos mx * 2 ^ sh). set (b := Z.pos my).
  assert (Ha : 0 <= a) by (unfold a; lia).
  assert (Hb : 0 < b) by (unfold b; lia).
  assert (Hloc : new_location b (a mod b) = loc_of (a mod b) b)
    by (apply new_location_loc_of; [lia|apply Z.mod_pos_bound; lia]).
  rewrite Hloc. intros E. injection E as <- <- <-.
  assert (Hpre : 0 <= Z.max (Zdigits2 (a / b) - 53) (- (e' + 1074))).
  { destruct (Z_le_gt_dec (e' + 1074) 0) as [|Hk]; [lia|].
    assert (He' : e' <= d1 + ex - (d2 + ey) - 53)
      by (unfold e', fexp, SpecFloat.emin, prec, emax in *; lia).
    assert (Hq : 2 ^ 52 <= a / b).
    { apply Z.div_le_lower_bound; [lia|].
      apply Z.le_trans with (2 ^ d2 * 2 ^ 52);
        [apply Z.mul_le_mono_nonneg_r; unfold b; lia|].
      apply Z.le_trans with (2 ^ (d1 - 1) * 2 ^ sh);
        [|apply Z.mul_le_mono_nonneg_r; unfold a; lia].
      rewrite <- !Z.pow_add_r by lia.
      apply Z.pow_le_mono_r; unfold sh; lia. }
    assert (53 <= Zdigits2 (a / b)).
    { apply Zdigits2_le_pow2; try lia. }
    lia. }
  split; [exact (binary_round_aux_valid s (a / b) e' _ a b Ha Hb
                   eq_refl eq_refl Hpre)|].
  destruct (binary_round_aux_RN s (a / b) e' _ a b Ha Hb
              eq_refl eq_refl Hpre) as [Hnan Hr].
  split; [exact Hnan|]. rewrite Hr. do 2 f_equal.
  set (k := e' + 1074).
  apply RN_ext; unfold mag.
  - apply Z.mul_nonneg_nonneg; [exact Ha|]. apply Z.lt_le_incl, pow2_pos. lia.
  - apply Z.mul_pos_pos; [exact Hb|]. apply pow2_pos. lia.
  - apply Z.lt_le_incl, Z.mul_pos_pos; [apply Z.mul_pos_pos; [lia|]|];
      apply pow2_pos; lia.
  - apply Z.mul_pos_pos; [lia|]. apply pow2_pos. lia.
  - unfold a, b.
    replace (Z.pos mx * 2 ^ sh * 2 ^ Z.max k 0 * (Z.pos my * 2 ^ (ey + 1074)))
      with (Z.pos mx * Z.pos my * (2 ^ sh * 2 ^ Z.max k 0 * 2 ^ (ey + 1074)))
      by ring.
    replace (Z.pos mx * 2 ^ (ex + 1074) * 2 ^ 1074
             * (Z.pos my * 2 ^ Z.max (- k) 0))
      with (Z.pos mx * Z.pos my
            * (2 ^ (ex + 1074) * 2 ^ 1074 * 2 ^ Z.max (- k) 0))
      by ring.
    f_equal. apply pow2_balance; unfold sh, k; lia.
Qed.

Lemma RN_0 (b : Z) : 0 < b -> RN 0 b = 0.
Proof.
  intros Hb. unfold RN. rewrite Z.div_0_l by lia.
  change (sig_shift 0) with 0. rewrite Z.mul_1_r.
  unfold rhe. rewrite Z.div_0_l, Z.mod_0_l by lia. reflexivity.
Qed.

Lemma iter_shr_1_zero (p : positive) :
  SpecFloat.iter_pos shr_1 p (Build_shr_record 0 false false)
  = Build_shr_record 0 false false.
Proof.
  induction p as [p IH|p IH|]; simpl SpecFloat.iter_pos;
    rewrite ?IH; reflexivity.
Qed.

Lemma shr_zero (e n : Z) :
  fst (shr (Build_shr_record 0 false false) e n)
  = Build_shr_record 0 false false.
Proof.
  destruct n as [|p|p]; try reflexivity. simpl. apply iter_shr_1_zero.
Qed.

Lemma binary_round_aux_zero (s : bool) (e : Z) :
  binary_round_aux prec emax s 0 e loc_Exact = S754_zero s.
Proof.
  unfold binary_round_aux, shr_fexp.
  change (shr_record_of_loc 0 loc_Exact) with (Build_shr_record 0 false false).
  pose proof (shr_zero e (fexp prec emax (Zdigits2 0 + e) - e)) as H1.
  destruct (shr _ e _) as [mrs' e']. simpl in H1. subst mrs'.
  change (round_nearest_even _ _) with 0.
  change (shr_record_of_loc 0 loc_Exact) with (Build_shr_record 0 false false).
  pose proof (shr_zero e' (fexp prec emax (Zdigits2 0 + e') - e')) as H2.
  destruct (shr _ e' _) as [mrs'' e'']. simpl in H2. subst mrs''.
  reflexivity.
Qed.

(** What [parseFloat] reads from the digits of [n / d]. *)
Lemma nearest_quotient_rank (s : bool) (n d : Z) :
  0 <= n -> 0 < d ->
  valid_binary (JS.nearest_quotient s n d) = true /\
  JS.nearest_quotient s n d <> S754_nan /\
  rank (JS.nearest_quotient s n d)
  = cond_Zopp s (Z.min (RN (n * 2 ^ 1074) d) cap).
Proof.
  intros Hn Hd. pose proof cap_pos as C. unfold JS.nearest_quotient.
  destruct n as [|mx|mx]; [| |lia].
  - assert (E : SFdiv_core_binary prec emax 0 0 d 0
                = (0, Z.min (fexp prec emax (0 + 0 - (Zdigits2 d + 0))) (0 - 0),
                   loc_Exact)).
    { unfold SFdiv_core_binary.
      set (sh := 0 - 0 - _).
      assert (M : match sh with
                  | Z.pos _ => Z.shiftl 0 sh | _ => 0 end = 0)
        by (destruct sh; [reflexivity|apply Z.shiftl_0_l|reflexivity]).
      rewrite M, div_eucl_div_mod, Z.div_0_l, Z.mod_0_l by lia.
      rewrite new_location_loc_of by lia. reflexivity. }
    rewrite E, binary_round_aux_zero. split; [reflexivity|].
    split; [discriminate|]. rewrite Z.mul_0_l, RN_0 by lia.
    rewrite Z.min_l by lia. destruct s; reflexivity.
  - destruct d as [|my|my]; try lia.
    destruct (SFdiv_core_binary prec emax (Z.pos mx) 0 (Z.pos my) 0)
      as [[q e] l] eqn:E.
    destruct (div_core_round s mx my 0 0 q e l ltac:(lia) ltac:(lia) E)
      as (V & N & R).
    split; [exact V|]. split; [exact N|]. rewrite R. do 2 f_equal.
    assert (P : 0 < 2 ^ 1074) by (apply pow2_pos; lia).
    unfold mag. rewrite Z.add_0_l. apply RN_ext; nia.
Qed.

(** [toFixed]'s integer in terms of the scaled magnitude. *)
Lemma toFixed_n_mag (f : nat) (m : positive) (e : Z) :
  -1074 <= e ->
  JS.toFixed_n f m e
  = (2 * mag m e * 10 ^ Z.of_nat f + 2 ^ 1074) / (2 * 2 ^ 1074).
Proof.
  intros He. unfold JS.toFixed_n, mag.
  set (p := 10 ^ Z.of_nat f).
  assert (P : 0 < 2 ^ 1074) by (apply pow2_pos; lia).
  destruct (Z.leb_spec 0 e) as [L|L].
  - rewrite Z.pow_add_r by lia.
    replace (2 * (Z.pos m * (2 ^ e * 2 ^ 1074)) * p + 2 ^ 1074)
      with ((2 * (Z.pos m * 2 ^ e * p) + 1) * 2 ^ 1074) by ring.
    rewrite Z.div_mul_cancel_r by lia.
    apply Z.div_unique with 1; lia.
  - assert (Q : 0 < 2 ^ (e + 1074)) by (apply pow2_pos; lia).
    assert (R : 0 < 2 ^ (- e)) by (apply pow2_pos; lia).
    replace (2 ^ 1074) with (2 ^ (- e) * 2 ^ (e + 1074))
      by (rewrite <- Z.pow_add_r by lia; f_equal; lia).
    replace (2 * (Z.pos m * 2 ^ (e + 1074)) * p + 2 ^ (- e) * 2 ^ (e + 1074))
      with ((2 * Z.pos m * p + 2 ^ (- e)) * 2 ^ (e + 1074)) by ring.
    replace (2 * (2 ^ (- e) * 2 ^ (e + 1074)))
      with (2 * 2 ^ (- e) * 2 ^ (e + 1074)) by ring.
    rewrite Z.div_mul_cancel_r by lia. reflexivity.
Qed.

Lemma pow10_pos (f : nat) : 0 < 10 ^ Z.of_nat f.
Proof. apply Z.pow_pos_nonneg; lia. Qed.

Lemma toFixed_n_nonneg (f : nat) (m : positive) (e : Z) :
  -1074 <= e -> 0 <= JS.toFixed_n f m e.
Proof.
  intros He. rewrite toFixed_n_mag by exact He.
  pose proof (pow10_pos f). unfold mag.
  assert (0 < 2 ^ (e + 1074)) by (apply pow2_pos; lia).
  assert (0 < 2 ^ 1074) by (apply pow2_pos; lia).
  apply Z.div_pos; nia.
Qed.

Lemma printed_rank_0 (f : nat) : printed_rank f 0 = 0.
Proof.
  unfold printed_rank. pose proof cap_pos as C. pose proof (pow10_pos f).
  destruct (Z.leb_spec cap 0); [lia|].
  assert (P : 0 < 2 ^ 1074) by (apply pow2_pos; lia).
  change (2 * 0) with 0. rewrite (Z.mul_0_l (10 ^ Z.of_nat f)).
  rewrite (Z.add_0_l (2 ^ 1074)), Z.div_small by lia.
  rewrite Z.mul_0_l, RN_0 by lia. lia.
Qed.

Lemma printed_rank_bounds (f : nat) (X : Z) :
  0 <= X -> 0 <= printed_rank f X <= cap.
Proof.
  intros HX. unfold printed_rank. pose proof cap_pos as C.
  pose proof (pow10_pos f).
  assert (P : 0 < 2 ^ 1074) by (apply pow2_pos; lia).
  destruct (Z.leb_spec cap X); [lia|].
  assert (0 <= (2 * X * 10 ^ Z.of_nat f + 2 ^ 1074) / (2 * 2 ^ 1074))
    by (apply Z.div_pos; nia).
  pose proof (RN_nonneg ((2 * X * 10 ^ Z.of_nat f + 2 ^ 1074) / (2 * 2 ^ 1074)
                         * 2 ^ 1074) (10 ^ Z.of_nat f) ltac:(nia) ltac:(lia)).
  lia.
Qed.

Lemma printed_rank_mono (f : nat) (r1 r2 : Z) :
  0 <= r1 <= r2 -> printed_rank f r1 <= printed_rank f r2.
Proof.
  intros HX. pose proof (printed_rank_bounds f r1 ltac:(lia)) as B1.
  unfold printed_rank in *. pose proof cap_pos as C.
  pose proof (pow10_pos f) as Hp. set (p := 10 ^ Z.of_nat f) in *.
  assert (P : 0 < 2 ^ 1074) by (apply pow2_pos; lia).
  destruct (Z.leb_spec cap r2); [lia|].
  destruct (Z.leb_spec cap r1); [lia|].
  set (n1 := (2 * r1 * p + 2 ^ 1074) / (2 * 2 ^ 1074)).
  set (n2 := (2 * r2 * p + 2 ^ 1074) / (2 * 2 ^ 1074)).
  assert (H1 : 0 <= n1) by (apply Z.div_pos; nia).
  assert (H12 : n1 <= n2) by (apply Z.div_le_mono; nia).
  assert (RN (n1 * 2 ^ 1074) p <= RN (n2 * 2 ^ 1074) p)
    by (apply RN_mono; nia).
  lia.
Qed.

Lemma printed_signed_mono (f : nat) (z1 z2 : Z) :
  z1 <= z2 -> printed_signed f z1 <= printed_signed f z2.
Proof.
  intros H. unfold printed_signed.
  pose proof (printed_rank_bounds f (Z.abs z1) ltac:(lia)).
  pose proof (printed_rank_bounds f (Z.abs z2) ltac:(lia)).
  destruct (Z.ltb_spec z1 0), (Z.ltb_spec z2 0); cbn [cond_Zopp]; try lia.
  - pose proof (printed_rank_mono f (Z.abs z2) (Z.abs z1) ltac:(lia)). lia.
  - apply printed_rank_mono. lia.
Qed.

Lemma parseFloat_toFixed_frank (x : float) (f : nat) :
  is_nan x = false ->
  is_nan (JS.parseFloat_toFixed x f) = false /\
  frank (JS.parseFloat_toFixed x f) = printed_signed f (frank x).
Proof.
  intros Hx. pose proof (Prim2SF_valid x) as V. pose proof cap_pos as C.
  pose proof Hx as Hx'. apply not_nan_spec in Hx'.
  unfold JS.parseFloat_toFixed, frank, printed_signed.
  destruct (Prim2SF x) as [s|s| |s m e] eqn:E; [| |congruence|].
  - split; [reflexivity|]. change (rank (Prim2SF 0)) with 0.
    change (rank (S754_zero s)) with 0. simpl Z.abs.
    rewrite printed_rank_0. reflexivity.
  - split; [exact Hx|]. rewrite E. unfold rank, printed_rank.
    destruct s; cbn [cond_Zopp].
    + destruct (Z.ltb_spec (- cap) 0); [|lia].
      replace (Z.abs (- cap)) with cap by lia. rewrite Z.leb_refl. reflexivity.
    + destruct (Z.ltb_spec cap 0); [lia|].
      replace (Z.abs cap) with cap by lia. rewrite Z.leb_refl. reflexivity.
  - destruct (valid_finite s m e V) as (Be & _ & _).
    pose proof (mag_pos s m e V) as M.
    destruct (nearest_quotient_rank s (JS.toFixed_n f m e) (10 ^ Z.of_nat f)
                (toFixed_n_nonneg f m e ltac:(lia)) (pow10_pos f))
      as (Vr & Nr & Rr).
    rewrite Prim2SF_SF2Prim by exact Vr.
    split.
    + apply not_nan_spec. rewrite Prim2SF_SF2Prim by exact Vr. exact Nr.
    + rewrite Rr, toFixed_n_mag by lia. unfold rank. fold (mag m e).
      unfold printed_rank.
      destruct s; cbn [cond_Zopp].
      * destruct (Z.ltb_spec (- mag m e) 0); [|lia].
        replace (Z.abs (- mag m e)) with (mag m e) by lia.
        destruct (Z.leb_spec cap (mag m e)); [lia|]. reflexivity.
      * destruct (Z.ltb_spec (mag m e) 0); [lia|].
        replace (Z.abs (mag m e)) with (mag m e) by lia.
        destruct (Z.leb_spec cap (mag m e)); [lia|]. reflexivity.
Qed.

Lemma parseFloat_toFixed_nan (x : float) (f : nat) :
  is_nan x = true -> JS.parseFloat_toFixed x f = nan.
Proof.
  intros H. apply Compare.is_nan_spec in H. unfold JS.parseFloat_toFixed.
  rewrite H. reflexivity.
Qed.

Lemma parseFloat_toFixed_le (x y : float) (f : nat) :
  (x <=? y)%float = true ->
  (JS.parseFloat_toFixed x f <=? JS.parseFloat_toFixed y f)%float = true.
Proof.
  intros H. apply leb_frank in H as (Hx & Hy & Hxy).
  destruct (parseFloat_toFixed_frank x f Hx) as [Nx Rx].
  destruct (parseFloat_toFixed_frank y f Hy) as [Ny Ry].
  apply leb_frank. split; [exact Nx|]. split; [exact Ny|].
  rewrite Rx, Ry. apply printed_signed_mono. exact Hxy.
Qed.

(** A valid number with the rank of a finite number is that number. *)
Lemma rank_finite_inj (a : spec_float) (s : bool) (m : positive) (e : Z) :
  valid_binary a = true -> a <> S754_nan ->
  valid_binary (S754_finite s m e) = true ->
  rank a = rank (S754_finite s m e) -> a = S754_finite s m e.
Proof.
  intros Va Na Vb H.
  pose proof (SFcompare_rank a (S754_finite s m e) Va Vb Na ltac:(discriminate))
    as C.
  rewrite H, Z.compare_refl in C.
  destruct a as [sa|sa| |sa ma ea]; try congruence.
  - simpl in C. destruct s; discriminate.
  - simpl in C. destruct sa; discriminate.
  - simpl in C. destruct sa, s; try discriminate;
      destruct (Z.compare_spec ea e) as [->|L|L]; try discriminate.
    + f_equal. apply Pos.compare_eq. unfold Pos.compare.
      destruct (Pos.compare_cont Eq ma m); try discriminate; reflexivity.
    + f_equal. apply Pos.compare_eq. unfold Pos.compare.
      destruct (Pos.compare_cont Eq ma m); try discriminate; reflexivity.
Qed.

Lemma parseFloat_toFixed_exact (x : float) (f : nat) :
  has_decimals f x -> x <> neg_zero -> JS.parseFloat_toFixed x f = x.
Proof.
  intros [n Hn] Hz. pose proof (Prim2SF_valid x) as V.
  unfold JS.parseFloat_toFixed. unfold frank in Hn.
  destruct (Prim2SF x) as [s|s| |s m e] eqn:E.
  - apply Prim2SF_inj. rewrite E. destruct s; [|reflexivity].
    exfalso. apply Hz. apply Prim2SF_inj. rewrite E. reflexivity.
  - reflexivity.
  - apply Prim2SF_inj. rewrite E. reflexivity.
  - destruct (valid_finite s m e V) as (Be & _ & _).
    pose proof (mag_pos s m e V) as M. pose proof (pow10_pos f) as Hp.
    set (p := 10 ^ Z.of_nat f) in *.
    assert (P : 0 < 2 ^ 1074) by (apply pow2_pos; lia).
    unfold rank in Hn. fold (mag m e) in Hn.
    assert (Hn' : mag m e * p = cond_Zopp s n * 2 ^ 1074).
    { destruct s; cbn [cond_Zopp] in *.
      - rewrite Z.mul_opp_l in *. lia.
      - exact Hn. }
    set (n' := cond_Zopp s n) in *.
    assert (N0 : 0 <= n').
    { destruct (Z_lt_le_dec n' 0) as [L|L]; [exfalso|exact L].
      assert (0 < mag m e * p) by (apply Z.mul_pos_pos; lia).
      assert (n' * 2 ^ 1074 < 0) by (apply Z.mul_neg_pos; lia). lia. }
    assert (Hfix : JS.toFixed_n f m e = n').
    { rewrite toFixed_n_mag by lia. fold p.
      replace (2 * mag m e * p) with (2 * (mag m e * p)) by ring.
      rewrite Hn'.
      replace (2 * (n' * 2 ^ 1074) + 2 ^ 1074) with ((2 * n' + 1) * 2 ^ 1074)
        by ring.
      rewrite Z.div_mul_cancel_r by lia.
      symmetry. apply Z.div_unique with 1; lia. }
    rewrite Hfix.
    destruct (nearest_quotient_rank s n' p N0 Hp) as (Vr & Nr & Rr).
    apply Prim2SF_inj. rewrite Prim2SF_SF2Prim by exact Vr. rewrite E.
    apply rank_finite_inj; try assumption.
    rewrite Rr. unfold rank. fold (mag m e). f_equal.
    rewrite <- Hn'.
    rewrite (RN_ext (mag m e * p) p (mag m e) 1) by (try lia; ring).
    rewrite (RN_mag s m e V). lia.
Qed.

End Printing.
(** ** What the reply reports *)

Module Reported.
Import Binary64 Monotone Sign Distance Acceptance Judgments Printing
  Decimals.

(** X16: printing a number with [toFixed] and reading it back keeps the
    order of numbers, for any number of decimals: a longer distance is
    never reported as a shorter one. *)
Theorem printing_keeps_order (x y : float) (f : nat) :
  (x <=? y)%float = true ->
  (JS.parseFloat_toFixed x f <=? JS.parseFloat_toFixed y f)%float = true.
Proof. apply parseFloat_toFixed_le. Qed.

Lemma printing_keeps_order_witness :
  (JS.parseFloat_toFixed 2.344 2 <=? JS.parseFloat_toFixed 2.346 2)%float = true.
Proof. apply (printing_keeps_order 2.344 2.346 2). reflexivity. Defined.

Lemma printed_nonneg (x : float) (f : nat) :
  (0 <=? x)%float = true -> (0 <=? JS.parseFloat_toFixed x f)%float = true.
Proof. intros H. exact (parseFloat_toFixed_le 0 x f H). Qed.

Lemma printed_nan_or_nonneg (x : float) (f : nat) :
  is_nan x = true \/ (0 <=? x)%float = true ->
  is_nan (JS.parseFloat_toFixed x f) = true
  \/ (0 <=? JS.parseFloat_toFixed x f)%float = true.
Proof.
  intros [H|H].
  - left. rewrite (parseFloat_toFixed_nan x f H). reflexivity.
  - right. apply printed_nonneg, H.
Qed.

Lemma ltb_false_leb (a b : float) :
  is_nan a = false -> is_nan b = false ->
  (a <? b)%float = false -> (b <=? a)%float = true.
Proof.
  intros Ha Hb H. apply leb_frank. split; [exact Hb|]. split; [exact Ha|].
  destruct (Z_lt_le_dec (frank a) (frank b)) as [L|L]; [|lia].
  assert (T : (a <? b)%float = true) by (apply ltb_frank; auto).
  congruence.
Qed.

Lemma leb_false_ltb (a b : float) :
  is_nan a = false -> is_nan b = false ->
  (a <=? b)%float = false -> (b <? a)%float = true.
Proof.
  intros Ha Hb H. apply ltb_frank. split; [exact Hb|]. split; [exact Ha|].
  destruct (Z_lt_le_dec (frank b) (frank a)) as [L|L]; [lia|].
  assert (T : (a <=? b)%float = true) by (apply leb_frank; auto).
  congruence.
Qed.

Lemma Math_min_choice (a b : float) :
  is_nan a = false -> is_nan b = false ->
  JS.Math_min [a; b] = a \/ JS.Math_min [a; b] = b.
Proof.
  intros Ha Hb. rewrite Math_min_pair by assumption. unfold JS.min_step.
  destruct (_ && _); [right; reflexivity|].
  destruct (JS.lt b a); [right|left]; reflexivity.
Qed.

Lemma Math_min_not_negative (a b : float) :
  is_nan a = true \/ (0 <=? a)%float = true ->
  is_nan b = true \/ (0 <=? b)%float = true ->
  is_nan (JS.Math_min [a; b]) = true \/ (0 <=? JS.Math_min [a; b])%float = true.
Proof.
  intros [Ha|Ha] Hb.
  { left. rewrite Math_min_of_nan by (left; exact Ha). reflexivity. }
  destruct Hb as [Hb|Hb].
  { left. rewrite Math_min_of_nan by (right; exact Hb). reflexivity. }
  right. pose proof Ha as Ha'. pose proof Hb as Hb'.
  apply leb_frank in Ha' as (_ & Na & _). apply leb_frank in Hb' as (_ & Nb & _).
  destruct (Math_min_choice a b Na Nb) as [-> | ->]; assumption.
Qed.

Lemma minDist_not_negative (dist : Position -> Position -> float)
    (kp : KeypointSet) (nose : Position) :
  (forall a b, is_nan (dist a b) = true \/ (0 <=? dist a b)%float = true) ->
  is_nan (minDist dist kp nose) = true
  \/ (0 <=? minDist dist kp nose)%float = true.
Proof.
  intros H. unfold minDist, distLeft, distRight.
  apply Math_min_not_negative.
  - destruct (kp !! "leftWrist"); [apply H|right; reflexivity].
  - destruct (kp !! "rightWrist"); [apply H|right; reflexivity].
Qed.

Lemma dist_not_negative (a b : Position) :
  is_nan (Index.dist a b) = true \/ (0 <=? Index.dist a b)%float = true.
Proof. apply sqrt_not_negative. Qed.

Lemma index_confidence_range (d : float) :
  is_nan d = false -> (0 <=? d)%float = true ->
  (0 <=? JS.parseFloat_toFixed (Index.confidence d) 3)%float = true /\
  (JS.parseFloat_toFixed (Index.confidence d) 3 <=? 1)%float = true.
Proof.
  intros Hd H0.
  destruct (clamped_range _ d _ _ threshold_1500 Hd) as [A B].
  split.
  - apply printed_nonneg. exact A.
  - exact (parseFloat_toFixed_le _ 1 3 (B H0)).
Qed.

(** X17: what a 200 reply reports is in range: the distance is [NaN] or a
    number not below zero, in every revision and whatever [**] returns in
    part_000; in index.js the confidence is [NaN] with a [NaN] distance and
    otherwise a number from 0 to 1, after rounding to three decimals. *)
Theorem reported_fields_in_range :
  (forall kp j,
      Index.decide kp = Status200 j ->
      (is_nan (distance j) = true /\ confidence j = Some nan) \/
      ((0 <=? distance j)%float = true /\
       exists c, confidence j = Some c /\
                 (0 <=? c)%float = true /\ (c <=? 1)%float = true)) /\
  (forall exponentiate kp j,
      Part001.decide kp = Status200 j
      \/ Part000.decide exponentiate kp = Status200 j ->
      is_nan (distance j) = true \/ (0 <=? distance j)%float = true).
Proof.
  split.
  - intros kp j H.
    destruct (index_decide_200 kp j H) as (nose & hand & Hn & Hh & ->).
    unfold Index.result. cbn [distance confidence].
    destruct (dist_not_negative hand nose) as [N|P].
    + left. rewrite (nan_is_nan _ N). split; reflexivity.
    + right. split; [apply printed_nonneg; exact P|].
      eexists. split; [reflexivity|].
      apply index_confidence_range; [|exact P].
      apply leb_frank in P. tauto.
  - intros exponentiate kp j [H|H].
    + destruct (nearest_decide_200 kp _ j H) as (nose & Hn & ->).
      cbn [nearest_result distance].
      apply printed_nan_or_nonneg, minDist_not_negative.
      intros a b. apply sqrt_not_negative.
    + destruct (nearest_decide_200 kp _ j H) as (nose & Hn & ->).
      cbn [nearest_result distance].
      apply printed_nan_or_nonneg, minDist_not_negative.
      intros a b. apply sqrt_not_negative.
Qed.

(** X18: the reported fields agree with [accepted]. In index.js an accepted
    reply reports a distance of at most 1350 and a confidence of at least
    0.1, and a reply that is not accepted, for a distance that is a number,
    a distance of at least 1350 and a confidence of at most 0.1; in the
    earlier revisions the reported distance is at most 495 when accepted and
    at least 495 when not. The bounds are met: at distance 1350 index.js
    reports confidence 0.1 and accepted false. *)
Theorem reported_fields_agree_with_accepted (d : float) :
  (accepted (Index.result d) = true ->
   (distance (Index.result d) <=? 1350)%float = true /\
   exists c, confidence (Index.result d) = Some c /\ (0.1 <=? c)%float = true) /\
  (accepted (Index.result d) = false -> is_nan d = false ->
   (1350 <=? distance (Index.result d))%float = true /\
   exists c, confidence (Index.result d) = Some c /\ (c <=? 0.1)%float = true) /\
  (forall dist kp nose,
      minDist dist kp nose = d ->
      (accepted (nearest_result dist kp nose) = true ->
       (distance (nearest_result dist kp nose) <=? 495)%float = true) /\
      (accepted (nearest_result dist kp nose) = false -> is_nan d = false ->
       (495 <=? distance (nearest_result dist kp nose))%float = true)) /\
  Index.result 1350
  = {| closestHand := None; distance := 1350; accepted := false;
       confidence := Some 0.1%float |}.
Proof.
  split; [|split; [|split; [|reflexivity]]].
  - unfold Index.result. cbn [accepted distance confidence]. intros H.
    split.
    + rewrite index_accepts_below_1350 in H.
      exact (parseFloat_toFixed_le d 1350 2 (ltb_leb _ _ H)).
    + eexists. split; [reflexivity|].
      exact (parseFloat_toFixed_le 0.1 _ 3 H).
  - unfold Index.result. cbn [accepted distance confidence]. intros H Hd.
    split.
    + rewrite index_accepts_below_1350 in H.
      exact (parseFloat_toFixed_le 1350 d 2
               (ltb_false_leb d 1350 Hd eq_refl H)).
    + eexists. split; [reflexivity|].
      destruct (clamped_range _ d _ _ threshold_1500 Hd) as [A _].
      apply leb_frank in A as (_ & Nc & _).
      unfold JS.ge in H.
      exact (parseFloat_toFixed_le _ 0.1 3
               (ltb_leb _ _
                  (leb_false_ltb Index.ACCEPTANCE_THRESHOLD
                     (Index.confidence d) eq_refl Nc H))).
  - intros dist kp nose E. unfold nearest_result.
    cbn [accepted distance]. rewrite E, nearest_accepts_below_495.
    split.
    + intros H. exact (parseFloat_toFixed_le d 495 2 (ltb_leb _ _ H)).
    + intros H Hd.
      exact (parseFloat_toFixed_le 495 d 2 (ltb_false_leb d 495 Hd eq_refl H)).
Qed.

(** X19: a number with at most [f] decimals is printed and read back
    unchanged: when [x * 10^f] is an integer and [x] is not [-0],
    [parseFloat(x.toFixed(f))] is [x] itself, and so it is for the
    infinities and [NaN]; [-0] is read back as [+0]. *)
Theorem printing_short_decimals_is_exact (x : float) (f : nat) :
  has_decimals f x -> x <> neg_zero ->
  JS.parseFloat_toFixed x f = x /\ JS.parseFloat_toFixed neg_zero f = 0%float.
Proof.
  intros H Hz. split; [apply parseFloat_toFixed_exact; assumption|reflexivity].
Qed.

Lemma printing_short_decimals_is_exact_witness :
  JS.parseFloat_toFixed 1350.25 2 = 1350.25%float.
Proof.
  apply (printing_short_decimals_is_exact 1350.25 2).
  - exists 135025. vm_compute. reflexivity.
  - intros H. apply (f_equal Prim2SF) in H. vm_compute in H. discriminate H.
Defined.

End Reported.
